(** * Genesis Plus GX sound hardware glue (core/sound/sound.c)

    A shallow embedding of the FM clock scheduler ([fm_update]), the
    register access wrappers, the frame mixer ([sound_update]), backend
    selection ([sound_init], [sound_reset]) and the save-state code
    ([sound_context_save], [sound_context_load]), followed by the
    properties of the design document proved or refuted against it.

    Conventions of the embedding
    - C integers are [Z].  [uint32]/[unsigned int] arithmetic wraps modulo
      2^32 ([u32]); [int] arithmetic wraps in two's complement ([s32]), the
      convention of CompCert and of every target the emulator is built for.
    - Behaviour C leaves undefined (division by zero, access outside
      [fm_buffer], a call through a NULL function pointer) is the outcome
      [Undefined].  The [do ... while] loops of [sound_update] take fuel;
      running out of it is the outcome [OutOfFuel].
    - The chips, the PSG and the resampler are collaborators whose code is
      outside sound.c: they are the methods of the class [Collaborators].
    - File-scope variables of sound.c and the globals it reads or writes
      form the record [machine], threaded by the monad [M]. *)

From Stdlib Require Import ZArith Lia List Bool.
From stdpp Require Import base list.

Local Open Scope Z_scope.

(** ** C integer arithmetic *)

Module CInt.

Definition u32 (x : Z) : Z := x mod 2 ^ 32.
Definition s32 (x : Z) : Z := (x + 2 ^ 31) mod 2 ^ 32 - 2 ^ 31.
Definition u8 (x : Z) : Z := x mod 2 ^ 8.

Definition is_u32 (x : Z) : Prop := 0 <= x < 2 ^ 32.
Definition is_s32 (x : Z) : Prop := - 2 ^ 31 <= x < 2 ^ 31.

(** Mathematical ceiling of [a / b] (for [0 < b]); the design document's
    [ceil]. *)
Definition ceil_div (a b : Z) : Z := - ((- a) / b).

End CInt.

Import CInt.

(** ** Outcomes and the state monad of the embedding *)

Inductive outcome (A : Type) : Type :=
| Ok (a : A)
| Undefined
| OutOfFuel.

Arguments Ok {A} a.
Arguments Undefined {A}.
Arguments OutOfFuel {A}.

Definition returns {A} (o : outcome A) : Prop := exists a, o = Ok a.

(** ** Build configuration and header constants

    [HAVE_YM3438_CORE] is the preprocessor switch of sound.c.  The
    hardware-class and PSG-type constants come from headers (system.h,
    psg.h) that sound.c includes through shared.h; they are parameters of
    the embedding.  [big_endian] is the byte order of the host, which
    decides the object representation [memcpy] copies into a save state. *)

Class Platform := {
  HAVE_YM3438_CORE : bool;
  big_endian : bool;
  SYSTEM_SG : Z;
  SYSTEM_MD : Z;
  SYSTEM_PBC : Z;
  PSG_DISCRETE : Z;
  PSG_INTEGRATED : Z
}.

(** ** Collaborators

    The FM cores, the PSG and the resampler, as sound.c calls them.  Every
    function takes the state of the object it works on and returns the new
    one.  A bulk generator returns the ints it stores through its buffer
    argument as a function of the slot index (slot [2*i] is the left and
    [2*i+1] the right channel of sample [i]); a context loader gets the
    bytes at its pointer argument as a function of the offset.  The values
    a collaborator returns for a C [int] are C ints. *)

Class Collaborators := {
  (* Nuked OPN2 *)
  ym3438_t : Type;
  ym3438_zero : ym3438_t;
  sizeof_ym3438 : nat;
  ym3438_image : ym3438_t -> list Z;
  ym3438_of_image : list Z -> ym3438_t;
  OPN2_Reset : ym3438_t -> ym3438_t;
  OPN2_Clock : ym3438_t -> ym3438_t * (Z * Z);
  OPN2_Write : Z -> Z -> ym3438_t -> ym3438_t;
  OPN2_Read : Z -> ym3438_t -> ym3438_t * Z;
  (* MAME YM2612 *)
  ym2612_t : Type;
  YM2612Init : ym2612_t -> ym2612_t;
  YM2612Config : Z -> ym2612_t -> ym2612_t;
  YM2612ResetChip : ym2612_t -> ym2612_t;
  YM2612Update : Z -> ym2612_t -> ym2612_t * (nat -> Z);
  YM2612Write : Z -> Z -> ym2612_t -> ym2612_t;
  YM2612Read : Z -> ym2612_t -> ym2612_t * Z;
  YM2612SaveContext : ym2612_t -> list Z;
  YM2612LoadContext : (Z -> Z) -> ym2612_t -> ym2612_t * Z;
  (* YM2413 *)
  ym2413_t : Type;
  YM2413GetContextSize : nat;
  ym2413_image : ym2413_t -> list Z;
  ym2413_of_image : list Z -> ym2413_t;
  YM2413Init : ym2413_t -> ym2413_t;
  YM2413ResetChip : ym2413_t -> ym2413_t;
  YM2413Update : Z -> ym2413_t -> ym2413_t * (nat -> Z);
  YM2413Write : Z -> Z -> ym2413_t -> ym2413_t;
  (* resampler (blip_buf) *)
  blip_t : Type;
  blip_add_delta : Z -> Z -> Z -> blip_t -> blip_t;
  blip_add_delta_fast : Z -> Z -> Z -> blip_t -> blip_t;
  blip_end_frame : Z -> blip_t -> blip_t;
  blip_samples_avail : blip_t -> Z;
  (* PSG; its frame end feeds the resampler too *)
  psg_t : Type;
  psg_init : Z -> psg_t -> psg_t;
  psg_reset : psg_t -> psg_t;
  psg_config : Z -> Z -> Z -> psg_t -> psg_t;
  psg_end_frame : Z -> psg_t -> blip_t -> psg_t * blip_t;
  psg_context_save : psg_t -> list Z;
  psg_context_load : (Z -> Z) -> psg_t -> psg_t * Z
}.

(** ** The state sound.c works on *)

Inductive fm_core := YM3438 | YM2612 | YM2413.

Record config_t := {
  config_ym3438 : Z;
  config_dac_bits : Z;
  config_psg_preamp : Z;
  config_fm_preamp : Z;
  config_hq_fm : Z
}.

(** [fm_ptr] is the offset, in ints, of the pointer from [fm_buffer]. *)
Record fm_t := {
  fm_buffer : list Z;
  fm_last : Z * Z;
  fm_ptr : Z;
  fm_cycles_ratio : Z;
  fm_cycles_start : Z;
  fm_cycles_count : Z
}.

(** A function pointer is [None] when NULL, and else names the core whose
    entry point it holds. *)
Record ym_ptrs := {
  YM_Reset : option fm_core;
  YM_Update : option fm_core;
  YM_Write : option fm_core;
  YM_Read : option fm_core
}.

Section Machine.
Context `{P : Platform} `{E : Collaborators}.

Record nuked_t := {
  ym3438 : ym3438_t;
  ym3438_accm : list (Z * Z);
  ym3438_sample : Z * Z;
  ym3438_cycles : Z
}.

Record machine := {
  fm : fm_t;
  ym : ym_ptrs;
  nuked : nuked_t;
  ym2612 : ym2612_t;
  ym2413 : ym2413_t;
  psg : psg_t;
  blips0 : blip_t;
  system_hw : Z;
  config : config_t
}.

Definition M (A : Type) : Type := machine -> outcome (A * machine).

Definition ret {A} (a : A) : M A := fun m => Ok (a, m).
Definition bind {A B} (c : M A) (k : A -> M B) : M B :=
  fun m => match c m with
           | Ok (a, m') => k a m'
           | Undefined => Undefined
           | OutOfFuel => OutOfFuel
           end.
Definition undefined {A} : M A := fun _ => Undefined.
Definition out_of_fuel {A} : M A := fun _ => OutOfFuel.
Definition get : M machine := fun m => Ok (m, m).
Definition modify (f : machine -> machine) : M unit := fun m => Ok (tt, f m).

End Machine.

Declare Scope sound_scope.
Delimit Scope sound_scope with sound.
Notation "'do' x <- c ; k" := (bind c (fun x => k))
  (at level 10, x name, c at level 100, k at level 200) : sound_scope.
Notation "'do' ' pat <- c ; k" :=
  (bind c (fun x => match x with pat => k end))
  (at level 10, pat pattern, c at level 100, k at level 200) : sound_scope.
Notation "'exec' c ; k" := (bind c (fun _ => k))
  (at level 10, c at level 100, k at level 200) : sound_scope.

(** ** Object representations and the save-state buffer

    A save state is caller-owned memory addressed from the [state]
    pointer: a function from byte offsets to bytes. *)

Module Mem.

Definition mem := Z -> Z.

(** [memcpy(&state[off], bytes, length bytes)] *)
Definition write (m : mem) (off : Z) (bytes : list Z) : mem :=
  fun a =>
    if (off <=? a) && (a <? off + Z.of_nat (length bytes))
    then nth (Z.to_nat (a - off)) bytes 0
    else m a.

(** the bytes [memcpy(dst, &state[off], n)] copies *)
Definition read (m : mem) (off : Z) (n : nat) : list Z :=
  map (fun i => m (off + Z.of_nat i)) (seq 0 n).

(** the memory seen from the pointer [state + off] *)
Definition from (m : mem) (off : Z) : mem := fun a => m (off + a).

Definition zero : mem := fun _ => 0.

Definition le32 (x : Z) : list Z :=
  [x mod 256; (x / 256) mod 256; (x / 65536) mod 256; (x / 16777216) mod 256].

Definition of_le32 (l : list Z) : Z :=
  nth 0 l 0 + 256 * nth 1 l 0 + 65536 * nth 2 l 0 + 16777216 * nth 3 l 0.

Section Host.
Context `{P : Platform}.

(** object representation of a 32-bit integer on the host *)
Definition image32 (x : Z) : list Z :=
  if big_endian then rev (le32 (u32 x)) else le32 (u32 x).

Definition u32_of_image (l : list Z) : Z :=
  u32 (of_le32 (if big_endian then rev (firstn 4 l) else firstn 4 l)).

Definition s32_of_image (l : list Z) : Z := s32 (u32_of_image l).

Definition image8 (x : Z) : list Z := [u8 x].
Definition u8_of_image (l : list Z) : Z := nth 0 l 0.

(** [int a[n][2]] and [int a[2]] *)
Definition image_pair (p : Z * Z) : list Z := image32 (fst p) ++ image32 (snd p).
Definition pair_of_image (l : list Z) : Z * Z :=
  (s32_of_image l, s32_of_image (skipn 4 l)).

(** Modelled from the spec: the macros [save_param] and [load_param]
    (state.h), which sound.c uses but does not define.  The persisted
    layout is a sequence of fields of fixed size in a fixed order: the
    macro copies [size] bytes between the object and
    [&state[bufferptr]], then advances [bufferptr] by [size]. *)
Definition save_param (state : mem) (bufferptr : Z) (image : list Z) (size : nat)
  : Z * mem :=
  (bufferptr + Z.of_nat size, write state bufferptr (firstn size image)).

Definition load_param (state : mem) (bufferptr : Z) (size : nat) : Z * list Z :=
  (bufferptr + Z.of_nat size, read state bufferptr size).

Fixpoint image_rows (rows : list (Z * Z)) : list Z :=
  match rows with
  | [] => []
  | r :: rows' => image_pair r ++ image_rows rows'
  end.

Fixpoint rows_of_image (n : nat) (l : list Z) : list (Z * Z) :=
  match n with
  | O => []
  | S n' => pair_of_image l :: rows_of_image n' (skipn 8 l)
  end.
End Host.

End Mem.

(** ** The functions of sound.c *)

Section Model.
Context `{P : Platform} `{E : Collaborators}.
Local Open Scope sound_scope.

(** *** Field updates *)

Definition set_fm (v : fm_t) (m : machine) : machine :=
  {| fm := v; ym := ym m; nuked := nuked m; ym2612 := ym2612 m;
     ym2413 := ym2413 m; psg := psg m; blips0 := blips0 m;
     system_hw := system_hw m; config := config m |}.
Definition set_ym (v : ym_ptrs) (m : machine) : machine :=
  {| fm := fm m; ym := v; nuked := nuked m; ym2612 := ym2612 m;
     ym2413 := ym2413 m; psg := psg m; blips0 := blips0 m;
     system_hw := system_hw m; config := config m |}.
Definition set_nuked (v : nuked_t) (m : machine) : machine :=
  {| fm := fm m; ym := ym m; nuked := v; ym2612 := ym2612 m;
     ym2413 := ym2413 m; psg := psg m; blips0 := blips0 m;
     system_hw := system_hw m; config := config m |}.
Definition set_ym2612 (v : ym2612_t) (m : machine) : machine :=
  {| fm := fm m; ym := ym m; nuked := nuked m; ym2612 := v;
     ym2413 := ym2413 m; psg := psg m; blips0 := blips0 m;
     system_hw := system_hw m; config := config m |}.
Definition set_ym2413 (v : ym2413_t) (m : machine) : machine :=
  {| fm := fm m; ym := ym m; nuked := nuked m; ym2612 := ym2612 m;
     ym2413 := v; psg := psg m; blips0 := blips0 m;
     system_hw := system_hw m; config := config m |}.
Definition set_psg (v : psg_t) (m : machine) : machine :=
  {| fm := fm m; ym := ym m; nuked := nuked m; ym2612 := ym2612 m;
     ym2413 := ym2413 m; psg := v; blips0 := blips0 m;
     system_hw := system_hw m; config := config m |}.
Definition set_blips0 (v : blip_t) (m : machine) : machine :=
  {| fm := fm m; ym := ym m; nuked := nuked m; ym2612 := ym2612 m;
     ym2413 := ym2413 m; psg := psg m; blips0 := v;
     system_hw := system_hw m; config := config m |}.

Definition set_fm_buffer (v : list Z) (m : machine) : machine :=
  set_fm {| fm_buffer := v; fm_last := fm_last (fm m); fm_ptr := fm_ptr (fm m);
            fm_cycles_ratio := fm_cycles_ratio (fm m);
            fm_cycles_start := fm_cycles_start (fm m);
            fm_cycles_count := fm_cycles_count (fm m) |} m.
Definition set_fm_last (v : Z * Z) (m : machine) : machine :=
  set_fm {| fm_buffer := fm_buffer (fm m); fm_last := v; fm_ptr := fm_ptr (fm m);
            fm_cycles_ratio := fm_cycles_ratio (fm m);
            fm_cycles_start := fm_cycles_start (fm m);
            fm_cycles_count := fm_cycles_count (fm m) |} m.
Definition set_fm_ptr (v : Z) (m : machine) : machine :=
  set_fm {| fm_buffer := fm_buffer (fm m); fm_last := fm_last (fm m); fm_ptr := v;
            fm_cycles_ratio := fm_cycles_ratio (fm m);
            fm_cycles_start := fm_cycles_start (fm m);
            fm_cycles_count := fm_cycles_count (fm m) |} m.
Definition set_fm_cycles_ratio (v : Z) (m : machine) : machine :=
  set_fm {| fm_buffer := fm_buffer (fm m); fm_last := fm_last (fm m);
            fm_ptr := fm_ptr (fm m); fm_cycles_ratio := v;
            fm_cycles_start := fm_cycles_start (fm m);
            fm_cycles_count := fm_cycles_count (fm m) |} m.
Definition set_fm_cycles_start (v : Z) (m : machine) : machine :=
  set_fm {| fm_buffer := fm_buffer (fm m); fm_last := fm_last (fm m);
            fm_ptr := fm_ptr (fm m); fm_cycles_ratio := fm_cycles_ratio (fm m);
            fm_cycles_start := v;
            fm_cycles_count := fm_cycles_count (fm m) |} m.
Definition set_fm_cycles_count (v : Z) (m : machine) : machine :=
  set_fm {| fm_buffer := fm_buffer (fm m); fm_last := fm_last (fm m);
            fm_ptr := fm_ptr (fm m); fm_cycles_ratio := fm_cycles_ratio (fm m);
            fm_cycles_start := fm_cycles_start (fm m);
            fm_cycles_count := v |} m.

(** *** The FM output buffer

    [static int fm_buffer[1080 * 2 * 24]] with the Nuked core compiled
    in, [fm_buffer[1080 * 2]] without. *)

Definition FM_BUFFER_LEN : Z :=
  if HAVE_YM3438_CORE then 1080 * 2 * 24 else 1080 * 2.

(** [*p] for [p = fm_buffer + off] *)
Definition load_fm_buffer (off : Z) : M Z := fun m =>
  if 0 <=? off then
    match fm_buffer (fm m) !! Z.to_nat off with
    | Some v => Ok (v, m)
    | None => Undefined
    end
  else Undefined.

(** [*p = v] for [p = fm_buffer + off] *)
Definition store_fm_buffer (off v : Z) : M unit := fun m =>
  if (0 <=? off) && (off <? Z.of_nat (length (fm_buffer (fm m)))) then
    Ok (tt, set_fm_buffer (<[Z.to_nat off := v]> (fm_buffer (fm m))) m)
  else Undefined.

(** the stores of a bulk generator: [vals] from [fm_buffer + off] on *)
Definition store_fm_block (off : Z) (vals : list Z) : M unit := fun m =>
  if (0 <=? off)
     && (off + Z.of_nat (length vals) <=? Z.of_nat (length (fm_buffer (fm m))))
  then Ok (tt, set_fm_buffer (list_inserts (Z.to_nat off) vals (fm_buffer (fm m))) m)
  else Undefined.

(** the ints a bulk generator stores for [length] samples *)
Definition generated (out : nat -> Z) (length : Z) : list Z :=
  map out (seq 0 (2 * Z.to_nat length)).

(** *** Nuked OPN2 wrappers (HAVE_YM3438_CORE) *)

Definition YM3438_Reset : M unit :=
  modify (fun m =>
    set_nuked {| ym3438 := OPN2_Reset (ym3438 (nuked m));
                 ym3438_accm := ym3438_accm (nuked m);
                 ym3438_sample := ym3438_sample (nuked m);
                 ym3438_cycles := ym3438_cycles (nuked m) |} m).

(** the inner loop [for (j = 0; j < 24; j++)] over the rows *)
Definition accm_sum (rows : list (Z * Z)) : Z * Z :=
  fold_left (fun acc row => (s32 (fst acc + fst row), s32 (snd acc + snd row)))
            rows (0, 0).

(** one iteration of the loop of [YM3438_Update] *)
Definition YM3438_Update_step (buffer : Z) : M unit :=
  do m <- get;
  let nk := nuked m in
  let c := ym3438_cycles nk in
  if (0 <=? c) && (c <? 24) && (c <? Z.of_nat (length (ym3438_accm nk))) then
    let '(chip, row) := OPN2_Clock (ym3438 nk) in
    let accm := <[Z.to_nat c := row]> (ym3438_accm nk) in
    let c' := u32 (c + 1) mod 24 in
    let sample := if c' =? 0 then accm_sum (firstn 24 accm)
                  else ym3438_sample nk in
    exec modify (set_nuked {| ym3438 := chip; ym3438_accm := accm;
                              ym3438_sample := sample; ym3438_cycles := c' |});
    exec store_fm_buffer buffer (s32 (fst sample * 11));
    store_fm_buffer (buffer + 1) (s32 (snd sample * 11))
  else undefined.

Fixpoint YM3438_Update_loop (n : nat) (buffer : Z) : M unit :=
  match n with
  | O => ret tt
  | S n' =>
      exec YM3438_Update_step buffer;
      YM3438_Update_loop n' (buffer + 2)
  end.

Definition YM3438_Update (buffer length : Z) : M unit :=
  YM3438_Update_loop (Z.to_nat length) buffer.

Definition YM3438_Write (a v : Z) : M unit :=
  modify (fun m =>
    set_nuked {| ym3438 := OPN2_Write a v (ym3438 (nuked m));
                 ym3438_accm := ym3438_accm (nuked m);
                 ym3438_sample := ym3438_sample (nuked m);
                 ym3438_cycles := ym3438_cycles (nuked m) |} m).

Definition YM3438_Read (a : Z) : M Z :=
  do m <- get;
  let '(chip, v) := OPN2_Read a (ym3438 (nuked m)) in
  exec modify (set_nuked {| ym3438 := chip;
                            ym3438_accm := ym3438_accm (nuked m);
                            ym3438_sample := ym3438_sample (nuked m);
                            ym3438_cycles := ym3438_cycles (nuked m) |});
  ret v.

(** *** Calls through the YM chip function pointers *)

Definition call_YM_Reset : M unit :=
  do m <- get;
  match YM_Reset (ym m) with
  | None => undefined
  | Some YM3438 => YM3438_Reset
  | Some YM2612 => modify (set_ym2612 (YM2612ResetChip (ym2612 m)))
  | Some YM2413 => modify (set_ym2413 (YM2413ResetChip (ym2413 m)))
  end.

Definition call_YM_Update (buffer length : Z) : M unit :=
  do m <- get;
  match YM_Update (ym m) with
  | None => undefined
  | Some YM3438 => YM3438_Update buffer length
  | Some YM2612 =>
      let '(chip, out) := YM2612Update length (ym2612 m) in
      exec modify (set_ym2612 chip);
      store_fm_block buffer (generated out length)
  | Some YM2413 =>
      let '(chip, out) := YM2413Update length (ym2413 m) in
      exec modify (set_ym2413 chip);
      store_fm_block buffer (generated out length)
  end.

Definition call_YM_Write (a v : Z) : M unit :=
  do m <- get;
  match YM_Write (ym m) with
  | None => undefined
  | Some YM3438 => YM3438_Write a v
  | Some YM2612 => modify (set_ym2612 (YM2612Write a v (ym2612 m)))
  | Some YM2413 => modify (set_ym2413 (YM2413Write a v (ym2413 m)))
  end.

Definition call_YM_Read (a : Z) : M Z :=
  do m <- get;
  match YM_Read (ym m) with
  | Some YM3438 => YM3438_Read a
  | Some YM2612 =>
      let '(chip, v) := YM2612Read a (ym2612 m) in
      exec modify (set_ym2612 chip);
      ret v
  | _ => undefined
  end.

(** *** Run FM chip until required M-cycles *)

(** the value of [samples], line 114 *)
Definition samples_to_run (cycles : Z) (m : machine) : Z :=
  u32 (u32 (u32 (cycles - fm_cycles_count (fm m)) + fm_cycles_ratio (fm m)) - 1)
  / fm_cycles_ratio (fm m).

Definition fm_update (cycles : Z) : M unit :=
  do m <- get;
  if fm_cycles_count (fm m) <? cycles then
    if fm_cycles_ratio (fm m) =? 0 then undefined else
    (* number of samples to run *)
    let samples := samples_to_run cycles m in
    (* run FM chip to sample buffer *)
    exec call_YM_Update (fm_ptr (fm m)) (s32 samples);
    (* update FM buffer pointer *)
    do m <- get;
    let p := fm_ptr (fm m) + u32 (Z.shiftl samples 1) in
    if (0 <=? p) && (p <=? Z.of_nat (length (fm_buffer (fm m)))) then
      exec modify (set_fm_ptr p);
      (* update FM cycle counter *)
      modify (fun m =>
        set_fm_cycles_count
          (u32 (fm_cycles_count (fm m) + u32 (samples * fm_cycles_ratio (fm m)))) m)
    else undefined
  else ret tt.

(** a run of calls, as the CPU issues them within a frame *)
Fixpoint fm_update_seq (targets : list Z) : M unit :=
  match targets with
  | [] => ret tt
  | c :: targets' => exec fm_update c; fm_update_seq targets'
  end.

(** *** Backend selection *)

Definition sound_init : M unit :=
  do m <- get;
  (* Initialize FM chip *)
  exec (if Z.land (system_hw m) SYSTEM_PBC =? SYSTEM_MD then
          (* YM2612 *)
          if HAVE_YM3438_CORE && negb (config_ym3438 (config m) =? 0) then
            (* Nuked OPN2 *)
            exec modify (set_nuked {| ym3438 := ym3438_zero;
                                      ym3438_accm := repeat (0, 0) 24;
                                      ym3438_sample := (0, 0);
                                      ym3438_cycles := ym3438_cycles (nuked m) |});
            exec modify (set_ym {| YM_Reset := Some YM3438;
                                   YM_Update := Some YM3438;
                                   YM_Write := Some YM3438;
                                   YM_Read := Some YM3438 |});
            (* chip is running at VCLK / 6 = MCLK / 7 / 6 *)
            modify (set_fm_cycles_ratio (6 * 7))
          else
            (* MAME *)
            exec modify (fun m => set_ym2612 (YM2612Init (ym2612 m)) m);
            exec modify (fun m =>
                   set_ym2612 (YM2612Config (config_dac_bits (config m)) (ym2612 m)) m);
            exec modify (set_ym {| YM_Reset := Some YM2612;
                                   YM_Update := Some YM2612;
                                   YM_Write := Some YM2612;
                                   YM_Read := Some YM2612 |});
            (* chip is running at VCLK / 144 = MCLK / 7 / 144 *)
            modify (set_fm_cycles_ratio (144 * 7))
        else
          (* YM2413 *)
          exec modify (fun m => set_ym2413 (YM2413Init (ym2413 m)) m);
          exec modify (set_ym {| YM_Reset := Some YM2413;
                                 YM_Update := Some YM2413;
                                 YM_Write := Some YM2413;
                                 YM_Read := None |});
          (* chip is running at ZCLK / 72 = MCLK / 15 / 72 *)
          modify (set_fm_cycles_ratio (72 * 15)));
  (* Initialize PSG chip *)
  modify (fun m =>
    set_psg (psg_init (if system_hw m =? SYSTEM_SG then PSG_DISCRETE
                       else PSG_INTEGRATED) (psg m)) m).

Definition sound_reset : M unit :=
  (* reset sound chips *)
  exec call_YM_Reset;
  exec modify (fun m => set_psg (psg_reset (psg m)) m);
  exec modify (fun m =>
         set_psg (psg_config 0 (config_psg_preamp (config m)) 255 (psg m)) m);
  (* reset FM buffer ouput *)
  exec modify (set_fm_last (0, 0));
  (* reset FM buffer pointer *)
  exec modify (set_fm_ptr 0);
  (* reset FM cycle counters *)
  exec modify (set_fm_cycles_count 0);
  modify (set_fm_cycles_start 0).

(** *** Frame mixer

    [time] is an [int] that the source only ever uses through
    conversions to [unsigned]: in the comparison with [cycles], in the
    addition of [fm_cycles_ratio], in the final subtraction and as the
    resampler's [unsigned] clock argument. *)

(** the loop of the branch [config.hq_fm]: Band-Limited synthesis *)
Fixpoint flush_hq (fuel : nat) (cycles preamp ptr prev_l prev_r time : Z)
  : M (Z * Z * Z * Z) :=
  match fuel with
  | O => out_of_fuel
  | S fuel' =>
      (* left & right channels *)
      do x <- load_fm_buffer ptr;
      let l := Z.quot (s32 (x * preamp)) 100 in
      do y <- load_fm_buffer (ptr + 1);
      let r := Z.quot (s32 (y * preamp)) 100 in
      exec modify (fun m =>
             set_blips0 (blip_add_delta (u32 time) (s32 (l - prev_l))
                                        (s32 (r - prev_r)) (blips0 m)) m);
      (* increment time counter *)
      do m <- get;
      let time' := s32 (u32 (u32 time + fm_cycles_ratio (fm m))) in
      if u32 time' <? cycles
      then flush_hq fuel' cycles preamp (ptr + 2) l r time'
      else ret (ptr + 2, l, r, time')
  end.

(** the loop of the other branch: Linear Interpolation *)
Fixpoint flush_fast (fuel : nat) (cycles preamp ptr prev_l prev_r time : Z)
  : M (Z * Z * Z * Z) :=
  match fuel with
  | O => out_of_fuel
  | S fuel' =>
      (* left & right channels *)
      do x <- load_fm_buffer ptr;
      let l := Z.quot (s32 (x * preamp)) 100 in
      do y <- load_fm_buffer (ptr + 1);
      let r := Z.quot (s32 (y * preamp)) 100 in
      exec modify (fun m =>
             set_blips0 (blip_add_delta_fast (u32 time) (s32 (l - prev_l))
                                             (s32 (r - prev_r)) (blips0 m)) m);
      (* increment time counter *)
      do m <- get;
      let time' := s32 (u32 (u32 time + fm_cycles_ratio (fm m))) in
      if u32 time' <? cycles
      then flush_fast fuel' cycles preamp (ptr + 2) l r time'
      else ret (ptr + 2, l, r, time')
  end.

Definition sound_update (fuel : nat) (cycles : Z) : M Z :=
  (* Run PSG chip until end of frame *)
  exec modify (fun m =>
         let '(p, b) := psg_end_frame cycles (psg m) (blips0 m) in
         set_blips0 b (set_psg p m));
  (* Run FM chip until end of frame *)
  exec fm_update cycles;
  do m <- get;
  (* FM output pre-amplification *)
  let preamp := config_fm_preamp (config m) in
  (* FM frame initial timestamp *)
  let time := s32 (fm_cycles_start (fm m)) in
  (* Restore last FM outputs from previous frame *)
  let prev_l := fst (fm_last (fm m)) in
  let prev_r := snd (fm_last (fm m)) in
  (* FM buffer start pointer *)
  let ptr := 0 in
  (* flush FM samples *)
  do '(_, prev_l, prev_r, time) <-
    (if negb (config_hq_fm (config m) =? 0)
     then flush_hq fuel cycles preamp ptr prev_l prev_r time
     else flush_fast fuel cycles preamp ptr prev_l prev_r time);
  (* reset FM buffer pointer *)
  exec modify (set_fm_ptr 0);
  (* save last FM output for next frame *)
  exec modify (set_fm_last (prev_l, prev_r));
  (* adjust FM cycle counters for next frame *)
  exec modify (set_fm_cycles_start (u32 (u32 time - cycles)));
  exec modify (fun m => set_fm_cycles_count (fm_cycles_start (fm m)) m);
  (* end of blip buffer time frame *)
  exec modify (fun m => set_blips0 (blip_end_frame cycles (blips0 m)) m);
  (* return number of available samples *)
  do m <- get;
  ret (blip_samples_avail (blips0 m)).

(** *** Save states *)

Definition sound_context_save (state : Mem.mem) : M (Z * Mem.mem) :=
  do m <- get;
  let bufferptr := 0 in
  do '(bufferptr, state) <-
    (if Z.land (system_hw m) SYSTEM_PBC =? SYSTEM_MD then
       if HAVE_YM3438_CORE then
         let '(bufferptr, state) :=
           Mem.save_param state bufferptr (Mem.image8 (config_ym3438 (config m))) 1 in
         if negb (config_ym3438 (config m) =? 0) then
           let nk := nuked m in
           let '(bufferptr, state) :=
             Mem.save_param state bufferptr (ym3438_image (ym3438 nk)) sizeof_ym3438 in
           let '(bufferptr, state) :=
             Mem.save_param state bufferptr (Mem.image_rows (ym3438_accm nk)) (24 * 8) in
           let '(bufferptr, state) :=
             Mem.save_param state bufferptr (Mem.image_pair (ym3438_sample nk)) 8 in
           ret (Mem.save_param state bufferptr (Mem.image32 (ym3438_cycles nk)) 4)
         else
           let bytes := YM2612SaveContext (ym2612 m) in
           let state := Mem.write state (0 + 1) bytes in
           let bufferptr := bufferptr + Z.of_nat (length bytes) in
           exec modify (fun m =>
                  set_ym2612 (YM2612Config (config_dac_bits (config m)) (ym2612 m)) m);
           ret (bufferptr, state)
       else
         let bytes := YM2612SaveContext (ym2612 m) in
         ret (Z.of_nat (length bytes), Mem.write state 0 bytes)
     else
       ret (Mem.save_param state bufferptr (ym2413_image (ym2413 m))
                           YM2413GetContextSize));
  do m <- get;
  let bytes := psg_context_save (psg m) in
  let state := Mem.write state bufferptr bytes in
  let bufferptr := bufferptr + Z.of_nat (length bytes) in
  ret (Mem.save_param state bufferptr (Mem.image32 (fm_cycles_start (fm m))) 4).

Definition sound_context_load (state : Mem.mem) : M Z :=
  do m <- get;
  let bufferptr := 0 in
  do bufferptr <-
    (if Z.land (system_hw m) SYSTEM_PBC =? SYSTEM_MD then
       if HAVE_YM3438_CORE then
         let '(bufferptr, img) := Mem.load_param state bufferptr 1 in
         let config_ym3438 := Mem.u8_of_image img in
         if negb (config_ym3438 =? 0) then
           let '(bufferptr, img_chip) := Mem.load_param state bufferptr sizeof_ym3438 in
           let '(bufferptr, img_accm) := Mem.load_param state bufferptr (24 * 8) in
           let '(bufferptr, img_sample) := Mem.load_param state bufferptr 8 in
           let '(bufferptr, img_cycles) := Mem.load_param state bufferptr 4 in
           exec modify (set_nuked
                  {| ym3438 := ym3438_of_image img_chip;
                     ym3438_accm := Mem.rows_of_image 24 img_accm;
                     ym3438_sample := Mem.pair_of_image img_sample;
                     ym3438_cycles := Mem.u32_of_image img_cycles |});
           ret bufferptr
         else
           let '(chip, n) := YM2612LoadContext (Mem.from state (0 + 1)) (ym2612 m) in
           exec modify (set_ym2612 chip);
           exec modify (fun m =>
                  set_ym2612 (YM2612Config (config_dac_bits (config m)) (ym2612 m)) m);
           ret (bufferptr + n)
       else
         let '(chip, n) := YM2612LoadContext (Mem.from state 0) (ym2612 m) in
         exec modify (set_ym2612 chip);
         exec modify (fun m =>
                set_ym2612 (YM2612Config (config_dac_bits (config m)) (ym2612 m)) m);
         ret n
     else
       let '(bufferptr, img) := Mem.load_param state bufferptr YM2413GetContextSize in
       exec modify (set_ym2413 (ym2413_of_image img));
       ret bufferptr);
  do m <- get;
  let '(p, n) := psg_context_load (Mem.from state bufferptr) (psg m) in
  exec modify (set_psg p);
  let bufferptr := bufferptr + n in
  let '(bufferptr, img) := Mem.load_param state bufferptr 4 in
  exec modify (set_fm_cycles_start (Mem.u32_of_image img));
  exec modify (fun m => set_fm_cycles_count (fm_cycles_start (fm m)) m);
  ret bufferptr.

(** *** Register access, synchronised with the CPU *)

Definition fm_reset (cycles : Z) : M unit :=
  (* synchronize FM chip with CPU *)
  exec fm_update cycles;
  (* reset FM chip *)
  call_YM_Reset.

Definition fm_write (cycles address data : Z) : M unit :=
  (* synchronize FM chip with CPU *)
  exec fm_update cycles;
  (* write FM register *)
  call_YM_Write address data.

Definition fm_read (cycles address : Z) : M Z :=
  (* synchronize FM chip with CPU *)
  exec fm_update cycles;
  (* read FM status (YM2612 only) *)
  call_YM_Read address.

End Model.

(** ** Well-formed states and what the generators leave alone *)

Section Frames.
Context `{P : Platform} `{E : Collaborators}.

(** The typing of the C objects: array sizes, the write pointer inside
    its array, counters in [uint32] range. *)
Record wf_fm (m : machine) : Prop := {
  wf_buffer : Z.of_nat (length (fm_buffer (fm m))) = FM_BUFFER_LEN;
  wf_ptr : 0 <= fm_ptr (fm m) <= FM_BUFFER_LEN;
  wf_ratio : is_u32 (fm_cycles_ratio (fm m));
  wf_start : is_u32 (fm_cycles_start (fm m));
  wf_count : is_u32 (fm_cycles_count (fm m))
}.

(** The Nuked accumulator has its 24 rows and its row index is one. *)
Record wf_nuked (m : machine) : Prop := {
  wf_accm : length (ym3438_accm (nuked m)) = 24%nat;
  wf_cycles : 0 <= ym3438_cycles (nuked m) < 24
}.

(** What a bulk generator leaves alone: everything of the scheduler but
    the contents of the buffer. *)
Record generator_frame (m m' : machine) : Prop := {
  gf_len : length (fm_buffer (fm m')) = length (fm_buffer (fm m));
  gf_last : fm_last (fm m') = fm_last (fm m);
  gf_ptr : fm_ptr (fm m') = fm_ptr (fm m);
  gf_ratio : fm_cycles_ratio (fm m') = fm_cycles_ratio (fm m);
  gf_start : fm_cycles_start (fm m') = fm_cycles_start (fm m);
  gf_count : fm_cycles_count (fm m') = fm_cycles_count (fm m);
  gf_ym : ym m' = ym m;
  gf_psg : psg m' = psg m;
  gf_blips : blips0 m' = blips0 m;
  gf_hw : system_hw m' = system_hw m;
  gf_config : config m' = config m
}.

(** What [fm_update] leaves alone. *)
Record scheduler_frame (m m' : machine) : Prop := {
  sf_len : length (fm_buffer (fm m')) = length (fm_buffer (fm m));
  sf_last : fm_last (fm m') = fm_last (fm m);
  sf_ratio : fm_cycles_ratio (fm m') = fm_cycles_ratio (fm m);
  sf_start : fm_cycles_start (fm m') = fm_cycles_start (fm m);
  sf_ym : ym m' = ym m;
  sf_psg : psg m' = psg m;
  sf_blips : blips0 m' = blips0 m;
  sf_hw : system_hw m' = system_hw m;
  sf_config : config m' = config m
}.


End Frames.

(** ** Collaborators for examples

    Small deterministic stand-ins: each FM chip is one key bit that
    decides the level it emits (100 with the key off, as after a reset,
    107 with the key on), the PSG is one bit, and the resampler records
    the calls it receives. *)

Module Mock.

Inductive blip_call :=
| AddDelta (time delta_l delta_r : Z)
| AddDeltaFast (time delta_l delta_r : Z)
| EndFrame (clocks : Z).

Definition bit (b : bool) : Z := if b then 1 else 0.
Definition level (key : bool) : Z := if key then 107 else 100.

Definition platform : Platform :=
  {| HAVE_YM3438_CORE := true;
     big_endian := false;
     SYSTEM_SG := 16;
     SYSTEM_MD := 128;
     SYSTEM_PBC := 129;
     PSG_DISCRETE := 0;
     PSG_INTEGRATED := 1 |}.

Definition collaborators : Collaborators :=
  {| ym3438_t := bool;
     ym3438_zero := false;
     sizeof_ym3438 := 1;
     ym3438_image := fun s => [bit s];
     ym3438_of_image := fun l => negb (nth 0 l 0 =? 0);
     OPN2_Reset := fun _ => false;
     OPN2_Clock := fun s => (s, (if s then 2 else 1, if s then 2 else 1));
     OPN2_Write := fun _ v _ => negb (v =? 0);
     OPN2_Read := fun _ s => (s, bit s);
     ym2612_t := bool;
     YM2612Init := fun _ => true;
     YM2612Config := fun _ s => s;
     YM2612ResetChip := fun _ => false;
     YM2612Update := fun _ s => (s, fun _ => level s);
     YM2612Write := fun _ v _ => negb (v =? 0);
     YM2612Read := fun _ s => (s, bit s);
     YM2612SaveContext := fun s => [bit s];
     YM2612LoadContext := fun mem _ => (negb (mem 0 =? 0), 1);
     ym2413_t := bool;
     YM2413GetContextSize := 1;
     ym2413_image := fun s => [bit s];
     ym2413_of_image := fun l => negb (nth 0 l 0 =? 0);
     YM2413Init := fun _ => true;
     YM2413ResetChip := fun _ => false;
     YM2413Update := fun _ s => (s, fun _ => level s);
     YM2413Write := fun _ v _ => negb (v =? 0);
     blip_t := list blip_call;
     blip_add_delta := fun t l r b => b ++ [AddDelta t l r];
     blip_add_delta_fast := fun t l r b => b ++ [AddDeltaFast t l r];
     blip_end_frame := fun c b => b ++ [EndFrame c];
     blip_samples_avail := fun b => Z.of_nat (length b);
     psg_t := bool;
     psg_init := fun _ _ => true;
     psg_reset := fun _ => false;
     psg_config := fun _ _ _ s => s;
     psg_end_frame := fun _ s b => (s, b);
     psg_context_save := fun s => [bit s];
     psg_context_load := fun mem _ => (negb (mem 0 =? 0), 1) |}.

#[local] Existing Instance platform.
#[local] Existing Instance collaborators.

Definition mock_config (nuked_core hq : Z) : config_t :=
  {| config_ym3438 := nuked_core;
     config_dac_bits := 14;
     config_psg_preamp := 150;
     config_fm_preamp := 100;
     config_hq_fm := hq |}.

(** the machine as the program starts: statics zeroed, pointers NULL.
    [fm_ptr] is NULL too, not a pointer into [fm_buffer]: as an offset
    it is one outside the array (-1), through which every access is
    undefined until [sound_reset] points it at the buffer. *)
Definition power_up (hw : Z) (cfg : config_t) : machine :=
  {| fm := {| fm_buffer := repeat 0 (Z.to_nat FM_BUFFER_LEN);
              fm_last := (0, 0);
              fm_ptr := -1;
              fm_cycles_ratio := 0;
              fm_cycles_start := 0;
              fm_cycles_count := 0 |};
     ym := {| YM_Reset := None; YM_Update := None;
              YM_Write := None; YM_Read := None |};
     nuked := {| ym3438 := false; ym3438_accm := repeat (0, 0) 24;
                 ym3438_sample := (0, 0); ym3438_cycles := 0 |};
     ym2612 := false;
     ym2413 := false;
     psg := false;
     blips0 := [];
     system_hw := hw;
     config := cfg |}.

(** run a computation and keep the machine it leaves, if it returns *)
Definition after {A} (c : M A) (m : machine) : machine :=
  match c m with
  | Ok (_, m') => m'
  | _ => m
  end.

(** [sound_init] then [sound_reset] on the given console *)
Definition started (hw : Z) (cfg : config_t) : machine :=
  after sound_reset (after sound_init (power_up hw cfg)).

(** Mega Drive with the MAME core, band-limited mixing *)
Definition md : machine := started 128 (mock_config 0 1).
(** the same with linear mixing *)
Definition md_fast : machine := started 128 (mock_config 0 0).
(** Mega Drive with the Nuked core *)
Definition md_nuked : machine := started 128 (mock_config 1 1).
(** Master System *)
Definition sms : machine := started 32 (mock_config 0 1).

End Mock.

(** ** The statements of the design document, in its words *)

Section Claims.
Context `{P : Platform} `{E : Collaborators}.

(** Clock scheduler: a target beyond [fm_cycles_count] requests exactly
    [owed] samples from the bound generator at the write position, moves
    the pointer by [2 * owed] ints and the counter by [owed * ratio]; any
    other target changes nothing. *)
Definition fm_update_as_documented (cycles : Z) (m : machine) : Prop :=
  let count := fm_cycles_count (fm m) in
  let ratio := fm_cycles_ratio (fm m) in
  let owed := ceil_div (cycles - count) ratio in
  (count < cycles ->
     exists m1,
       call_YM_Update (fm_ptr (fm m)) owed m = Ok (tt, m1) /\
       fm_update cycles m =
         Ok (tt, set_fm_cycles_count (count + owed * ratio)
                   (set_fm_ptr (fm_ptr (fm m) + 2 * owed) m1))) /\
  (cycles <= count -> fm_update cycles m = Ok (tt, m)).

(** targets that never decrease, starting at [lo] or above *)
Fixpoint ascending (lo : Z) (targets : list Z) : Prop :=
  match targets with
  | [] => True
  | c :: targets' => lo <= c /\ ascending c targets'
  end.

(** Requests to the backend as the design document describes them: for
    each entry [n] of [lens], in order, the bound bulk generator is called
    for [n] samples at the write position, the position then moves on by
    [2 * n] ints and the produced-through counter by [n] ratios.  Each
    request so picks up where the one before ended. *)
Fixpoint generate_all (lens : list Z) : M unit :=
  match lens with
  | [] => ret tt
  | n :: lens' =>
      bind get (fun m =>
      bind (call_YM_Update (fm_ptr (fm m)) n) (fun _ =>
      bind (modify (fun m1 =>
              set_fm_cycles_count
                (fm_cycles_count (fm m) + n * fm_cycles_ratio (fm m))
                (set_fm_ptr (fm_ptr (fm m) + 2 * n) m1))) (fun _ =>
      generate_all lens')))
  end.

(** the samples a list of requests asks for, in total *)
Fixpoint samples_requested (lens : list Z) : Z :=
  match lens with
  | [] => 0
  | n :: lens' => n + samples_requested lens'
  end.

(** Clock scheduler, over a run of calls from the reset state: what the
    calls do to the machine is what a list of requests [lens] to the
    bound generator does, each for at least one sample and
    [ceil(cn / ratio)] samples in total; they fill the buffer from its
    start, and the cycles they span are consecutive from cycle 0: none
    twice, none skipped. *)
Definition fm_update_seq_as_documented (targets : list Z) (m : machine) : Prop :=
  let ratio := fm_cycles_ratio (fm m) in
  let total := ceil_div (List.last targets 0) ratio in
  exists lens m',
    fm_update_seq targets m = Ok (tt, m') /\
    generate_all lens m = Ok (tt, m') /\
    Forall (fun n => 0 < n) lens /\
    samples_requested lens = total /\
    fm_ptr (fm m') = 2 * total /\
    fm_cycles_count (fm m') = total * ratio.

(** *** The frame mixer's walk, as the design document describes it

    Walk the buffer from its start; for each stereo pair apply the
    amplification percentage with truncating division and take the delta
    from the previous emitted pair; timestamps start at the frame start
    and grow by the clock ratio; walk on while the timestamp is below the
    frame length.  [mix] returns the submissions in order and the values
    the walk ends with (read position, last pair, timestamp). *)

Record submission := {
  at_time : Z;
  amp_l : Z;
  amp_r : Z;
  delta_l : Z;
  delta_r : Z
}.

Fixpoint mix (fuel : nat) (buf : list Z) (ratio cycles preamp ptr prev_l prev_r time : Z)
  : outcome (list submission * (Z * Z * Z * Z)) :=
  match fuel with
  | O => OutOfFuel
  | S fuel' =>
      if 0 <=? ptr then
        match buf !! Z.to_nat ptr with
        | None => Undefined
        | Some x =>
            if 0 <=? ptr + 1 then
              match buf !! Z.to_nat (ptr + 1) with
              | None => Undefined
              | Some y =>
                  let l := Z.quot (s32 (x * preamp)) 100 in
                  let r := Z.quot (s32 (y * preamp)) 100 in
                  let s := {| at_time := u32 time; amp_l := l; amp_r := r;
                              delta_l := s32 (l - prev_l);
                              delta_r := s32 (r - prev_r) |} in
                  let time' := s32 (u32 (u32 time + ratio)) in
                  if u32 time' <? cycles then
                    match mix fuel' buf ratio cycles preamp (ptr + 2) l r time' with
                    | Ok (ss, fin) => Ok (s :: ss, fin)
                    | Undefined => Undefined
                    | OutOfFuel => OutOfFuel
                    end
                  else Ok ([s], (ptr + 2, l, r, time'))
              end
            else Undefined
        end
      else Undefined
  end.

(** the walk over [n] pairs that all hold the amplified level [a] *)
Fixpoint level_walk (n : nat) (ratio a time prev_l prev_r : Z) : list submission :=
  match n with
  | O => []
  | S n' =>
      {| at_time := time; amp_l := a; amp_r := a;
         delta_l := s32 (a - prev_l); delta_r := s32 (a - prev_r) |}
      :: level_walk n' ratio a (time + ratio) a a
  end.

(** the frame of the concrete scenario: 50 samples at level 100 after
    silence, one ratio of 1008 cycles apart *)
Definition level_100_frame : list submission :=
  {| at_time := 0; amp_l := 100; amp_r := 100; delta_l := 100; delta_r := 100 |}
  :: map (fun i => {| at_time := 1008 * Z.of_nat i; amp_l := 100; amp_r := 100;
                      delta_l := 0; delta_r := 0 |})
         (seq 1 49).

(** hand the submissions to one entry point of the resampler, in order *)
Definition submit (add : Z -> Z -> Z -> blip_t -> blip_t)
           (ss : list submission) (b : blip_t) : blip_t :=
  fold_left (fun b s => add (at_time s) (delta_l s) (delta_r s) b) ss b.

(** the bookkeeping after the walk, lines 256 to 270 *)
Definition finish (cycles prev_l prev_r time : Z) (m : machine) : Z * machine :=
  let residual := u32 (u32 time - cycles) in
  let m' :=
    set_blips0 (blip_end_frame cycles (blips0 m))
      (set_fm_cycles_count residual
         (set_fm_cycles_start residual
            (set_fm_last (prev_l, prev_r) (set_fm_ptr 0 m)))) in
  (blip_samples_avail (blips0 m'), m').

(** the entry point of the resampler the quality flag selects *)
Definition entry_point (m : machine) : Z -> Z -> Z -> blip_t -> blip_t :=
  if negb (config_hq_fm (config m) =? 0) then blip_add_delta
  else blip_add_delta_fast.



(** what a frame hands to the resampler *)
Definition frame_submissions (fuel : nat) (cycles : Z) (m : machine)
  : outcome (list submission) :=
  match fm_update cycles
          (set_blips0 (snd (psg_end_frame cycles (psg m) (blips0 m)))
             (set_psg (fst (psg_end_frame cycles (psg m) (blips0 m))) m)) with
  | Ok (_, m1) =>
      match mix fuel (fm_buffer (fm m1)) (fm_cycles_ratio (fm m1)) cycles
                (config_fm_preamp (config m1)) 0
                (fst (fm_last (fm m1))) (snd (fm_last (fm m1)))
                (s32 (fm_cycles_start (fm m1))) with
      | Ok (ss, _) => Ok ss
      | Undefined => Undefined
      | OutOfFuel => OutOfFuel
      end
  | Undefined => Undefined
  | OutOfFuel => OutOfFuel
  end.


(** Frame mixer on an empty buffer (nothing generated since the pointer
    was reset, and the target already covered): no delta reaches the
    resampler, the carry is left as it was, and the bookkeeping is done. *)
Definition empty_frame_as_documented (cycles : Z) (m : machine) : Prop :=
  fm_ptr (fm m) = 0 -> cycles <= fm_cycles_count (fm m) ->
  exists fuel n m',
    sound_update fuel cycles m = Ok (n, m') /\
    blips0 m' = blip_end_frame cycles (snd (psg_end_frame cycles (psg m) (blips0 m))) /\
    fm_last (fm m') = fm_last (fm m) /\
    fm_ptr (fm m') = 0 /\
    fm_cycles_count (fm m') = fm_cycles_start (fm m').

(** *** Operations of a session *)

Inductive operation :=
| Op_fm_update (cycles : Z)
| Op_fm_reset (cycles : Z)
| Op_fm_write (cycles address data : Z)
| Op_fm_read (cycles address : Z)
| Op_sound_update (fuel : nat) (cycles : Z)
| Op_sound_context_load (state : Mem.mem).

Local Open Scope sound_scope.

Definition perform (op : operation) : M unit :=
  match op with
  | Op_fm_update cycles => fm_update cycles
  | Op_fm_reset cycles => fm_reset cycles
  | Op_fm_write cycles address data => fm_write cycles address data
  | Op_fm_read cycles address => exec fm_read cycles address; ret tt
  | Op_sound_update fuel cycles => exec sound_update fuel cycles; ret tt
  | Op_sound_context_load state => exec sound_context_load state; ret tt
  end.

Fixpoint perform_all (ops : list operation) : M unit :=
  match ops with
  | [] => ret tt
  | op :: ops' => exec perform op; perform_all ops'
  end.



(** The cycle target of an operation, with the clock ratio, fits 32
    bits.  A frame end and a load need nothing. *)
Definition target_fits (ratio : Z) (op : operation) : Prop :=
  match op with
  | Op_fm_update cycles
  | Op_fm_reset cycles
  | Op_fm_write cycles _ _
  | Op_fm_read cycles _ => is_u32 cycles /\ cycles + ratio <= 2 ^ 32
  | Op_sound_update _ _ => True
  | Op_sound_context_load _ => True
  end.

(** the operations that synchronise the chip with the CPU *)
Definition synchronises (op : operation) : bool :=
  match op with
  | Op_fm_update _ | Op_fm_reset _ | Op_fm_write _ _ _ | Op_fm_read _ _ => true
  | _ => false
  end.

(** Monotonicity as the design document has it: no operation of the
    core leaves either counter below its value before. *)
Definition counters_monotone_as_documented (op : operation) (m : machine) : Prop :=
  forall m', perform op m = Ok (tt, m') ->
    fm_cycles_start (fm m) <= fm_cycles_start (fm m') /\
    fm_cycles_count (fm m) <= fm_cycles_count (fm m').

(** *** Backend selection and persistence *)

(** the core the hardware class and the preference flag select *)
Definition selected_core (m : machine) : fm_core :=
  if Z.land (system_hw m) SYSTEM_PBC =? SYSTEM_MD then
    if HAVE_YM3438_CORE && negb (config_ym3438 (config m) =? 0) then YM3438
    else YM2612
  else YM2413.

(** the clock ratio table of the design document *)
Definition core_ratio (c : fm_core) : Z :=
  match c with
  | YM3438 => 42
  | YM2612 => 1008
  | YM2413 => 1080
  end.

(** the entry points a core has; the YM2413 has no read *)
Definition core_ptrs (c : fm_core) : ym_ptrs :=
  {| YM_Reset := Some c; YM_Update := Some c; YM_Write := Some c;
     YM_Read := match c with YM2413 => None | _ => Some c end |}.

(** the selected chip is in the state its reset entry point leaves *)
Definition core_is_reset (c : fm_core) (m : machine) : Prop :=
  match c with
  | YM3438 => exists s, ym3438 (nuked m) = OPN2_Reset s
  | YM2612 => exists s, ym2612 m = YM2612ResetChip s
  | YM2413 => exists s, ym2413 m = YM2413ResetChip s
  end.

(** the selected chip is as its initialisation leaves it *)
Definition core_is_initialised (c : fm_core) (m m' : machine) : Prop :=
  match c with
  | YM3438 => nuked m' = {| ym3438 := ym3438_zero;
                            ym3438_accm := repeat (0, 0) 24;
                            ym3438_sample := (0, 0);
                            ym3438_cycles := ym3438_cycles (nuked m) |}
  | YM2612 => ym2612 m' =
              YM2612Config (config_dac_bits (config m)) (YM2612Init (ym2612 m))
  | YM2413 => ym2413 m' = YM2413Init (ym2413 m)
  end.

(** Backend selection as the design document has it: [sound_init]
    always succeeds, selects the core with its ratio, binds its entry
    points, and leaves the FM engine and the PSG in their reset state. *)
Definition sound_init_as_documented (m : machine) : Prop :=
  exists m',
    sound_init m = Ok (tt, m') /\
    fm_cycles_ratio (fm m') = core_ratio (selected_core m) /\
    ym m' = core_ptrs (selected_core m) /\
    core_is_reset (selected_core m) m' /\
    (exists p, psg m' = psg_reset p).







End Claims.

(** The contract of the collaborators' own persistence: an object
    representation has the size of its type and determines the object; a
    context loader restores what the saver wrote and reports its size. *)
Class Faithful `{E : Collaborators} : Prop := {
  ym3438_image_length : forall s, length (ym3438_image s) = sizeof_ym3438;
  ym3438_image_inv : forall s, ym3438_of_image (ym3438_image s) = s;
  ym2413_image_length : forall s, length (ym2413_image s) = YM2413GetContextSize;
  ym2413_image_inv : forall s, ym2413_of_image (ym2413_image s) = s;
  YM2612_context_inv : forall mem s s0,
    Mem.read mem 0 (length (YM2612SaveContext s)) = YM2612SaveContext s ->
    YM2612LoadContext mem s0 = (s, Z.of_nat (length (YM2612SaveContext s)));
  psg_context_inv : forall mem s s0,
    Mem.read mem 0 (length (psg_context_save s)) = psg_context_save s ->
    psg_context_load mem s0 = (s, Z.of_nat (length (psg_context_save s)))
}.

(** ** Notions for the properties of the remaining code

    What the Nuked wrapper, the scheduler and the mixer are measured
    against below. *)

Section Notions.
Context `{P : Platform} `{E : Collaborators}.

(** the chip after [n] clocks, and the rows it put out, first to last *)
Fixpoint OPN2_clocks (n : nat) (chip : ym3438_t) : ym3438_t * list (Z * Z) :=
  match n with
  | O => (chip, [])
  | S n' =>
      let '(chip', row) := OPN2_Clock chip in
      let '(chip'', rows) := OPN2_clocks n' chip' in
      (chip'', row :: rows)
  end.

(** the two ints [YM3438_Update] stores for a held sample *)
Definition nuked_output (sample : Z * Z) (i : nat) : Z :=
  if Nat.even i then s32 (fst sample * 11) else s32 (snd sample * 11).

(** the buffer holds the samples between the frame start and the cycle
    the chip has been run to: [j] of them, [fm_ptr] being [2 * j] ints in *)
Definition buffer_tracks_counters (m : machine) : Prop :=
  exists j, 0 <= j /\
    fm_cycles_count (fm m) = fm_cycles_start (fm m) + j * fm_cycles_ratio (fm m) /\
    fm_ptr (fm m) = 2 * j.


(** the largest magnitude [(x * preamp) / 100] can have for an [int]
    product: [2^31 / 100] *)
Definition amplified_max : Z := 21474836.

Definition amplified (p : Z * Z) : Prop :=
  - amplified_max <= fst p <= amplified_max /\
  - amplified_max <= snd p <= amplified_max.

(** the sum of the deltas handed to the resampler, per channel *)
Fixpoint total_delta (ss : list submission) : Z * Z :=
  match ss with
  | [] => (0, 0)
  | s :: ss' => (delta_l s + fst (total_delta ss'), delta_r s + snd (total_delta ss'))
  end.

End Notions.

(** ** States and sessions of the examples *)

Module Sessions.
Import Mock.
#[local] Existing Instance platform.
#[local] Existing Instance collaborators.

Definition is_ok {A} (o : outcome A) : bool :=
  match o with
  | Ok _ => true
  | _ => false
  end.

Definition short_frame : machine :=
  after (sound_update 3 3000) (after (fm_write 1500 0 1) md).

Definition after_frame : machine := after (sound_update 50 50000) md.




Definition crafted_state : Mem.mem :=
  Mem.write Mem.zero 0 [0; 0; 0; 248; 255; 255; 255].




End Sessions.

(** ** Facts of C integer arithmetic *)

Module CIntFacts.

Lemma u32_range x : is_u32 (u32 x).
Proof. unfold is_u32, u32. apply Z.mod_pos_bound. lia. Qed.

Lemma s32_range x : is_s32 (s32 x).
Proof.
  unfold is_s32, s32.
  pose proof (Z.mod_pos_bound (x + 2 ^ 31) (2 ^ 32)). lia.
Qed.

Lemma u32_id x : is_u32 x -> u32 x = x.
Proof. unfold is_u32, u32. intros. apply Z.mod_small. lia. Qed.

Lemma s32_id x : is_s32 x -> s32 x = x.
Proof.
  unfold is_s32, s32. intros.
  rewrite Z.mod_small; lia.
Qed.


Lemma u32_s32 x : u32 (s32 x) = u32 x.
Proof.
  unfold u32, s32.
  rewrite Zminus_mod_idemp_l.
  f_equal. lia.
Qed.

Lemma u32_idem x : u32 (u32 x) = u32 x.
Proof. unfold u32. apply Z.mod_mod. lia. Qed.

Lemma u32_add_l x y : u32 (u32 x + y) = u32 (x + y).
Proof. unfold u32. apply Zplus_mod_idemp_l. Qed.

Lemma u32_add_r x y : u32 (x + u32 y) = u32 (x + y).
Proof. unfold u32. apply Zplus_mod_idemp_r. Qed.

Lemma u32_sub_l x y : u32 (u32 x - y) = u32 (x - y).
Proof. unfold u32. apply Zminus_mod_idemp_l. Qed.

(** The ceiling is the least quotient that covers [a]. *)
Lemma ceil_div_spec a b :
  0 < b -> (ceil_div a b - 1) * b < a <= ceil_div a b * b.
Proof.
  intros Hb. unfold ceil_div.
  pose proof (Z.div_mod (- a) b ltac:(lia)).
  pose proof (Z.mod_pos_bound (- a) b Hb).
  nia.
Qed.

Lemma ceil_div_unique a b q :
  0 < b -> (q - 1) * b < a <= q * b -> ceil_div a b = q.
Proof.
  intros Hb Hq. pose proof (ceil_div_spec a b Hb). nia.
Qed.

(** The idiom of the source, [(a + b - 1) / b], is the ceiling. *)
Lemma ceil_div_idiom a b : 0 < b -> (a + b - 1) / b = ceil_div a b.
Proof.
  intros Hb. symmetry. apply ceil_div_unique; [assumption|].
  pose proof (Z.div_mod (a + b - 1) b ltac:(lia)).
  pose proof (Z.mod_pos_bound (a + b - 1) b Hb).
  nia.
Qed.

Lemma ceil_div_pos a b : 0 < b -> 0 < a -> 0 < ceil_div a b.
Proof. intros Hb Ha. pose proof (ceil_div_spec a b Hb). nia. Qed.

Lemma ceil_div_nonneg a b : 0 < b -> 0 <= a -> 0 <= ceil_div a b.
Proof. intros Hb Ha. pose proof (ceil_div_spec a b Hb). nia. Qed.

End CIntFacts.

Import CIntFacts.

(** ** Frame properties of the generators *)

Section FrameFacts.
Context `{P : Platform} `{E : Collaborators}.
Local Open Scope sound_scope.

Lemma FM_BUFFER_LEN_bounds : 2160 <= FM_BUFFER_LEN <= 51840.
Proof. unfold FM_BUFFER_LEN. destruct HAVE_YM3438_CORE; lia. Qed.

Lemma generator_frame_refl m : generator_frame m m.
Proof. constructor; reflexivity. Qed.

Lemma generator_frame_trans m1 m2 m3 :
  generator_frame m1 m2 -> generator_frame m2 m3 -> generator_frame m1 m3.
Proof.
  intros [] []. constructor; etransitivity; eassumption.
Qed.

Lemma store_fm_buffer_frame off v m m' :
  store_fm_buffer off v m = Ok (tt, m') -> generator_frame m m'.
Proof.
  unfold store_fm_buffer. case_match; [|discriminate].
  intros [= <-]. constructor; simpl; try reflexivity.
  apply length_insert.
Qed.

Lemma store_fm_buffer_ok off v m :
  0 <= off < Z.of_nat (length (fm_buffer (fm m))) ->
  store_fm_buffer off v m =
    Ok (tt, set_fm_buffer (<[Z.to_nat off := v]> (fm_buffer (fm m))) m).
Proof.
  intros H. unfold store_fm_buffer.
  replace ((0 <=? off) && (off <? Z.of_nat (length (fm_buffer (fm m)))))
    with true by (symmetry; rewrite andb_true_iff, Z.leb_le, Z.ltb_lt; lia).
  reflexivity.
Qed.

Lemma store_fm_block_frame off vals m m' :
  store_fm_block off vals m = Ok (tt, m') -> generator_frame m m'.
Proof.
  unfold store_fm_block. case_match; [|discriminate].
  intros [= <-]. constructor; simpl; try reflexivity.
  apply length_inserts.
Qed.

Lemma YM3438_Update_step_frame buffer m m' :
  YM3438_Update_step buffer m = Ok (tt, m') -> generator_frame m m'.
Proof.
  unfold YM3438_Update_step, bind, get, modify.
  case_match; [|discriminate].
  destruct (OPN2_Clock _) as [chip row].
  destruct (store_fm_buffer buffer _ _) as [[[] m1]| |] eqn:H1; try discriminate.
  intros H2.
  apply store_fm_buffer_frame in H1, H2.
  eapply generator_frame_trans; [|exact H2].
  eapply generator_frame_trans; [|exact H1].
  constructor; reflexivity.
Qed.

Lemma YM3438_Update_loop_frame n : forall buffer m m',
  YM3438_Update_loop n buffer m = Ok (tt, m') -> generator_frame m m'.
Proof.
  induction n as [|n IH]; simpl; intros buffer m m'.
  - intros [= <-]. apply generator_frame_refl.
  - unfold bind.
    destruct (YM3438_Update_step buffer m) as [[[] m1]| |] eqn:H1; try discriminate.
    intros H2. apply YM3438_Update_step_frame in H1. apply IH in H2.
    eapply generator_frame_trans; eassumption.
Qed.

Lemma call_YM_Update_frame buffer len m m' :
  call_YM_Update buffer len m = Ok (tt, m') -> generator_frame m m'.
Proof.
  unfold call_YM_Update, bind, get, modify.
  destruct (YM_Update (ym m)) as [[| |]|]; try discriminate.
  - apply YM3438_Update_loop_frame.
  - destruct (YM2612Update len (ym2612 m)) as [chip out].
    intros H. apply store_fm_block_frame in H.
    eapply generator_frame_trans; [|exact H]. constructor; reflexivity.
  - destruct (YM2413Update len (ym2413 m)) as [chip out].
    intros H. apply store_fm_block_frame in H.
    eapply generator_frame_trans; [|exact H]. constructor; reflexivity.
Qed.

Lemma length_generated out len : length (generated out len) = (2 * Z.to_nat len)%nat.
Proof. unfold generated. rewrite length_map, length_seq. reflexivity. Qed.

(** The Nuked wrapper stays inside the block of [2 * length] ints it is
    given and keeps its accumulator well formed. *)
Lemma YM3438_Update_step_returns buffer m :
  wf_nuked m ->
  0 <= buffer -> buffer + 2 <= Z.of_nat (length (fm_buffer (fm m))) ->
  exists m', YM3438_Update_step buffer m = Ok (tt, m') /\ wf_nuked m'.
Proof.
  intros [Ha Hc] Hb Hr.
  unfold YM3438_Update_step, bind, get, modify.
  replace ((0 <=? ym3438_cycles (nuked m)) && (ym3438_cycles (nuked m) <? 24)
           && (ym3438_cycles (nuked m) <? Z.of_nat (length (ym3438_accm (nuked m)))))
    with true by (symmetry; rewrite !andb_true_iff, Z.leb_le, !Z.ltb_lt; lia).
  destruct (OPN2_Clock _) as [chip row].
  rewrite store_fm_buffer_ok by (simpl; lia).
  rewrite store_fm_buffer_ok by (simpl; rewrite length_insert; lia).
  eexists. split; [reflexivity|].
  constructor; simpl.
  - rewrite length_insert. exact Ha.
  - unfold u32. apply Z.mod_pos_bound. lia.
Qed.

Lemma YM3438_Update_loop_returns n : forall buffer m,
  wf_nuked m ->
  0 <= buffer ->
  buffer + 2 * Z.of_nat n <= Z.of_nat (length (fm_buffer (fm m))) ->
  exists m', YM3438_Update_loop n buffer m = Ok (tt, m') /\ wf_nuked m'.
Proof.
  induction n as [|n IH]; intros buffer m Hw Hb Hr.
  - exists m. split; [reflexivity|assumption].
  - destruct (YM3438_Update_step_returns buffer m Hw Hb ltac:(lia)) as (m1 & H1 & Hw1).
    pose proof (YM3438_Update_step_frame _ _ _ H1) as F.
    destruct (IH (buffer + 2) m1 Hw1 ltac:(lia)) as (m2 & H2 & Hw2).
    { rewrite (gf_len _ _ F). lia. }
    exists m2. split; [|assumption].
    simpl. unfold bind. rewrite H1. exact H2.
Qed.

(** A bound generator that is given room returns. *)
Lemma call_YM_Update_returns buffer len m :
  YM_Update (ym m) <> None ->
  wf_nuked m ->
  0 <= buffer ->
  buffer + 2 * Z.max 0 len <= Z.of_nat (length (fm_buffer (fm m))) ->
  exists m', call_YM_Update buffer len m = Ok (tt, m') /\ wf_nuked m'.
Proof.
  intros Hy Hw Hb Hr.
  unfold call_YM_Update, bind, get, modify.
  destruct (YM_Update (ym m)) as [[| |]|]; [| | |congruence].
  - apply YM3438_Update_loop_returns; [assumption|assumption|lia].
  - destruct (YM2612Update len (ym2612 m)) as [chip out].
    unfold store_fm_block. simpl. rewrite length_generated.
    replace ((0 <=? buffer) && _) with true
      by (symmetry; rewrite andb_true_iff, Z.leb_le, Z.leb_le; lia).
    eexists. split; [reflexivity|]. destruct Hw. constructor; assumption.
  - destruct (YM2413Update len (ym2413 m)) as [chip out].
    unfold store_fm_block. simpl. rewrite length_generated.
    replace ((0 <=? buffer) && _) with true
      by (symmetry; rewrite andb_true_iff, Z.leb_le, Z.leb_le; lia).
    eexists. split; [reflexivity|]. destruct Hw. constructor; assumption.
Qed.

End FrameFacts.

(** ** Clock scheduler *)

Section Scheduler.
Context `{P : Platform} `{E : Collaborators}.

(** The sample count of the source is the ceiling as long as the
    32-bit sum does not wrap. *)
Lemma samples_owed cycles count ratio :
  is_u32 cycles -> is_u32 count -> 0 < ratio ->
  count < cycles -> cycles - count + ratio - 1 < 2 ^ 32 ->
  u32 (u32 (u32 (cycles - count) + ratio) - 1) / ratio
  = ceil_div (cycles - count) ratio.
Proof.
  unfold is_u32. intros Hc Hn Hr Hlt Hw.
  rewrite u32_add_l, u32_sub_l.
  rewrite u32_id by (unfold is_u32; lia).
  replace (cycles - count + ratio - 1) with ((cycles - count) + ratio - 1) by lia.
  apply ceil_div_idiom. assumption.
Qed.

Lemma fm_update_covered cycles m :
  cycles <= fm_cycles_count (fm m) -> fm_update cycles m = Ok (tt, m).
Proof.
  intros H. unfold fm_update, bind, get.
  replace (fm_cycles_count (fm m) <? cycles) with false
    by (symmetry; apply Z.ltb_ge; lia).
  reflexivity.
Qed.

(** The run of [fm_update] on a target that is not covered yet. *)
Lemma fm_update_owed cycles m :
  is_u32 cycles -> wf_fm m -> wf_nuked m -> YM_Update (ym m) <> None ->
  let count := fm_cycles_count (fm m) in
  let ratio := fm_cycles_ratio (fm m) in
  let owed := ceil_div (cycles - count) ratio in
  0 < ratio -> count < cycles ->
  cycles - count + ratio - 1 < 2 ^ 32 ->
  fm_ptr (fm m) + 2 * owed <= FM_BUFFER_LEN ->
  exists m1,
    call_YM_Update (fm_ptr (fm m)) owed m = Ok (tt, m1) /\
    wf_nuked m1 /\
    fm_update cycles m =
      Ok (tt, set_fm_cycles_count (u32 (count + owed * ratio))
                (set_fm_ptr (fm_ptr (fm m) + 2 * owed) m1)).
Proof.
  intros Hc Hw Hn Hy count ratio owed Hr Hlt Hsum Hroom.
  destruct Hw as [Hlen Hptr Hratio Hstart Hcount].
  pose proof FM_BUFFER_LEN_bounds as HB.
  assert (Howed : 0 < owed) by (apply ceil_div_pos; lia).
  destruct (call_YM_Update_returns (fm_ptr (fm m)) owed m Hy Hn ltac:(lia))
    as (m1 & H1 & Hn1).
  { rewrite Hlen. lia. }
  exists m1. split; [exact H1|]. split; [exact Hn1|].
  pose proof (call_YM_Update_frame _ _ _ _ H1) as F.
  unfold fm_update, bind, get, modify.
  replace (fm_cycles_count (fm m) <? cycles) with true
    by (symmetry; apply Z.ltb_lt; assumption).
  replace (fm_cycles_ratio (fm m) =? 0) with false
    by (symmetry; apply Z.eqb_neq; fold ratio; lia).
  unfold samples_to_run.
  rewrite (samples_owed cycles (fm_cycles_count (fm m)) (fm_cycles_ratio (fm m)))
    by assumption.
  fold count ratio owed.
  rewrite (s32_id owed) by (unfold is_s32; lia).
  rewrite H1.
  rewrite Z.shiftl_mul_pow2 by lia.
  rewrite (u32_id (owed * 2 ^ 1)) by (unfold is_u32; lia).
  rewrite (gf_ptr _ _ F), (gf_len _ _ F).
  replace ((0 <=? fm_ptr (fm m) + owed * 2 ^ 1)
           && (fm_ptr (fm m) + owed * 2 ^ 1 <=? Z.of_nat (length (fm_buffer (fm m)))))
    with true
    by (symmetry; rewrite andb_true_iff, !Z.leb_le; lia).
  simpl.
  rewrite (gf_count _ _ F), (gf_ratio _ _ F).
  fold count ratio. rewrite u32_add_r.
  do 4 f_equal. lia.
Qed.

End Scheduler.

Section SchedulerContract.
Context `{P : Platform} `{E : Collaborators}.

Lemma fm_update_owed_wf cycles m m1 :
  wf_fm m -> generator_frame m m1 ->
  let count := fm_cycles_count (fm m) in
  let ratio := fm_cycles_ratio (fm m) in
  let owed := ceil_div (cycles - count) ratio in
  0 <= owed -> fm_ptr (fm m) + 2 * owed <= FM_BUFFER_LEN ->
  wf_fm (set_fm_cycles_count (u32 (count + owed * ratio))
           (set_fm_ptr (fm_ptr (fm m) + 2 * owed) m1)).
Proof.
  intros [Hlen Hptr Hratio Hstart Hcount] F count ratio owed Ho Hroom.
  constructor; simpl.
  - rewrite (gf_len _ _ F). assumption.
  - lia.
  - rewrite (gf_ratio _ _ F). assumption.
  - rewrite (gf_start _ _ F). assumption.
  - apply u32_range.
Qed.

(** C1 (as amended): for a bound generator, a set clock ratio, a target
    with [cycles + ratio <= 2^32] and room in the buffer for the owed
    samples, [fm_update] asks the generator for exactly
    [owed = ceil((cycles - fm_cycles_count) / ratio)] samples at the write
    position, advances [fm_ptr] by [2 * owed] ints and [fm_cycles_count]
    by [owed * ratio]; a target that is already covered changes
    nothing. *)
Theorem fm_update_contract cycles m :
  is_u32 cycles -> wf_fm m -> wf_nuked m -> YM_Update (ym m) <> None ->
  0 < fm_cycles_ratio (fm m) ->
  cycles + fm_cycles_ratio (fm m) <= 2 ^ 32 ->
  (fm_cycles_count (fm m) < cycles ->
   fm_ptr (fm m)
   + 2 * ceil_div (cycles - fm_cycles_count (fm m)) (fm_cycles_ratio (fm m))
   <= FM_BUFFER_LEN) ->
  fm_update_as_documented cycles m.
Proof.
  intros Hc Hw Hn Hy Hr Hsum Hroom. split.
  - intros Hlt.
    pose proof (wf_count _ Hw) as Hcount.
    destruct (fm_update_owed cycles m Hc Hw Hn Hy Hr Hlt) as (m1 & H1 & _ & H2).
    { unfold is_u32 in *. lia. }
    { auto. }
    exists m1. split; [exact H1|]. rewrite H2.
    rewrite u32_id; [reflexivity|].
    pose proof (ceil_div_spec (cycles - fm_cycles_count (fm m))
                  (fm_cycles_ratio (fm m)) Hr).
    pose proof (ceil_div_pos (cycles - fm_cycles_count (fm m))
                  (fm_cycles_ratio (fm m)) Hr ltac:(lia)).
    unfold is_u32 in *. nia.
  - apply fm_update_covered.
Qed.

Lemma ceil_div_shift c k r :
  0 < r -> ceil_div (c - k * r) r = ceil_div c r - k.
Proof.
  intros Hr. apply ceil_div_unique; [assumption|].
  pose proof (ceil_div_spec c r Hr). nia.
Qed.

Lemma ceil_div_mono a b r : 0 < r -> a <= b -> ceil_div a r <= ceil_div b r.
Proof.
  intros Hr Hab.
  pose proof (ceil_div_spec a r Hr). pose proof (ceil_div_spec b r Hr). nia.
Qed.

Lemma last_cons_default (c : Z) targets d : List.last (c :: targets) d = List.last targets c.
Proof.
  revert c d. induction targets as [|c' targets IH]; intros c d; [reflexivity|].
  change (List.last (c :: c' :: targets) d) with (List.last (c' :: targets) d).
  rewrite (IH c' d), (IH c' c). reflexivity.
Qed.

Lemma last_ascending targets : forall lo,
  ascending lo targets -> lo <= List.last targets lo.
Proof.
  induction targets as [|c targets IH]; intros lo Ha.
  - simpl. lia.
  - destruct Ha as [Hle Ha]. specialize (IH c Ha).
    rewrite last_cons_default. lia.
Qed.

(** The run from any state whose counter is the ceiling-multiple of the
    targets seen so far. *)
Lemma fm_update_seq_total targets : forall c0 m,
  wf_fm m -> wf_nuked m -> YM_Update (ym m) <> None ->
  let ratio := fm_cycles_ratio (fm m) in
  0 < ratio -> 0 <= c0 ->
  fm_cycles_count (fm m) = ceil_div c0 ratio * ratio ->
  fm_ptr (fm m) = 2 * ceil_div c0 ratio ->
  ascending c0 targets ->
  List.last targets c0 + ratio <= 2 ^ 32 ->
  2 * ceil_div (List.last targets c0) ratio <= FM_BUFFER_LEN ->
  exists lens m',
    fm_update_seq targets m = Ok (tt, m') /\
    generate_all lens m = Ok (tt, m') /\
    Forall (fun n => 0 < n) lens /\
    samples_requested lens
      = ceil_div (List.last targets c0) ratio - ceil_div c0 ratio /\
    fm_ptr (fm m') = 2 * ceil_div (List.last targets c0) ratio /\
    fm_cycles_count (fm m') = ceil_div (List.last targets c0) ratio * ratio.
Proof.
  induction targets as [|c targets IH]; intros c0 m Hw Hn Hy ratio Hr Hc0 Hcnt Hptr Ha Hsum Hroom.
  - exists [], m. simpl. repeat split; [constructor|lia|assumption|assumption].
  - destruct Ha as [Hle Ha].
    rewrite last_cons_default in Hsum, Hroom |- *.
    pose proof (last_ascending _ _ Ha) as Hlast.
    pose proof (ceil_div_spec c0 ratio Hr) as Hs0.
    pose proof (ceil_div_spec c ratio Hr) as Hs.
    pose proof (ceil_div_mono c (List.last targets c) ratio Hr Hlast) as Hm.
    assert (Hcu : is_u32 c) by (unfold is_u32; lia).
    simpl. unfold bind.
    destruct (Z.ltb_spec (fm_cycles_count (fm m)) c) as [Hlt|Hge].
    + (* the target is not covered yet *)
      assert (Hshift : ceil_div (c - fm_cycles_count (fm m)) ratio
                       = ceil_div c ratio - ceil_div c0 ratio).
      { rewrite Hcnt. apply ceil_div_shift. assumption. }
      destruct (fm_update_owed c m Hcu Hw Hn Hy Hr Hlt) as (m1 & H1 & Hn1 & H2).
      { pose proof (wf_count _ Hw). unfold is_u32 in *. fold ratio. lia. }
      { fold ratio. rewrite Hshift, Hptr. lia. }
      fold ratio in H2. rewrite Hshift, Hptr, Hcnt in H2.
      pose proof (call_YM_Update_frame _ _ _ _ H1) as F.
      rewrite H2.
      set (m2 := set_fm_cycles_count _ _) in *.
      assert (Hcnt2 : fm_cycles_count (fm m2) = ceil_div c ratio * ratio).
      { subst m2. simpl. rewrite u32_id; [lia|]. unfold is_u32. nia. }
      assert (Hptr2 : fm_ptr (fm m2) = 2 * ceil_div c ratio)
        by (subst m2; simpl; lia).
      assert (Hratio2 : fm_cycles_ratio (fm m2) = ratio)
        by (subst m2; simpl; apply (gf_ratio _ _ F)).
      assert (Hw2 : wf_fm m2).
      { subst m2.
        replace (ceil_div c0 ratio * ratio + (ceil_div c ratio - ceil_div c0 ratio) * ratio)
          with (fm_cycles_count (fm m)
                + ceil_div (c - fm_cycles_count (fm m)) (fm_cycles_ratio (fm m))
                  * fm_cycles_ratio (fm m))
          by (fold ratio; rewrite Hshift, Hcnt; reflexivity).
        replace (2 * ceil_div c0 ratio + 2 * (ceil_div c ratio - ceil_div c0 ratio))
          with (fm_ptr (fm m)
                + 2 * ceil_div (c - fm_cycles_count (fm m)) (fm_cycles_ratio (fm m)))
          by (fold ratio; rewrite Hshift, Hptr; reflexivity).
        apply fm_update_owed_wf; try assumption; fold ratio; rewrite Hshift; lia. }
      assert (Hn2 : wf_nuked m2) by (destruct Hn1; constructor; assumption).
      assert (Hy2 : YM_Update (ym m2) <> None).
      { subst m2. simpl. rewrite (gf_ym _ _ F). assumption. }
      destruct (IH c m2 Hw2 Hn2 Hy2) as (lens & m' & R1 & G & Hpos & R2 & R3 & R4);
        rewrite ?Hratio2; try assumption; try lia.
      exists ((ceil_div c ratio - ceil_div c0 ratio) :: lens), m'.
      rewrite Hratio2 in R2, R3, R4.
      split; [exact R1|]. split; [|split; [|split; [|split]]];
        try assumption.
      * simpl. unfold bind at 1, get. unfold bind at 1.
        rewrite <- Hshift. fold ratio in H1. rewrite H1.
        unfold bind at 1, modify. rewrite Hshift. fold ratio.
        rewrite Hcnt, Hptr.
        replace (ceil_div c0 ratio * ratio
                 + (ceil_div c ratio - ceil_div c0 ratio) * ratio)
          with (u32 (ceil_div c0 ratio * ratio
                     + (ceil_div c ratio - ceil_div c0 ratio) * ratio))
          by (apply u32_id; unfold is_u32; nia).
        exact G.
      * constructor; [|exact Hpos].
        pose proof (ceil_div_pos (c - fm_cycles_count (fm m)) ratio Hr ltac:(lia)).
        lia.
      * simpl. lia.
    + (* the target is already covered *)
      rewrite (fm_update_covered c m Hge).
      assert (Heq : ceil_div c ratio = ceil_div c0 ratio).
      { apply ceil_div_unique; [assumption|]. lia. }
      destruct (IH c m) as (lens & m' & R1 & G & Hpos & R2 & R3 & R4); fold ratio;
        rewrite ?Heq; try assumption; try lia.
      exists lens, m'. fold ratio in R2, R3, R4.
      repeat split; try assumption. lia.
Qed.

(** C2 (as amended): from a state with [fm_cycles_count = 0] and an empty
    buffer, for targets [0 <= c1 <= ... <= cn] with [cn + ratio <= 2^32]
    and room in the buffer for [ceil(cn / ratio)] samples, the calls
    return and act on the machine as a list of requests to the bound
    generator, each for at least one sample at the write position; the
    requests ask for exactly [ceil(cn / ratio)] samples in total, and the
    counter ends at [ceil(cn / ratio) * ratio]. *)
Theorem fm_update_seq_contract targets m :
  wf_fm m -> wf_nuked m -> YM_Update (ym m) <> None ->
  0 < fm_cycles_ratio (fm m) ->
  fm_cycles_count (fm m) = 0 -> fm_ptr (fm m) = 0 ->
  ascending 0 targets ->
  List.last targets 0 + fm_cycles_ratio (fm m) <= 2 ^ 32 ->
  2 * ceil_div (List.last targets 0) (fm_cycles_ratio (fm m)) <= FM_BUFFER_LEN ->
  fm_update_seq_as_documented targets m.
Proof.
  intros Hw Hn Hy Hr Hcnt Hptr Ha Hsum Hroom.
  assert (H0 : ceil_div 0 (fm_cycles_ratio (fm m)) = 0)
    by (apply ceil_div_unique; lia).
  destruct (fm_update_seq_total targets 0 m Hw Hn Hy Hr ltac:(lia))
    as (lens & m' & R1 & G & Hpos & R2 & R3 & R4);
    rewrite ?H0; try assumption; try lia.
  exists lens, m'. rewrite H0 in R2. repeat split; try assumption. lia.
Qed.

End SchedulerContract.

(** ** Frame mixer *)

Section Mixer.
Context `{P : Platform} `{E : Collaborators}.

Lemma load_fm_buffer_eq off m :
  load_fm_buffer off m =
    if 0 <=? off then
      match fm_buffer (fm m) !! Z.to_nat off with
      | Some v => Ok (v, m)
      | None => Undefined
      end
    else Undefined.
Proof. reflexivity. Qed.

(** Each loop of the source is the documented walk, handed to its own
    entry point of the resampler. *)
Lemma flush_hq_mix fuel : forall cycles preamp ptr prev_l prev_r time m,
  flush_hq fuel cycles preamp ptr prev_l prev_r time m =
    match mix fuel (fm_buffer (fm m)) (fm_cycles_ratio (fm m)) cycles preamp
              ptr prev_l prev_r time with
    | Ok (ss, fin) => Ok (fin, set_blips0 (submit blip_add_delta ss (blips0 m)) m)
    | Undefined => Undefined
    | OutOfFuel => OutOfFuel
    end.
Proof.
  induction fuel as [|fuel IH]; intros; [reflexivity|].
  simpl. unfold bind. rewrite load_fm_buffer_eq.
  destruct (0 <=? ptr); [|reflexivity].
  destruct (fm_buffer (fm m) !! Z.to_nat ptr) as [x|]; [|reflexivity].
  rewrite load_fm_buffer_eq.
  destruct (0 <=? ptr + 1); [|reflexivity].
  destruct (fm_buffer (fm m) !! Z.to_nat (ptr + 1)) as [y|]; [|reflexivity].
  unfold modify, get. simpl.
  destruct (u32 _ <? cycles); [|destruct m; reflexivity].
  rewrite IH. simpl.
  destruct (mix fuel _ _ _ _ _ _ _ _) as [[ss fin]| |]; reflexivity.
Qed.

Lemma flush_fast_mix fuel : forall cycles preamp ptr prev_l prev_r time m,
  flush_fast fuel cycles preamp ptr prev_l prev_r time m =
    match mix fuel (fm_buffer (fm m)) (fm_cycles_ratio (fm m)) cycles preamp
              ptr prev_l prev_r time with
    | Ok (ss, fin) => Ok (fin, set_blips0 (submit blip_add_delta_fast ss (blips0 m)) m)
    | Undefined => Undefined
    | OutOfFuel => OutOfFuel
    end.
Proof.
  induction fuel as [|fuel IH]; intros; [reflexivity|].
  simpl. unfold bind. rewrite load_fm_buffer_eq.
  destruct (0 <=? ptr); [|reflexivity].
  destruct (fm_buffer (fm m) !! Z.to_nat ptr) as [x|]; [|reflexivity].
  rewrite load_fm_buffer_eq.
  destruct (0 <=? ptr + 1); [|reflexivity].
  destruct (fm_buffer (fm m) !! Z.to_nat (ptr + 1)) as [y|]; [|reflexivity].
  unfold modify, get. simpl.
  destruct (u32 _ <? cycles); [|destruct m; reflexivity].
  rewrite IH. simpl.
  destruct (mix fuel _ _ _ _ _ _ _ _) as [[ss fin]| |]; reflexivity.
Qed.

(** [sound_update], step by step. *)
Lemma sound_update_run fuel cycles m :
  sound_update fuel cycles m =
    match fm_update cycles
            (set_blips0 (snd (psg_end_frame cycles (psg m) (blips0 m)))
               (set_psg (fst (psg_end_frame cycles (psg m) (blips0 m))) m)) with
    | Ok (_, m1) =>
        match mix fuel (fm_buffer (fm m1)) (fm_cycles_ratio (fm m1)) cycles
                  (config_fm_preamp (config m1)) 0
                  (fst (fm_last (fm m1))) (snd (fm_last (fm m1)))
                  (s32 (fm_cycles_start (fm m1))) with
        | Ok (ss, (_, l, r, time)) =>
            Ok (finish cycles l r time
                  (set_blips0 (submit (entry_point m1) ss (blips0 m1)) m1))
        | Undefined => Undefined
        | OutOfFuel => OutOfFuel
        end
    | Undefined => Undefined
    | OutOfFuel => OutOfFuel
    end.
Proof.
  unfold sound_update, bind at 1, modify at 1.
  destruct (psg_end_frame cycles (psg m) (blips0 m)) as [p b]. simpl.
  unfold bind at 1.
  destruct (fm_update cycles _) as [[[] m1]| |]; [|reflexivity|reflexivity].
  unfold bind at 1, get at 1. unfold bind at 1. unfold entry_point.
  destruct (negb (config_hq_fm (config m1) =? 0)).
  - rewrite flush_hq_mix.
    destruct (mix fuel _ _ _ _ _ _ _ _) as [[ss [[[q l] r] t]]| |]; reflexivity.
  - rewrite flush_fast_mix.
    destruct (mix fuel _ _ _ _ _ _ _ _) as [[ss [[[q l] r] t]]| |]; reflexivity.
Qed.

End Mixer.

Section Residual.
Context `{P : Platform} `{E : Collaborators}.

Lemma scheduler_frame_refl m : scheduler_frame m m.
Proof. constructor; reflexivity. Qed.

Lemma fm_update_frame cycles m m' :
  fm_update cycles m = Ok (tt, m') -> scheduler_frame m m'.
Proof.
  unfold fm_update, bind, get, modify.
  destruct (fm_cycles_count (fm m) <? cycles).
  2:{ intros [= <-]. apply scheduler_frame_refl. }
  destruct (fm_cycles_ratio (fm m) =? 0); [discriminate|].
  destruct (call_YM_Update _ _ m) as [[[] m1]| |] eqn:H1; try discriminate.
  apply call_YM_Update_frame in H1. destruct H1.
  destruct (_ && _); [|discriminate].
  intros [= <-]. constructor; simpl; assumption.
Qed.

(** Without a 32-bit wrap the counter moves up by whole samples. *)
Lemma fm_update_count cycles m m' :
  is_u32 cycles ->
  is_u32 (fm_cycles_count (fm m)) -> is_u32 (fm_cycles_ratio (fm m)) ->
  cycles + fm_cycles_ratio (fm m) <= 2 ^ 32 ->
  fm_update cycles m = Ok (tt, m') ->
  exists k, 0 <= k /\
    fm_cycles_count (fm m') = fm_cycles_count (fm m) + k * fm_cycles_ratio (fm m) /\
    is_u32 (fm_cycles_count (fm m')).
Proof.
  intros Hc Hcount Hratio Hsum.
  unfold fm_update, bind, get, modify.
  destruct (Z.ltb_spec (fm_cycles_count (fm m)) cycles) as [Hlt|Hge].
  2:{ intros [= <-]. exists 0. split; [lia|]. split; [lia|assumption]. }
  destruct (Z.eqb_spec (fm_cycles_ratio (fm m)) 0) as [|Hr]; [discriminate|].
  destruct (call_YM_Update _ _ m) as [[[] m1]| |] eqn:H1; try discriminate.
  apply call_YM_Update_frame in H1. destruct H1.
  destruct (_ && _); [|discriminate].
  intros [= <-]. simpl.
  unfold samples_to_run.
  assert (Hr' : 0 < fm_cycles_ratio (fm m)) by (unfold is_u32 in *; lia).
  rewrite samples_owed by (try assumption; unfold is_u32 in *; lia).
  set (owed := ceil_div _ _).
  pose proof (ceil_div_spec (cycles - fm_cycles_count (fm m))
                (fm_cycles_ratio (fm m)) Hr') as Hs.
  pose proof (ceil_div_pos (cycles - fm_cycles_count (fm m))
                (fm_cycles_ratio (fm m)) Hr' ltac:(lia)) as Hp.
  fold owed in Hs, Hp.
  rewrite gf_count0, gf_ratio0, u32_add_r.
  exists owed. split; [lia|].
  rewrite u32_id by (unfold is_u32 in *; nia).
  split; [reflexivity|]. unfold is_u32 in *. nia.
Qed.

Lemma u32_time_step time ratio :
  u32 (s32 (u32 (u32 time + ratio))) = u32 (u32 time + ratio).
Proof. rewrite u32_s32. apply u32_idem. Qed.

(** Entered below the frame length, the walk stops at the first
    timestamp that reaches it: the overshoot is less than one sample. *)
Lemma mix_stops_within_a_sample fuel :
  forall buf ratio cycles preamp ptr prev_l prev_r time ss q l r time',
  is_u32 ratio ->
  u32 time < cycles ->
  mix fuel buf ratio cycles preamp ptr prev_l prev_r time = Ok (ss, (q, l, r, time')) ->
  cycles <= u32 time' < cycles + ratio.
Proof.
  induction fuel as [|fuel IH]; intros * Hr Hlt; [discriminate|].
  simpl.
  destruct (0 <=? ptr); [|discriminate].
  destruct (buf !! Z.to_nat ptr) as [x|]; [|discriminate].
  destruct (0 <=? ptr + 1); [|discriminate].
  destruct (buf !! Z.to_nat (ptr + 1)) as [y|]; [|discriminate].
  rewrite u32_time_step.
  destruct (Z.ltb_spec (u32 (u32 time + ratio)) cycles) as [Hlt'|Hge].
  - destruct (mix fuel _ _ _ _ _ _ _ _) as [[ss' [[[q' l'] r'] t']]| |] eqn:Hm;
      try discriminate.
    intros [= _ _ _ _ <-].
    eapply IH; [exact Hr| |exact Hm]. rewrite u32_time_step. exact Hlt'.
  - intros [= _ _ _ _ <-]. rewrite u32_time_step.
    split; [lia|].
    pose proof (u32_range time) as Ht. unfold is_u32, u32 in *.
    destruct (Z.lt_ge_cases (time mod 2 ^ 32 + ratio) (2 ^ 32)) as [Hs|Hs].
    + rewrite (Z.mod_small (time mod 2 ^ 32 + ratio)) in * by lia. lia.
    + replace ((time mod 2 ^ 32 + ratio) mod 2 ^ 32)
        with (time mod 2 ^ 32 + ratio - 2 ^ 32) in *.
      * lia.
      * apply Z.mod_unique with (q := 1); lia.
Qed.

(** Entered at or beyond the frame length, the walk still makes one
    step of one sample. *)
Lemma mix_single_step fuel buf ratio cycles preamp ptr prev_l prev_r time x y :
  0 <= ptr ->
  buf !! Z.to_nat ptr = Some x -> buf !! Z.to_nat (ptr + 1) = Some y ->
  cycles <= u32 time + ratio < 2 ^ 32 -> 0 <= ratio ->
  mix (S fuel) buf ratio cycles preamp ptr prev_l prev_r time =
    Ok ([ {| at_time := u32 time;
             amp_l := Z.quot (s32 (x * preamp)) 100;
             amp_r := Z.quot (s32 (y * preamp)) 100;
             delta_l := s32 (Z.quot (s32 (x * preamp)) 100 - prev_l);
             delta_r := s32 (Z.quot (s32 (y * preamp)) 100 - prev_r) |} ],
        (ptr + 2, Z.quot (s32 (x * preamp)) 100, Z.quot (s32 (y * preamp)) 100,
         s32 (u32 (u32 time + ratio)))).
Proof.
  intros Hp Hx Hy Hc Hr. simpl.
  replace (0 <=? ptr) with true by (symmetry; apply Z.leb_le; lia).
  rewrite Hx.
  replace (0 <=? ptr + 1) with true by (symmetry; apply Z.leb_le; lia).
  rewrite Hy, u32_time_step.
  pose proof (u32_range time) as Ht.
  rewrite (u32_id (u32 time + ratio)) by (unfold is_u32 in *; lia).
  replace (u32 time + ratio <? cycles) with false
    by (symmetry; apply Z.ltb_ge; lia).
  reflexivity.
Qed.

(** With [n] samples to walk, room to read them and no wrap, the walk
    returns after [n] steps. *)
Lemma mix_returns n : forall fuel buf ratio cycles preamp ptr prev_l prev_r time,
  (1 <= n <= fuel)%nat ->
  0 < ratio ->
  u32 time + (Z.of_nat n - 1) * ratio < cycles <= u32 time + Z.of_nat n * ratio ->
  u32 time + Z.of_nat n * ratio < 2 ^ 32 ->
  0 <= ptr -> ptr + 2 * Z.of_nat n <= Z.of_nat (length buf) ->
  exists ss l r time',
    mix fuel buf ratio cycles preamp ptr prev_l prev_r time
      = Ok (ss, (ptr + 2 * Z.of_nat n, l, r, time')) /\
    length ss = n /\
    u32 time' = u32 time + Z.of_nat n * ratio.
Proof.
  induction n as [|n IH]; intros * Hn Hr Hc Hw Hp Hroom; [lia|].
  destruct fuel as [|fuel]; [lia|].
  destruct (lookup_lt_is_Some_2 buf (Z.to_nat ptr) ltac:(lia)) as [x Hx].
  destruct (lookup_lt_is_Some_2 buf (Z.to_nat (ptr + 1)) ltac:(lia)) as [y Hy].
  pose proof (u32_range time) as Ht. unfold is_u32 in Ht.
  destruct n as [|n].
  - rewrite (mix_single_step fuel buf ratio cycles preamp ptr prev_l prev_r time x y)
      by (try assumption; lia).
    do 4 eexists. split; [reflexivity|]. split; [reflexivity|].
    rewrite u32_time_step. rewrite u32_id by (unfold is_u32; lia). lia.
  - simpl mix.
    replace (0 <=? ptr) with true by (symmetry; apply Z.leb_le; lia).
    rewrite Hx.
    replace (0 <=? ptr + 1) with true by (symmetry; apply Z.leb_le; lia).
    rewrite Hy, u32_time_step.
    assert (Hstep : u32 (u32 time + ratio) = u32 time + ratio)
      by (apply u32_id; unfold is_u32; nia).
    rewrite Hstep.
    replace (u32 time + ratio <? cycles) with true
      by (symmetry; apply Z.ltb_lt; nia).
    edestruct (IH fuel buf ratio cycles preamp (ptr + 2)
                  (Z.quot (s32 (x * preamp)) 100) (Z.quot (s32 (y * preamp)) 100)
                  (s32 (u32 time + ratio)))
      as (ss & l & r & t' & Hm & Hl & Ht');
      rewrite ?u32_s32, ?Hstep; try lia.
    rewrite Hm. do 4 eexists. split.
    + f_equal. f_equal. f_equal. f_equal. f_equal. lia.
    + split; [simpl; lia|].
      rewrite Ht', u32_s32, Hstep. lia.
Qed.

(** The walk over a stretch of the buffer that holds one value. *)
Lemma mix_level n : forall fuel buf ratio cycles preamp ptr prev_l prev_r time v,
  (1 <= n <= fuel)%nat ->
  0 < ratio ->
  u32 time + (Z.of_nat n - 1) * ratio < cycles <= u32 time + Z.of_nat n * ratio ->
  u32 time + Z.of_nat n * ratio < 2 ^ 32 ->
  0 <= ptr ->
  (forall i, (i < 2 * n)%nat -> buf !! (Z.to_nat ptr + i)%nat = Some v) ->
  let a := Z.quot (s32 (v * preamp)) 100 in
  exists time',
    mix fuel buf ratio cycles preamp ptr prev_l prev_r time
      = Ok (level_walk n ratio a (u32 time) prev_l prev_r,
            (ptr + 2 * Z.of_nat n, a, a, time')) /\
    u32 time' = u32 time + Z.of_nat n * ratio.
Proof.
  induction n as [|n IH]; intros * Hn Hr Hc Hw Hp Hbuf a; [lia|].
  destruct fuel as [|fuel]; [lia|].
  assert (Hx : buf !! Z.to_nat ptr = Some v).
  { rewrite <- (Hbuf 0%nat) by lia. f_equal. lia. }
  assert (Hy : buf !! Z.to_nat (ptr + 1) = Some v).
  { rewrite <- (Hbuf 1%nat) by lia. f_equal. lia. }
  pose proof (u32_range time) as Ht. unfold is_u32 in Ht.
  destruct n as [|n].
  - rewrite (mix_single_step fuel buf ratio cycles preamp ptr prev_l prev_r time v v)
      by (try assumption; lia).
    eexists. split; [reflexivity|].
    rewrite u32_time_step. rewrite u32_id by (unfold is_u32; lia). lia.
  - simpl mix.
    replace (0 <=? ptr) with true by (symmetry; apply Z.leb_le; lia).
    rewrite Hx.
    replace (0 <=? ptr + 1) with true by (symmetry; apply Z.leb_le; lia).
    rewrite Hy, u32_time_step.
    assert (Hstep : u32 (u32 time + ratio) = u32 time + ratio)
      by (apply u32_id; unfold is_u32; nia).
    rewrite Hstep.
    replace (u32 time + ratio <? cycles) with true
      by (symmetry; apply Z.ltb_lt; nia).
    edestruct (IH fuel buf ratio cycles preamp (ptr + 2) a a
                  (s32 (u32 time + ratio)) v)
      as (t' & Hm & Ht');
      rewrite ?u32_s32, ?Hstep; try lia.
    { intros i Hi. rewrite <- (Hbuf (i + 2)%nat) by lia. f_equal. lia. }
    fold a. rewrite Hm. eexists. split.
    + rewrite u32_s32, Hstep.
      change (level_walk (S (S n)) ratio a (u32 time) prev_l prev_r)
        with ({| at_time := u32 time; amp_l := a; amp_r := a;
                 delta_l := s32 (a - prev_l); delta_r := s32 (a - prev_r) |}
              :: level_walk (S n) ratio a (u32 time + ratio) a a).
      f_equal. f_equal. f_equal. f_equal. f_equal. lia.
    + rewrite Ht', u32_s32, Hstep. lia.
Qed.

End Residual.

Section MixerContract.
Context `{P : Platform} `{E : Collaborators}.

Lemma finish_counters cycles prev_l prev_r time m :
  fm_cycles_start (fm (snd (finish cycles prev_l prev_r time m)))
    = u32 (u32 time - cycles) /\
  fm_cycles_count (fm (snd (finish cycles prev_l prev_r time m)))
    = u32 (u32 time - cycles) /\
  fm_ptr (fm (snd (finish cycles prev_l prev_r time m))) = 0 /\
  fm_last (fm (snd (finish cycles prev_l prev_r time m))) = (prev_l, prev_r) /\
  fm_cycles_ratio (fm (snd (finish cycles prev_l prev_r time m)))
    = fm_cycles_ratio (fm m) /\
  blips0 (snd (finish cycles prev_l prev_r time m))
    = blip_end_frame cycles (blips0 m).
Proof. repeat split. Qed.

(** Whatever the state, a frame that returns leaves both counters at the
    same value, one in [uint32] range, and the ratio as it was. *)
Lemma sound_update_counters fuel cycles m n m' :
  sound_update fuel cycles m = Ok (n, m') ->
  fm_cycles_count (fm m') = fm_cycles_start (fm m') /\
  is_u32 (fm_cycles_start (fm m')) /\
  fm_cycles_ratio (fm m') = fm_cycles_ratio (fm m).
Proof.
  rewrite sound_update_run.
  destruct (fm_update cycles _) as [[[] m1]| |] eqn:H1; try discriminate.
  apply fm_update_frame in H1.
  destruct (mix fuel _ _ _ _ _ _ _ _) as [[ss [[[q l] r] t]]| |]; try discriminate.
  intros [= _ <-]. simpl. split; [reflexivity|]. split; [apply u32_range|].
  apply (sf_ratio _ _ H1).
Qed.

(** The frame entered with the target covered and no wrap ahead: the
    body of the loop runs once, on the pair at the start of the buffer. *)
Lemma sound_update_covered fuel cycles m x y :
  is_u32 (fm_cycles_start (fm m)) -> 0 <= fm_cycles_ratio (fm m) ->
  cycles <= fm_cycles_count (fm m) ->
  cycles <= fm_cycles_start (fm m) ->
  fm_cycles_start (fm m) + fm_cycles_ratio (fm m) < 2 ^ 32 ->
  fm_buffer (fm m) !! 0%nat = Some x ->
  fm_buffer (fm m) !! 1%nat = Some y ->
  let l := Z.quot (s32 (x * config_fm_preamp (config m))) 100 in
  let r := Z.quot (s32 (y * config_fm_preamp (config m))) 100 in
  let m0 := set_blips0 (snd (psg_end_frame cycles (psg m) (blips0 m)))
              (set_psg (fst (psg_end_frame cycles (psg m) (blips0 m))) m) in
  sound_update (S fuel) cycles m =
    Ok (finish cycles l r
          (s32 (u32 (u32 (s32 (fm_cycles_start (fm m))) + fm_cycles_ratio (fm m))))
          (set_blips0
             (entry_point m (fm_cycles_start (fm m))
                (s32 (l - fst (fm_last (fm m)))) (s32 (r - snd (fm_last (fm m))))
                (blips0 m0)) m0)).
Proof.
  intros Hs Hr Hc Hcs Hw Hx Hy l r m0.
  rewrite sound_update_run. fold m0.
  rewrite (fm_update_covered cycles m0) by exact Hc.
  assert (Ht : u32 (s32 (fm_cycles_start (fm m))) = fm_cycles_start (fm m))
    by (rewrite u32_s32; apply u32_id; assumption).
  change (fm_buffer (fm m0)) with (fm_buffer (fm m)).
  change (fm_cycles_ratio (fm m0)) with (fm_cycles_ratio (fm m)).
  change (fm_cycles_start (fm m0)) with (fm_cycles_start (fm m)).
  change (config m0) with (config m).
  change (fm_last (fm m0)) with (fm_last (fm m)).
  rewrite (mix_single_step fuel (fm_buffer (fm m)) (fm_cycles_ratio (fm m)) cycles
             (config_fm_preamp (config m)) 0 _ _ _ x y);
    try assumption; try lia.
  unfold submit. simpl. rewrite Ht. reflexivity.
Qed.

(** C7: a frame entered with [fm_cycles_start < cycles] leaves, in both
    counters, a residual in [[0, fm_cycles_ratio)], and it does return
    when the clock ratio is set, [cycles + ratio] fits 32 bits and the
    frame's samples fit the buffer; a residual of [fm_cycles_ratio] or
    more only comes from a frame entered with [fm_cycles_start >= cycles],
    where the loop still steps the timestamp by one ratio. *)
Theorem sound_update_residual cycles m :
  is_u32 cycles -> wf_fm m ->
  let ratio := fm_cycles_ratio (fm m) in
  let start := fm_cycles_start (fm m) in
  let count := fm_cycles_count (fm m) in
  (forall fuel n m',
      sound_update fuel cycles m = Ok (n, m') ->
      fm_cycles_count (fm m') = fm_cycles_start (fm m') /\
      (start < cycles -> 0 <= fm_cycles_start (fm m') < ratio) /\
      (ratio <= fm_cycles_start (fm m') -> cycles <= start)) /\
  (start < cycles ->
   wf_nuked m -> YM_Update (ym m) <> None -> 0 < ratio ->
   cycles + ratio <= 2 ^ 32 ->
   (count < cycles -> fm_ptr (fm m) + 2 * ceil_div (cycles - count) ratio
                      <= FM_BUFFER_LEN) ->
   2 * ceil_div (cycles - start) ratio <= FM_BUFFER_LEN ->
   exists fuel n m', sound_update fuel cycles m = Ok (n, m')) /\
  (cycles <= start -> cycles <= count -> start + ratio < 2 ^ 32 ->
   exists n m',
     sound_update 1 cycles m = Ok (n, m') /\
     fm_cycles_start (fm m') = start + ratio - cycles /\
     ratio <= fm_cycles_start (fm m')).
Proof.
  intros Hc Hw ratio start count.
  pose proof (wf_start _ Hw) as Hstart. pose proof (wf_ratio _ Hw) as Hratio.
  pose proof (wf_count _ Hw) as Hcount. pose proof (wf_buffer _ Hw) as Hlen.
  pose proof FM_BUFFER_LEN_bounds as HB.
  assert (Hpart : forall fuel n m',
      sound_update fuel cycles m = Ok (n, m') ->
      fm_cycles_count (fm m') = fm_cycles_start (fm m') /\
      (start < cycles -> 0 <= fm_cycles_start (fm m') < ratio)).
  { intros fuel n m' Hrun.
    split; [apply (sound_update_counters _ _ _ _ _ Hrun)|].
    intros Hlt. revert Hrun. rewrite sound_update_run.
    destruct (fm_update cycles _) as [[[] m1]| |] eqn:H1; try discriminate.
    apply fm_update_frame in H1. simpl in H1.
    destruct (mix fuel _ _ _ _ _ _ _ _) as [[ss [[[q l] r] t]]| |] eqn:Hm;
      try discriminate.
    intros [= _ <-]. simpl.
    apply mix_stops_within_a_sample in Hm.
    - rewrite (sf_ratio _ _ H1) in Hm. simpl in Hm. fold ratio in Hm.
      rewrite u32_id by (unfold is_u32 in *; lia). lia.
    - rewrite (sf_ratio _ _ H1). exact Hratio.
    - rewrite u32_s32, (sf_start _ _ H1). simpl.
      rewrite u32_id by exact Hstart. exact Hlt. }
  split; [|split].
  - intros fuel n m' Hrun. destruct (Hpart fuel n m' Hrun) as [H1 H2].
    split; [exact H1|]. split; [exact H2|].
    intros Hge. destruct (Z.lt_ge_cases start cycles) as [Hlt|]; [|assumption].
    specialize (H2 Hlt). lia.
  - intros Hlt Hn Hy Hr Hsum Hroom1 Hroom2.
    set (m0 := set_blips0 (snd (psg_end_frame cycles (psg m) (blips0 m)))
                 (set_psg (fst (psg_end_frame cycles (psg m) (blips0 m))) m)).
    assert (Hrun1 : exists m1, fm_update cycles m0 = Ok (tt, m1)).
    { destruct (Z.lt_ge_cases count cycles) as [Hlt'|Hge].
      - assert (Hw0 : wf_fm m0) by (destruct Hw; constructor; assumption).
        assert (Hn0 : wf_nuked m0) by (destruct Hn; constructor; assumption).
        destruct (fm_update_owed cycles m0 Hc Hw0 Hn0 Hy Hr Hlt')
          as (m1 & _ & _ & H2).
        + unfold is_u32 in *. simpl. fold count ratio. lia.
        + simpl. fold count ratio. auto.
        + eauto.
      - exists m0. apply fm_update_covered. exact Hge. }
    destruct Hrun1 as (m1 & H1).
    pose proof (fm_update_frame _ _ _ H1) as F. simpl in F.
    set (k := ceil_div (cycles - start) ratio) in *.
    pose proof (ceil_div_spec (cycles - start) ratio Hr) as Hk. fold k in Hk.
    pose proof (ceil_div_pos (cycles - start) ratio Hr ltac:(lia)) as Hkp. fold k in Hkp.
    assert (Ht : u32 (s32 (fm_cycles_start (fm m1))) = start).
    { rewrite u32_s32, (sf_start _ _ F). simpl. apply u32_id. exact Hstart. }
    destruct (mix_returns (Z.to_nat k) (Z.to_nat k) (fm_buffer (fm m1))
                (fm_cycles_ratio (fm m1)) cycles (config_fm_preamp (config m1)) 0
                (fst (fm_last (fm m1))) (snd (fm_last (fm m1)))
                (s32 (fm_cycles_start (fm m1))))
      as (ss & l & r & t' & Hm & _);
      rewrite ?Ht, ?(sf_ratio _ _ F), ?(sf_len _ _ F), ?Z2Nat.id; simpl;
      fold ratio; try lia.
    exists (Z.to_nat k). rewrite sound_update_run. fold m0. rewrite H1, Hm.
    do 2 eexists. reflexivity.
  - intros Hge Hgc Hnw.
    destruct (lookup_lt_is_Some_2 (fm_buffer (fm m)) 0%nat ltac:(lia)) as [x Hx].
    destruct (lookup_lt_is_Some_2 (fm_buffer (fm m)) 1%nat ltac:(lia)) as [y Hy].
    rewrite (sound_update_covered 0 cycles m x y);
      try assumption; try (unfold is_u32 in *; lia).
    unfold finish. do 2 eexists. split; [reflexivity|].
    simpl. fold start ratio.
    rewrite u32_time_step, u32_s32, (u32_id start) by exact Hstart.
    rewrite (u32_id (start + ratio)) by (unfold is_u32 in *; lia).
    rewrite u32_id by (unfold is_u32 in *; lia).
    unfold is_u32 in *. lia.
Qed.

End MixerContract.

Section Session.
Context `{P : Platform} `{E : Collaborators}.

(** C4 (as amended): on an empty buffer with the target covered and no
    wrap ahead, [sound_update] still runs the body of its loop once: it
    submits one delta, at timestamp [fm_cycles_start], of the amplified
    pair found at the start of the buffer against the carry, makes that
    pair the new carry, resets the pointer and sets both counters to
    [fm_cycles_start + fm_cycles_ratio - cycles]. *)
Theorem sound_update_empty_buffer fuel cycles m :
  is_u32 cycles -> wf_fm m ->
  fm_ptr (fm m) = 0 ->
  fm_cycles_count (fm m) = fm_cycles_start (fm m) ->
  cycles <= fm_cycles_count (fm m) ->
  fm_cycles_start (fm m) + fm_cycles_ratio (fm m) < 2 ^ 32 ->
  exists x y n m',
    fm_buffer (fm m) !! 0%nat = Some x /\
    fm_buffer (fm m) !! 1%nat = Some y /\
    sound_update (S fuel) cycles m = Ok (n, m') /\
    let l := Z.quot (s32 (x * config_fm_preamp (config m))) 100 in
    let r := Z.quot (s32 (y * config_fm_preamp (config m))) 100 in
    blips0 m' =
      blip_end_frame cycles
        (entry_point m (fm_cycles_start (fm m))
           (s32 (l - fst (fm_last (fm m)))) (s32 (r - snd (fm_last (fm m))))
           (snd (psg_end_frame cycles (psg m) (blips0 m)))) /\
    fm_last (fm m') = (l, r) /\
    fm_ptr (fm m') = 0 /\
    fm_cycles_start (fm m') = fm_cycles_start (fm m) + fm_cycles_ratio (fm m) - cycles /\
    fm_cycles_count (fm m') = fm_cycles_start (fm m').
Proof.
  intros Hcu Hw Hptr Heq Hc Hnw.
  pose proof (wf_start _ Hw) as Hstart. pose proof (wf_ratio _ Hw) as Hratio.
  pose proof (wf_buffer _ Hw) as Hlen. pose proof FM_BUFFER_LEN_bounds as HB.
  destruct (lookup_lt_is_Some_2 (fm_buffer (fm m)) 0%nat ltac:(lia)) as [x Hx].
  destruct (lookup_lt_is_Some_2 (fm_buffer (fm m)) 1%nat ltac:(lia)) as [y Hy].
  exists x, y.
  rewrite (sound_update_covered fuel cycles m x y);
    try assumption; try (unfold is_u32 in *; lia).
  unfold finish. do 2 eexists.
  split; [exact Hx|]. split; [exact Hy|]. split; [reflexivity|].
  simpl. repeat split.
  rewrite u32_time_step, u32_s32, (u32_id (fm_cycles_start (fm m))) by exact Hstart.
  rewrite (u32_id (_ + _)) by (unfold is_u32 in *; lia).
  apply u32_id. unfold is_u32 in *. lia.
Qed.

(** The register calls leave the scheduler's variables alone. *)
Lemma call_YM_Reset_fm m m' : call_YM_Reset m = Ok (tt, m') -> fm m' = fm m.
Proof.
  unfold call_YM_Reset, bind, get, modify, YM3438_Reset, modify.
  destruct (YM_Reset (ym m)) as [[| |]|]; try discriminate;
    intros [= <-]; reflexivity.
Qed.

Lemma call_YM_Write_fm a v m m' : call_YM_Write a v m = Ok (tt, m') -> fm m' = fm m.
Proof.
  unfold call_YM_Write, bind, get, modify, YM3438_Write, modify.
  destruct (YM_Write (ym m)) as [[| |]|]; try discriminate;
    intros [= <-]; reflexivity.
Qed.

Lemma call_YM_Read_fm a m r m' : call_YM_Read a m = Ok (r, m') -> fm m' = fm m.
Proof.
  unfold call_YM_Read, bind, get, modify, YM3438_Read, bind, get, modify, ret.
  destruct (YM_Read (ym m)) as [[| |]|]; try discriminate.
  - destruct (OPN2_Read a _). intros [= _ <-]. reflexivity.
  - destruct (YM2612Read a _). intros [= _ <-]. reflexivity.
Qed.

(** A synchronising operation is [fm_update] followed by a call that
    leaves the scheduler alone. *)
Lemma synchronises_fm_update op m m' :
  synchronises op = true -> perform op m = Ok (tt, m') ->
  exists cycles m1,
    (forall ratio, target_fits ratio op ->
                   is_u32 cycles /\ cycles + ratio <= 2 ^ 32) /\
    fm_update cycles m = Ok (tt, m1) /\ fm m' = fm m1.
Proof.
  destruct op as [c|c|c a v|c a|f c|st]; try discriminate; intros _; simpl.
  - intros H. exists c, m'. auto.
  - unfold fm_reset, bind.
    destruct (fm_update c m) as [[[] m1]| |] eqn:H1; try discriminate.
    intros H. exists c, m1. split; [auto|]. split; [exact H1|].
    eapply call_YM_Reset_fm; eassumption.
  - unfold fm_write, bind.
    destruct (fm_update c m) as [[[] m1]| |] eqn:H1; try discriminate.
    intros H. exists c, m1. split; [auto|]. split; [exact H1|].
    eapply call_YM_Write_fm; eassumption.
  - unfold fm_read, bind.
    destruct (fm_update c m) as [[[] m1]| |] eqn:H1; try discriminate.
    destruct (call_YM_Read a m1) as [[r m2]| |] eqn:H2; try discriminate.
    intros [= <-]. exists c, m1. split; [auto|]. split; [exact H1|].
    eapply call_YM_Read_fm; eassumption.
Qed.

Lemma sound_context_load_counters state m n m' :
  sound_context_load state m = Ok (n, m') ->
  fm_cycles_count (fm m') = fm_cycles_start (fm m') /\
  is_u32 (fm_cycles_start (fm m')) /\
  fm_cycles_ratio (fm m') = fm_cycles_ratio (fm m).
Proof.
  unfold sound_context_load, bind at 1, get at 1, bind at 1.
  match goal with
  | |- match ?c m with _ => _ end = _ -> _ =>
      assert (Hc : forall b m1, c m = Ok (b, m1) -> fm m1 = fm m);
      [|destruct (c m) as [[b m1]| |] eqn:H1; try discriminate;
        specialize (Hc _ _ eq_refl)]
  end.
  { intros b m1.
    destruct (Z.land (system_hw m) SYSTEM_PBC =? SYSTEM_MD);
      [destruct HAVE_YM3438_CORE|].
    - simpl. destruct (negb _).
      + unfold bind, modify, ret. intros [= _ <-]. reflexivity.
      + destruct (YM2612LoadContext _ _). unfold bind, modify, ret.
        intros [= _ <-]. reflexivity.
    - destruct (YM2612LoadContext _ _). unfold bind, modify, ret.
      intros [= _ <-]. reflexivity.
    - simpl. unfold bind, modify, ret. intros [= _ <-]. reflexivity. }
  unfold bind, get, modify, ret.
  destruct (psg_context_load _ _). simpl.
  intros [= _ <-]. simpl. rewrite Hc.
  split; [reflexivity|]. split; [apply u32_range|reflexivity].
Qed.



Lemma sound_reset_counters m0 m :
  sound_reset m0 = Ok (tt, m) ->
  fm_cycles_start (fm m) = 0 /\ fm_cycles_count (fm m) = 0 /\
  fm_ptr (fm m) = 0 /\ fm_last (fm m) = (0, 0) /\
  fm_cycles_ratio (fm m) = fm_cycles_ratio (fm m0).
Proof.
  unfold sound_reset, bind.
  destruct (call_YM_Reset m0) as [[[] m1]| |] eqn:H1; try discriminate.
  apply call_YM_Reset_fm in H1.
  unfold modify. intros [= <-]. simpl. rewrite H1. repeat split.
Qed.


Lemma u32_add_congr a b c : u32 a = u32 b -> u32 (a + c) = u32 (b + c).
Proof. intros H. rewrite <- (u32_add_l a), <- (u32_add_l b), H. reflexivity. Qed.

Lemma u32_sub_congr a b c : u32 a = u32 b -> u32 (a - c) = u32 (b - c).
Proof. intros H. rewrite <- (u32_sub_l a), <- (u32_sub_l b), H. reflexivity. Qed.

(** The timestamp the walk ends with is the one it started with, moved
    on by one ratio per submission, in 32-bit arithmetic. *)
Lemma mix_end_time fuel :
  forall buf ratio cycles preamp ptr prev_l prev_r time ss q l r time',
  mix fuel buf ratio cycles preamp ptr prev_l prev_r time = Ok (ss, (q, l, r, time')) ->
  u32 time' = u32 (time + Z.of_nat (length ss) * ratio).
Proof.
  induction fuel as [|fuel IH];
    intros buf ratio cycles preamp ptr prev_l prev_r time ss q l r time';
    [discriminate|].
  simpl mix.
  destruct (0 <=? ptr); [|discriminate].
  destruct (buf !! Z.to_nat ptr) as [x|]; [|discriminate].
  destruct (0 <=? ptr + 1); [|discriminate].
  destruct (buf !! Z.to_nat (ptr + 1)) as [y|]; [|discriminate].
  destruct (_ <? _).
  - destruct (mix fuel _ _ _ _ _ _ _ _) as [[ss' [[[q' l'] r'] t']]| |] eqn:Hm;
      try discriminate.
    intros [= <- <- <- <- <-]. apply IH in Hm. rewrite Hm.
    simpl length. rewrite Nat2Z.inj_succ.
    rewrite (u32_add_congr _ (time + ratio))
      by (rewrite u32_time_step; apply u32_add_l).
    f_equal. lia.
  - intros [= <- <- <- <- <-]. simpl length.
    rewrite u32_time_step, u32_add_l. f_equal. lia.
Qed.

(** The value a frame end leaves in both counters: the timestamp past
    the last submission, less the frame length. *)
Lemma sound_update_residual_value fuel cycles m n m' :
  sound_update fuel cycles m = Ok (n, m') ->
  exists ss,
    frame_submissions fuel cycles m = Ok ss /\
    fm_cycles_start (fm m')
      = u32 (fm_cycles_start (fm m)
             + Z.of_nat (length ss) * fm_cycles_ratio (fm m) - cycles).
Proof.
  rewrite sound_update_run. unfold frame_submissions.
  destruct (fm_update cycles _) as [[[] m1]| |] eqn:H1; try discriminate.
  apply fm_update_frame in H1. simpl in H1.
  destruct (mix fuel _ _ _ _ _ _ _ _) as [[ss [[[q l] r] t]]| |] eqn:Hm;
    try discriminate.
  intros [= _ <-]. exists ss. split; [reflexivity|]. simpl.
  apply mix_end_time in Hm.
  rewrite (sf_ratio _ _ H1), (sf_start _ _ H1) in Hm. simpl in Hm.
  apply u32_sub_congr. rewrite u32_idem, Hm.
  apply u32_add_congr, u32_s32.
Qed.

(** The value a load leaves in [fm_cycles_start]: the last 4 bytes it
    consumes. *)
Lemma sound_context_load_value state m n m' :
  sound_context_load state m = Ok (n, m') ->
  fm_cycles_start (fm m') = Mem.u32_of_image (Mem.read state (n - 4) 4).
Proof.
  unfold sound_context_load, bind, get, modify, ret, Mem.load_param.
  destruct (Z.land (system_hw m) SYSTEM_PBC =? SYSTEM_MD);
    [destruct HAVE_YM3438_CORE;
     [destruct (negb (Mem.u8_of_image (Mem.read state 0 1) =? 0))|]|];
    cbv beta iota zeta;
    try (destruct (YM2612LoadContext _ _) as [chip k]);
    cbv beta iota zeta;
    destruct (psg_context_load _ _) as [p j];
    intros [= <- <-]; simpl; f_equal; f_equal; lia.
Qed.

(** C10 (as amended): a synchronising call ([fm_update], [fm_reset],
    [fm_write], [fm_read]) with [cycles + fm_cycles_ratio <= 2^32] leaves
    [fm_cycles_start] as it is and never lowers [fm_cycles_count].  A
    frame end or a load replaces both counters by one value: the frame
    end by the residual of the frame, which is
    [fm_cycles_start + k * fm_cycles_ratio - cycles] in 32-bit arithmetic
    for the [k] deltas the frame submits; the load by the counter saved
    in the last 4 bytes of the state it consumes. *)
Theorem counters_between_frames op m m' :
  is_u32 (fm_cycles_ratio (fm m)) -> is_u32 (fm_cycles_count (fm m)) ->
  target_fits (fm_cycles_ratio (fm m)) op ->
  perform op m = Ok (tt, m') ->
  if synchronises op
  then fm_cycles_start (fm m') = fm_cycles_start (fm m) /\
       fm_cycles_count (fm m) <= fm_cycles_count (fm m')
  else fm_cycles_count (fm m') = fm_cycles_start (fm m') /\
       match op with
       | Op_sound_update fuel cycles =>
           exists ss,
             frame_submissions fuel cycles m = Ok ss /\
             fm_cycles_start (fm m')
               = u32 (fm_cycles_start (fm m)
                      + Z.of_nat (length ss) * fm_cycles_ratio (fm m) - cycles)
       | Op_sound_context_load state =>
           exists n,
             sound_context_load state m = Ok (n, m') /\
             fm_cycles_start (fm m')
               = Mem.u32_of_image (Mem.read state (n - 4) 4)
       | _ => True
       end.
Proof.
  intros Hr Hcount Hfit Hrun.
  destruct (synchronises op) eqn:Hs.
  - destruct (synchronises_fm_update op m m' Hs Hrun) as (c & m1 & Hc & H1 & Hfm).
    destruct (Hc _ Hfit) as [Hcu Hsum].
    destruct (fm_update_count c m m1 Hcu Hcount Hr Hsum H1) as (j & Hj & Hcnt & _).
    apply fm_update_frame in H1. rewrite Hfm, Hcnt, (sf_start _ _ H1).
    unfold is_u32 in *. split; [reflexivity|nia].
  - destruct op as [c|c|c a v|c a|f c|st]; try discriminate; simpl in Hrun;
      unfold bind, ret in Hrun.
    + destruct (sound_update f c m) as [[n m1]| |] eqn:H1; try discriminate.
      injection Hrun as <-.
      split; [apply (sound_update_counters _ _ _ _ _ H1)|].
      apply (sound_update_residual_value _ _ _ _ _ H1).
    + destruct (sound_context_load st m) as [[n m1]| |] eqn:H1; try discriminate.
      injection Hrun as <-.
      split; [apply (sound_context_load_counters _ _ _ _ H1)|].
      exists n. split; [reflexivity|].
      apply (sound_context_load_value _ _ _ _ H1).
Qed.

End Session.

(** ** The two mixing modes *)

Section Modes.
Context `{P : Platform} `{E : Collaborators}.








End Modes.

(** ** Save states *)

Module MemFacts.
Import Mem.

Lemma map_nth_seq (l : list Z) : map (fun i => nth i l 0) (seq 0 (length l)) = l.
Proof.
  induction l as [|a l IH]; [reflexivity|].
  simpl. f_equal. rewrite <- seq_shift, map_map. exact IH.
Qed.

Lemma read_write_same m off bytes :
  read (write m off bytes) off (length bytes) = bytes.
Proof.
  unfold read, write.
  transitivity (map (fun i => nth i bytes 0) (seq 0 (length bytes)));
    [|apply map_nth_seq].
  apply map_ext_in. intros i Hi. apply in_seq in Hi.
  replace ((off <=? off + Z.of_nat i)
           && (off + Z.of_nat i <? off + Z.of_nat (length bytes)))
    with true by (symmetry; rewrite andb_true_iff, Z.leb_le, Z.ltb_lt; lia).
  f_equal. lia.
Qed.



Lemma length_read m off n : length (read m off n) = n.
Proof. unfold read. rewrite length_map, length_seq. reflexivity. Qed.


Section Host.
Context `{P : Platform}.

Lemma length_image32 x : length (image32 x) = 4%nat.
Proof. unfold image32. destruct big_endian; reflexivity. Qed.








End Host.

End MemFacts.

(** ** Backend selection *)

Section Selection.
Context `{P : Platform} `{E : Collaborators}.

(** C9 (as amended): [sound_init] always succeeds; from the hardware
    class and the preference flag it selects one core with its clock
    ratio (42, 1008 or 1080), binds that core's reset, update and write
    entry points and its read entry point (NULL for the YM2413, which
    has none), initialises the chip ([memset] for the Nuked core,
    [YM2612Init] and [YM2612Config], [YM2413Init]) and the PSG
    ([psg_init]) and leaves the scheduler's variables alone.  It calls
    no reset entry point: [sound_reset], run next, is what resets the
    selected chip and the PSG. *)
Theorem sound_init_selects m :
  exists m',
    sound_init m = Ok (tt, m') /\
    fm_cycles_ratio (fm m') = core_ratio (selected_core m) /\
    ym m' = core_ptrs (selected_core m) /\
    core_is_initialised (selected_core m) m m' /\
    psg m' = psg_init (if system_hw m =? SYSTEM_SG then PSG_DISCRETE
                       else PSG_INTEGRATED) (psg m) /\
    fm_cycles_start (fm m') = fm_cycles_start (fm m) /\
    fm_cycles_count (fm m') = fm_cycles_count (fm m) /\
    fm_ptr (fm m') = fm_ptr (fm m) /\
    fm_last (fm m') = fm_last (fm m) /\
    exists m'',
      sound_reset m' = Ok (tt, m'') /\
      core_is_reset (selected_core m) m'' /\
      psg m'' = psg_config 0 (config_psg_preamp (config m)) 255 (psg_reset (psg m')).
Proof.
  unfold sound_init, selected_core, bind, get, modify.
  destruct (Z.land (system_hw m) SYSTEM_PBC =? SYSTEM_MD);
    [destruct (HAVE_YM3438_CORE && negb (config_ym3438 (config m) =? 0))|];
    simpl; eexists; (split; [reflexivity|]); simpl;
    repeat (split; [reflexivity|]);
    eexists; (split; [reflexivity|]); simpl; (split; [|reflexivity]);
    eexists; reflexivity.
Qed.

End Selection.

Section Persistence.
Context `{P : Platform} `{E : Collaborators}.
Import Mem MemFacts.

Lemma read_written m off bytes n :
  n = length bytes -> read (write m off bytes) off n = bytes.
Proof. intros ->. apply read_write_same. Qed.

Lemma firstn_exact (n : nat) (l : list Z) : length l = n -> firstn n l = l.
Proof. intros <-. apply firstn_all. Qed.






Context `{F : !Faithful}.



End Persistence.

(** ** The concrete scenario *)

Section Scenario.
Context `{P : Platform} `{E : Collaborators}.

Lemma generated_lookup out len i :
  (i < 2 * Z.to_nat len)%nat -> generated out len !! i = Some (out i).
Proof.
  intros Hi. unfold generated.
  rewrite list_lookup_fmap, lookup_seq_lt by exact Hi. reflexivity.
Qed.

(** C5: with a clock ratio of 1008, from the reset state (counters,
    pointer and carry zero), amplification at 100 percent and a YM2612
    generator that stores 100 in every slot, [sound_update 50000] asks
    for exactly 50 samples, hands the resampler a delta of 100 at
    timestamp 0 on each channel and then deltas of 0 one ratio apart,
    and leaves [50 * 1008 - 50000 = 400] in both counters. *)
Theorem constant_level_frame m :
  wf_fm m ->
  YM_Update (ym m) = Some YM2612 ->
  (forall i, snd (YM2612Update 50 (ym2612 m)) i = 100) ->
  fm_cycles_ratio (fm m) = 1008 ->
  fm_cycles_start (fm m) = 0 -> fm_cycles_count (fm m) = 0 ->
  fm_ptr (fm m) = 0 -> fm_last (fm m) = (0, 0) ->
  config_fm_preamp (config m) = 100 ->
  samples_to_run 50000 m = 50 /\
  exists n m',
    sound_update 50 50000 m = Ok (n, m') /\
    blips0 m' =
      blip_end_frame 50000
        (submit (entry_point m) level_100_frame
           (snd (psg_end_frame 50000 (psg m) (blips0 m)))) /\
    fm_cycles_start (fm m') = 400 /\
    fm_cycles_count (fm m') = 400 /\
    fm_last (fm m') = (100, 100) /\
    fm_ptr (fm m') = 0.
Proof.
  intros Hw Hym Hout Hratio Hstart Hcount Hptr Hlast Hpre.
  pose proof (wf_buffer _ Hw) as Hlen. pose proof FM_BUFFER_LEN_bounds as HB.
  assert (Hs : samples_to_run 50000 m = 50).
  { unfold samples_to_run. rewrite Hcount, Hratio. reflexivity. }
  split; [exact Hs|].
  rewrite sound_update_run.
  set (m0 := set_blips0 _ _).
  unfold fm_update, bind, get.
  change (fm_cycles_count (fm m0)) with (fm_cycles_count (fm m)).
  change (fm_cycles_ratio (fm m0)) with (fm_cycles_ratio (fm m)).
  change (samples_to_run 50000 m0) with (samples_to_run 50000 m).
  change (fm_ptr (fm m0)) with (fm_ptr (fm m)).
  rewrite Hcount, Hratio, Hs, Hptr.
  change (0 <? 50000) with true. change (1008 =? 0) with false.
  change (s32 50) with 50. cbv iota.
  unfold call_YM_Update, bind, get.
  change (ym m0) with (ym m). rewrite Hym.
  change (ym2612 m0) with (ym2612 m).
  destruct (YM2612Update 50 (ym2612 m)) as [chip out] eqn:Hup.
  assert (Hout' : forall i, out i = 100) by (intros i; apply (Hout i)).
  unfold modify at 1. unfold store_fm_block.
  cbn [fm fm_buffer set_ym2612 set_fm].
  change (fm_buffer (fm m0)) with (fm_buffer (fm m)).
  rewrite length_generated.
  replace ((0 <=? 0) && (0 + Z.of_nat (2 * Z.to_nat 50) <=? Z.of_nat (length (fm_buffer (fm m)))))
    with true by (symmetry; rewrite andb_true_iff, !Z.leb_le; lia).
  cbn [fm fm_buffer fm_ptr set_fm_buffer set_fm].
  rewrite length_inserts.
  change (fm_ptr (fm (set_ym2612 chip m0))) with (fm_ptr (fm m)). rewrite Hptr.
  change (u32 (Z.shiftl 50 1)) with 100.
  replace ((0 <=? 0 + 100) && (0 + 100 <=? Z.of_nat (length (fm_buffer (fm m)))))
    with true by (symmetry; rewrite andb_true_iff, !Z.leb_le; lia).
  unfold modify.
  set (buf := list_inserts (Z.to_nat 0) (generated out 50) (fm_buffer (fm m))).
  set (m1 := set_fm_cycles_count _ _).
  change (fm_buffer (fm m1)) with buf.
  change (fm_cycles_ratio (fm m1)) with (fm_cycles_ratio (fm m)).
  change (config m1) with (config m).
  change (fm_last (fm m1)) with (fm_last (fm m)).
  change (fm_cycles_start (fm m1)) with (fm_cycles_start (fm m)).
  change (blips0 m1) with (blips0 m0).
  change (entry_point m1) with (entry_point m).
  rewrite Hratio, Hpre, Hlast, Hstart.
  destruct (mix_level 50 50 buf 1008 50000 100 0 0 0 (s32 0) 100)
    as (t' & Hm & Ht'); [lia|lia| | | lia| |].
  { change (u32 (s32 0)) with 0. lia. }
  { change (u32 (s32 0)) with 0. lia. }
  { intros i Hi. subst buf. change (Z.to_nat 0 + i)%nat with i.
    assert (Hg : length (generated out 50) = 100%nat) by apply length_generated.
    rewrite list_lookup_inserts by (rewrite ?Hg; simpl; lia).
    rewrite Nat.sub_0_r, generated_lookup by (simpl; lia). f_equal. apply Hout'. }
  change (fst (0, 0)) with 0. change (snd (0, 0)) with 0.
  rewrite Hm.
  change (Z.quot (s32 (100 * 100)) 100) with 100.
  unfold finish. do 2 eexists. split; [reflexivity|].
  cbn [fm fm_ptr fm_last fm_cycles_start fm_cycles_count blips0
       set_fm_ptr set_fm_last set_fm_cycles_start set_fm_cycles_count set_fm set_blips0].
  rewrite Ht'. change (u32 (s32 0)) with 0.
  repeat split.
Qed.
End Scenario.

(** ** The Nuked OPN2 wrapper *)

Section NukedWrapper.
Context `{P : Platform} `{E : Collaborators}.
Local Open Scope sound_scope.

Lemma store_fm_buffer_inv off v m m' :
  store_fm_buffer off v m = Ok (tt, m') ->
  0 <= off < Z.of_nat (length (fm_buffer (fm m))) /\
  m' = set_fm_buffer (<[Z.to_nat off := v]> (fm_buffer (fm m))) m.
Proof.
  unfold store_fm_buffer. destruct (_ && _) eqn:H; [|discriminate].
  rewrite andb_true_iff, Z.leb_le, Z.ltb_lt in H. intros [= <-]. auto.
Qed.

(** One iteration that returns had room for its pair, and is this. *)
Lemma YM3438_Update_step_inv buffer m m' :
  wf_nuked m -> 0 <= buffer ->
  YM3438_Update_step buffer m = Ok (tt, m') ->
  let nk := nuked m in
  let c := ym3438_cycles nk in
  let accm := <[Z.to_nat c := snd (OPN2_Clock (ym3438 nk))]> (ym3438_accm nk) in
  let c' := (c + 1) mod 24 in
  let sample := if c' =? 0 then accm_sum accm else ym3438_sample nk in
  buffer + 2 <= Z.of_nat (length (fm_buffer (fm m))) /\
  nuked m' = {| ym3438 := fst (OPN2_Clock (ym3438 nk)); ym3438_accm := accm;
                ym3438_sample := sample; ym3438_cycles := c' |} /\
  fm_buffer (fm m') =
    <[Z.to_nat (buffer + 1) := s32 (snd sample * 11)]>
      (<[Z.to_nat buffer := s32 (fst sample * 11)]> (fm_buffer (fm m))).
Proof.
  intros [Ha Hc] Hb. cbv zeta.
  unfold YM3438_Update_step, bind, get, modify.
  replace ((0 <=? ym3438_cycles (nuked m)) && (ym3438_cycles (nuked m) <? 24)
           && (ym3438_cycles (nuked m) <? Z.of_nat (length (ym3438_accm (nuked m)))))
    with true by (symmetry; rewrite !andb_true_iff, Z.leb_le, !Z.ltb_lt; lia).
  rewrite (u32_id (ym3438_cycles (nuked m) + 1)) by (unfold is_u32; lia).
  destruct (OPN2_Clock _) as [chip row]. simpl fst. simpl snd.
  rewrite firstn_all2 by (rewrite length_insert; lia).
  destruct (store_fm_buffer buffer _ _) as [[[] m1]| |] eqn:H1; try discriminate.
  apply store_fm_buffer_inv in H1 as [_ ->].
  intros H2. apply store_fm_buffer_inv in H2 as [H2 ->].
  simpl in H2. rewrite length_insert in H2.
  split; [lia|]. split; reflexivity.
Qed.


Lemma OPN2_clocks_S n chip :
  OPN2_clocks (S n) chip =
    (fst (OPN2_clocks n (fst (OPN2_Clock chip))),
     snd (OPN2_Clock chip) :: snd (OPN2_clocks n (fst (OPN2_Clock chip)))).
Proof.
  simpl. destruct (OPN2_Clock chip) as [c1 row]. simpl.
  destruct (OPN2_clocks n c1). reflexivity.
Qed.

Lemma length_OPN2_clocks n : forall chip, length (snd (OPN2_clocks n chip)) = n.
Proof.
  induction n as [|n IH]; intros chip; [reflexivity|].
  rewrite OPN2_clocks_S. simpl. rewrite IH. reflexivity.
Qed.

Lemma wf_nuked_step m m' c' s a chip :
  wf_nuked m ->
  nuked m' = {| ym3438 := chip;
                ym3438_accm := <[Z.to_nat (ym3438_cycles (nuked m)) := a]>
                                 (ym3438_accm (nuked m));
                ym3438_sample := s; ym3438_cycles := c' mod 24 |} ->
  wf_nuked m'.
Proof.
  intros [Ha Hc] H. constructor; rewrite H; simpl.
  - rewrite length_insert. exact Ha.
  - apply Z.mod_pos_bound. lia.
Qed.

(** What a run of [n] iterations that returns has done to the chip, the
    row index and the buffer outside the [2 * n] slots it fills. *)
Lemma YM3438_Update_loop_inv n : forall buffer m m',
  wf_nuked m -> 0 <= buffer ->
  YM3438_Update_loop n buffer m = Ok (tt, m') ->
  wf_nuked m' /\
  ((0 < n)%nat -> buffer + 2 * Z.of_nat n <= Z.of_nat (length (fm_buffer (fm m)))) /\
  ym3438 (nuked m') = fst (OPN2_clocks n (ym3438 (nuked m))) /\
  ym3438_cycles (nuked m') = (ym3438_cycles (nuked m) + Z.of_nat n) mod 24 /\
  length (fm_buffer (fm m')) = length (fm_buffer (fm m)) /\
  forall i : nat,
    Z.of_nat i < buffer \/ buffer + 2 * Z.of_nat n <= Z.of_nat i ->
    fm_buffer (fm m') !! i = fm_buffer (fm m) !! i.
Proof.
  induction n as [|n IH]; intros buffer m m' Hw Hb.
  - intros [= <-]. pose proof (wf_cycles _ Hw).
    split; [assumption|]. split; [lia|]. split; [reflexivity|].
    split; [|split; [reflexivity|intros; reflexivity]].
    change (Z.of_nat 0) with 0. rewrite Z.add_0_r, Z.mod_small by lia. reflexivity.
  - simpl YM3438_Update_loop. unfold bind.
    destruct (YM3438_Update_step buffer m) as [[[] m1]| |] eqn:H1; try discriminate.
    intros H2.
    destruct (YM3438_Update_step_inv _ _ _ Hw Hb H1) as (Hroom & Hnk & Hbuf).
    pose proof (wf_nuked_step _ _ _ _ _ _ Hw Hnk) as Hw1.
    destruct (IH (buffer + 2) m1 m' Hw1 ltac:(lia) H2) as (Hw2 & Hr2 & Hchip & Hcyc & Hlen & Hout).
    assert (Hlen1 : length (fm_buffer (fm m1)) = length (fm_buffer (fm m)))
      by (rewrite Hbuf, !length_insert; reflexivity).
    split; [exact Hw2|]. split; [|split; [|split; [|split]]].
    + intros _. destruct n as [|n']; [lia|]. rewrite <- Hlen1. specialize (Hr2 ltac:(lia)). lia.
    + rewrite Hchip, Hnk, OPN2_clocks_S. reflexivity.
    + rewrite Hcyc, Hnk. simpl ym3438_cycles.
      rewrite Zplus_mod_idemp_l. f_equal. lia.
    + congruence.
    + intros i Hi. rewrite Hout by lia. rewrite Hbuf.
      rewrite !list_lookup_insert_ne by lia. reflexivity.
Qed.

(** Iterations compose: [n + k] of them are [n], then [k] on the slots
    that follow. *)
Lemma YM3438_Update_loop_app n k : forall buffer m,
  YM3438_Update_loop (n + k) buffer m =
    match YM3438_Update_loop n buffer m with
    | Ok (_, m1) => YM3438_Update_loop k (buffer + 2 * Z.of_nat n) m1
    | Undefined => Undefined
    | OutOfFuel => OutOfFuel
    end.
Proof.
  induction n as [|n IH]; intros buffer m.
  - simpl. rewrite Z.add_0_r. reflexivity.
  - simpl. unfold bind.
    destruct (YM3438_Update_step buffer m) as [[[] m1]| |]; try reflexivity.
    rewrite IH. replace (buffer + 2 + 2 * Z.of_nat n) with (buffer + 2 * Z.of_nat (S n)) by lia.
    reflexivity.
Qed.

(** Below the end of a period of 24 clocks the sample is held: the rows
    land in the accumulator and every pair stored is the held one. *)
Lemma YM3438_Update_loop_hold n : forall buffer m m',
  wf_nuked m -> 0 <= buffer ->
  ym3438_cycles (nuked m) + Z.of_nat n < 24 ->
  YM3438_Update_loop n buffer m = Ok (tt, m') ->
  let c := Z.to_nat (ym3438_cycles (nuked m)) in
  ym3438_sample (nuked m') = ym3438_sample (nuked m) /\
  ym3438_accm (nuked m') =
    take c (ym3438_accm (nuked m))
    ++ snd (OPN2_clocks n (ym3438 (nuked m)))
    ++ drop (c + n) (ym3438_accm (nuked m)) /\
  forall i : nat, (i < 2 * n)%nat ->
    fm_buffer (fm m') !! (Z.to_nat buffer + i)%nat
    = Some (nuked_output (ym3438_sample (nuked m)) i).
Proof.
  induction n as [|n IH]; intros buffer m m' Hw Hb Hc.
  - intros [= <-]. cbv zeta. split; [reflexivity|]. split; [|intros; lia].
    simpl. rewrite Nat.add_0_r, take_drop. reflexivity.
  - simpl YM3438_Update_loop. unfold bind.
    destruct (YM3438_Update_step buffer m) as [[[] m1]| |] eqn:H1; try discriminate.
    intros H2. cbv zeta.
    destruct (YM3438_Update_step_inv _ _ _ Hw Hb H1) as (Hroom & Hnk & Hbuf).
    pose proof (wf_nuked_step _ _ _ _ _ _ Hw Hnk) as Hw1.
    pose proof (wf_cycles _ Hw) as Hcy. pose proof (wf_accm _ Hw) as Hac.
    assert (Hc1 : (ym3438_cycles (nuked m) + 1) mod 24 = ym3438_cycles (nuked m) + 1)
      by (apply Z.mod_small; lia).
    assert (Hz : (ym3438_cycles (nuked m) + 1 =? 0) = false) by (apply Z.eqb_neq; lia).
    rewrite Hc1, Hz in Hnk. rewrite Hc1, Hz in Hbuf.
    assert (Hcm1 : ym3438_cycles (nuked m1) = ym3438_cycles (nuked m) + 1)
      by (rewrite Hnk; reflexivity).
    destruct (IH (buffer + 2) m1 m' Hw1 ltac:(lia) ltac:(lia) H2) as (Hs & Ha & Hb2).
    destruct (YM3438_Update_loop_inv n (buffer + 2) m1 m' Hw1 ltac:(lia) H2) as (_ & _ & _ & _ & _ & Hout).
    split; [|split].
    + rewrite Hs, Hnk. reflexivity.
    + rewrite Ha, Hcm1, OPN2_clocks_S. rewrite Hnk. simpl ym3438_accm. simpl ym3438.
      simpl snd.
      replace (Z.to_nat (ym3438_cycles (nuked m) + 1))
        with (S (Z.to_nat (ym3438_cycles (nuked m)))) by lia.
      set (c := Z.to_nat (ym3438_cycles (nuked m))).
      rewrite (take_S_r _ c (snd (OPN2_Clock (ym3438 (nuked m)))))
        by (apply list_lookup_insert_eq; lia).
      rewrite take_insert_ge by lia.
      rewrite drop_insert_lt by lia.
      rewrite <- app_assoc. simpl.
      replace (c + S n)%nat with (S c + n)%nat by lia. reflexivity.
    + intros i Hi.
      destruct (Nat.lt_ge_cases i 2) as [Hlt|Hge].
      * rewrite Hout by lia. rewrite Hbuf.
        destruct i as [|[|i]]; [| |lia].
        -- rewrite Nat.add_0_r.
           rewrite list_lookup_insert_ne by lia.
           rewrite list_lookup_insert_eq by lia. reflexivity.
        -- replace (Z.to_nat buffer + 1)%nat with (Z.to_nat (buffer + 1)) by lia.
           rewrite list_lookup_insert_eq by (rewrite length_insert; lia). reflexivity.
      * specialize (Hb2 (i - 2)%nat ltac:(lia)).
        replace (Z.to_nat (buffer + 2) + (i - 2))%nat with (Z.to_nat buffer + i)%nat in Hb2 by lia.
        rewrite Hb2, Hnk. simpl ym3438_sample.
        unfold nuked_output.
        replace i with (S (S (i - 2))) at 2 by lia. reflexivity.
Qed.


Lemma OPN2_clocks_snoc n : forall chip,
  OPN2_clocks (n + 1) chip =
    (fst (OPN2_Clock (fst (OPN2_clocks n chip))),
     snd (OPN2_clocks n chip) ++ [snd (OPN2_Clock (fst (OPN2_clocks n chip)))]).
Proof.
  induction n as [|n IH]; intros chip.
  - simpl. destruct (OPN2_Clock chip). reflexivity.
  - change (S n + 1)%nat with (S (n + 1)). rewrite !OPN2_clocks_S, IH. reflexivity.
Qed.

Lemma store_fm_buffer_defined off v m : store_fm_buffer off v m <> OutOfFuel.
Proof. unfold store_fm_buffer. destruct (_ && _); discriminate. Qed.

Lemma YM3438_Update_step_defined buffer m : YM3438_Update_step buffer m <> OutOfFuel.
Proof.
  unfold YM3438_Update_step, bind, get, modify, undefined.
  destruct (_ && _); [|discriminate].
  destruct (OPN2_Clock _) as [chip row].
  match goal with
  | |- context [store_fm_buffer buffer ?v ?x] =>
      pose proof (store_fm_buffer_defined buffer v x);
      destruct (store_fm_buffer buffer v x) as [[[] m1]| |]
  end; [apply store_fm_buffer_defined|discriminate|congruence].
Qed.

Lemma YM3438_Update_loop_defined n : forall buffer m,
  YM3438_Update_loop n buffer m <> OutOfFuel.
Proof.
  induction n as [|n IH]; intros buffer m; [discriminate|].
  simpl. unfold bind.
  pose proof (YM3438_Update_step_defined buffer m).
  destruct (YM3438_Update_step buffer m) as [[[] m1]| |]; [apply IH|discriminate|congruence].
Qed.

(** X1: [YM3438_Update] asked for [length > 0] samples returns when the
    [2 * length] ints fit between [buffer] and the end of [fm_buffer], and
    is undefined (a store past the end of the array) when they do not. *)
Theorem YM3438_Update_room buffer len m :
  wf_nuked m -> 0 <= buffer -> 0 < len ->
  (buffer + 2 * len <= Z.of_nat (length (fm_buffer (fm m))) ->
   exists m', YM3438_Update buffer len m = Ok (tt, m')) /\
  (Z.of_nat (length (fm_buffer (fm m))) < buffer + 2 * len ->
   YM3438_Update buffer len m = Undefined).
Proof.
  intros Hw Hb Hl. unfold YM3438_Update. split.
  - intros Hr.
    destruct (YM3438_Update_loop_returns (Z.to_nat len) buffer m Hw Hb ltac:(lia))
      as (m' & H & _).
    exists m'. exact H.
  - intros Hover.
    pose proof (YM3438_Update_loop_defined (Z.to_nat len) buffer m) as Hd.
    destruct (YM3438_Update_loop (Z.to_nat len) buffer m) as [[[] m']| |] eqn:H;
      [|reflexivity|congruence].
    destruct (YM3438_Update_loop_inv _ _ _ _ Hw Hb H) as (_ & Hroom & _).
    specialize (Hroom ltac:(lia)). lia.
Qed.

(** The Nuked wrapper works on its own statics and on the buffer: the
    other two chips are not touched. *)
Lemma YM3438_Update_step_chips buffer m m' :
  YM3438_Update_step buffer m = Ok (tt, m') ->
  ym2612 m' = ym2612 m /\ ym2413 m' = ym2413 m.
Proof.
  unfold YM3438_Update_step, bind, get, modify, undefined.
  destruct (_ && _); [|discriminate].
  destruct (OPN2_Clock _) as [chip row].
  match goal with
  | |- context [store_fm_buffer buffer ?v ?x] =>
      destruct (store_fm_buffer buffer v x) as [[[] m1]| |] eqn:H1; try discriminate
  end.
  apply store_fm_buffer_inv in H1 as [_ ->].
  intros H2. apply store_fm_buffer_inv in H2 as [_ ->].
  split; reflexivity.
Qed.

Lemma YM3438_Update_loop_chips n : forall buffer m m',
  YM3438_Update_loop n buffer m = Ok (tt, m') ->
  ym2612 m' = ym2612 m /\ ym2413 m' = ym2413 m.
Proof.
  induction n as [|n IH]; intros buffer m m'.
  - intros [= <-]. split; reflexivity.
  - simpl YM3438_Update_loop. unfold bind.
    destruct (YM3438_Update_step buffer m) as [[[] m1]| |] eqn:H1; try discriminate.
    intros H2. apply YM3438_Update_step_chips in H1 as [A1 B1].
    apply IH in H2 as [A2 B2]. split; congruence.
Qed.

(** X2: a call of [YM3438_Update] that returns has clocked the chip
    [length] times, moved the row index to [(ym3438_cycles + length) mod 24],
    kept the accumulator at 24 rows, and written nothing outside the
    [2 * length] ints from [buffer] on; the scheduler's pointer and
    counters, the other chips, the PSG and the resampler are untouched. *)
Theorem YM3438_Update_effect buffer len m m' :
  wf_nuked m -> 0 <= buffer -> 0 <= len ->
  YM3438_Update buffer len m = Ok (tt, m') ->
  wf_nuked m' /\
  ym3438 (nuked m') = fst (OPN2_clocks (Z.to_nat len) (ym3438 (nuked m))) /\
  ym3438_cycles (nuked m') = (ym3438_cycles (nuked m) + len) mod 24 /\
  (forall i : nat,
     Z.of_nat i < buffer \/ buffer + 2 * len <= Z.of_nat i ->
     fm_buffer (fm m') !! i = fm_buffer (fm m) !! i) /\
  generator_frame m m' /\
  ym2612 m' = ym2612 m /\
  ym2413 m' = ym2413 m.
Proof.
  intros Hw Hb Hl H. unfold YM3438_Update in H.
  destruct (YM3438_Update_loop_inv _ _ _ _ Hw Hb H) as (Hw' & _ & Hchip & Hcyc & _ & Hout).
  destruct (YM3438_Update_loop_chips _ _ _ _ H) as [Hc1 Hc2].
  rewrite Z2Nat.id in Hcyc, Hout by exact Hl.
  split; [exact Hw'|]. split; [exact Hchip|]. split; [exact Hcyc|].
  split; [exact Hout|].
  split; [apply (YM3438_Update_loop_frame _ _ _ _ H)|]. split; assumption.
Qed.

(** X3: while the row index stays below 24 the Nuked output is held:
    [YM3438_Update] leaves [ym3438_sample] as it is and stores, for every
    sample asked for, the held pair times 11 (left in the even slot, right
    in the odd one). *)
Theorem YM3438_Update_holds_sample buffer len m m' :
  wf_nuked m -> 0 <= buffer -> 0 <= len ->
  ym3438_cycles (nuked m) + len < 24 ->
  YM3438_Update buffer len m = Ok (tt, m') ->
  ym3438_sample (nuked m') = ym3438_sample (nuked m) /\
  forall i : nat, (i < 2 * Z.to_nat len)%nat ->
    fm_buffer (fm m') !! (Z.to_nat buffer + i)%nat
    = Some (nuked_output (ym3438_sample (nuked m)) i).
Proof.
  intros Hw Hb Hl Hc H. unfold YM3438_Update in H.
  destruct (YM3438_Update_loop_hold (Z.to_nat len) buffer m m' Hw Hb ltac:(lia) H) as (Hs & _ & Hbuf).
  split; assumption.
Qed.

(** X4: the clock that takes the row index from 23 back to 0 ends a
    period: the accumulator then holds the rows it had below the entry
    index followed by the rows the chip put out, [ym3438_sample] is their
    sum per channel (in [int] arithmetic), and the pair stored for that
    clock is the new sample times 11. *)
Theorem YM3438_Update_accumulates buffer len m m' :
  wf_nuked m -> 0 <= buffer -> 0 < len ->
  ym3438_cycles (nuked m) + len = 24 ->
  YM3438_Update buffer len m = Ok (tt, m') ->
  let rows := take (Z.to_nat (ym3438_cycles (nuked m))) (ym3438_accm (nuked m))
              ++ snd (OPN2_clocks (Z.to_nat len) (ym3438 (nuked m))) in
  ym3438_cycles (nuked m') = 0 /\
  ym3438_accm (nuked m') = rows /\
  ym3438_sample (nuked m') = accm_sum rows /\
  fm_buffer (fm m') !! Z.to_nat (buffer + 2 * len - 2)
    = Some (s32 (fst (accm_sum rows) * 11)) /\
  fm_buffer (fm m') !! Z.to_nat (buffer + 2 * len - 1)
    = Some (s32 (snd (accm_sum rows) * 11)).
Proof.
  intros Hw Hb Hl Hc H. unfold YM3438_Update in H.
  pose proof (wf_cycles _ Hw) as Hcy. pose proof (wf_accm _ Hw) as Hac.
  set (k := Z.to_nat (len - 1)).
  replace (Z.to_nat len) with (k + 1)%nat in * by lia.
  rewrite YM3438_Update_loop_app in H.
  destruct (YM3438_Update_loop k buffer m) as [[[] m1]| |] eqn:H1; try discriminate.
  destruct (YM3438_Update_loop_hold k buffer m m1 Hw Hb ltac:(lia) H1) as (Hs1 & Ha1 & _).
  destruct (YM3438_Update_loop_inv _ _ _ _ Hw Hb H1) as (Hw1 & _ & Hchip1 & Hcyc1 & _ & _).
  rewrite Z.mod_small in Hcyc1 by lia.
  simpl YM3438_Update_loop in H. unfold bind in H.
  destruct (YM3438_Update_step _ m1) as [[[] m2]| |] eqn:H2; try discriminate.
  injection H as <-.
  destruct (YM3438_Update_step_inv (buffer + 2 * Z.of_nat k) m1 m2 Hw1 ltac:(lia) H2) as (Hroom & Hnk & Hbuf).
  assert (Hc23 : ym3438_cycles (nuked m1) = 23) by lia.
  rewrite Hc23 in Hnk, Hbuf. change ((23 + 1) mod 24 =? 0) with true in Hnk, Hbuf.
  cbv iota in Hnk, Hbuf.
  assert (Hrows : <[Z.to_nat 23 := snd (OPN2_Clock (ym3438 (nuked m1)))]> (ym3438_accm (nuked m1))
                  = take (Z.to_nat (ym3438_cycles (nuked m))) (ym3438_accm (nuked m))
                    ++ snd (OPN2_clocks (k + 1) (ym3438 (nuked m)))).
  { rewrite Ha1, OPN2_clocks_snoc, Hchip1. simpl snd.
    rewrite insert_app_r_alt by (rewrite length_take; lia).
    rewrite insert_app_r_alt by (rewrite length_take, length_OPN2_clocks; lia).
    rewrite length_take, length_OPN2_clocks.
    assert (Hd : length (drop (Z.to_nat (ym3438_cycles (nuked m)) + k)
                              (ym3438_accm (nuked m))) = 1%nat)
      by (rewrite length_drop; lia).
    destruct (drop _ (ym3438_accm (nuked m))) as [|a [|]]; try discriminate.
    replace (Z.to_nat 23 - _ - k)%nat with 0%nat by lia.
    reflexivity. }
  rewrite Hrows in Hnk, Hbuf. cbv zeta.
  rewrite Hnk. simpl. split; [reflexivity|]. split; [reflexivity|]. split; [reflexivity|].
  rewrite Hbuf.
  replace (Z.to_nat (buffer + 2 * len - 2)) with (Z.to_nat (buffer + 2 * Z.of_nat k)) by lia.
  replace (Z.to_nat (buffer + 2 * len - 1)) with (Z.to_nat (buffer + 2 * Z.of_nat k + 1)) by lia.
  split.
  - rewrite list_lookup_insert_ne by lia.
    rewrite list_lookup_insert_eq by lia. reflexivity.
  - rewrite list_lookup_insert_eq by (rewrite length_insert; lia). reflexivity.
Qed.

End NukedWrapper.

(** ** The scheduler and the room in the buffer *)

Section BufferRoom.
Context `{P : Platform} `{E : Collaborators}.
Local Open Scope sound_scope.

Lemma store_fm_block_defined off vals m : store_fm_block off vals m <> OutOfFuel.
Proof. unfold store_fm_block. destruct (_ && _); discriminate. Qed.

Lemma call_YM_Update_defined buffer len m : call_YM_Update buffer len m <> OutOfFuel.
Proof.
  unfold call_YM_Update, bind, get, modify, undefined.
  destruct (YM_Update (ym m)) as [[| |]|]; try discriminate.
  - apply YM3438_Update_loop_defined.
  - destruct (YM2612Update _ _). apply store_fm_block_defined.
  - destruct (YM2413Update _ _). apply store_fm_block_defined.
Qed.

Lemma fm_update_defined cycles m : fm_update cycles m <> OutOfFuel.
Proof.
  unfold fm_update, bind, get, modify, undefined, ret.
  destruct (_ <? _); [|discriminate].
  destruct (_ =? _); [discriminate|].
  pose proof (call_YM_Update_defined (fm_ptr (fm m)) (s32 (samples_to_run cycles m)) m).
  destruct (call_YM_Update _ _ m) as [[[] m1]| |]; [|discriminate|congruence].
  destruct (_ && _); discriminate.
Qed.

Lemma YM3438_Update_step_room buffer m m' :
  YM3438_Update_step buffer m = Ok (tt, m') ->
  0 <= buffer /\ buffer + 2 <= Z.of_nat (length (fm_buffer (fm m))).
Proof.
  unfold YM3438_Update_step, bind, get, modify, undefined.
  destruct (_ && _); [|discriminate].
  destruct (OPN2_Clock _) as [chip row].
  match goal with
  | |- context [store_fm_buffer buffer ?v ?x] =>
      destruct (store_fm_buffer buffer v x) as [[[] m1]| |] eqn:H1; try discriminate
  end.
  apply store_fm_buffer_inv in H1 as [H1 ->].
  intros H2. apply store_fm_buffer_inv in H2 as [H2 _].
  simpl in H1, H2. rewrite length_insert in H2. lia.
Qed.

Lemma YM3438_Update_loop_room n : forall buffer m m',
  (0 < n)%nat ->
  YM3438_Update_loop n buffer m = Ok (tt, m') ->
  0 <= buffer /\ buffer + 2 * Z.of_nat n <= Z.of_nat (length (fm_buffer (fm m))).
Proof.
  induction n as [|n IH]; intros buffer m m' Hn; [lia|].
  simpl YM3438_Update_loop. unfold bind.
  destruct (YM3438_Update_step buffer m) as [[[] m1]| |] eqn:H1; try discriminate.
  intros H2.
  pose proof (YM3438_Update_step_room _ _ _ H1) as Hr.
  pose proof (YM3438_Update_step_frame _ _ _ H1) as F.
  destruct n as [|n']; [lia|].
  destruct (IH (buffer + 2) m1 m' ltac:(lia) H2) as [_ Hr2].
  rewrite (gf_len _ _ F) in Hr2. lia.
Qed.

(** A bulk generator that returns had room for what it was asked. *)
Lemma call_YM_Update_room buffer len m m' :
  0 <= buffer -> 0 < len ->
  call_YM_Update buffer len m = Ok (tt, m') ->
  buffer + 2 * len <= Z.of_nat (length (fm_buffer (fm m))).
Proof.
  intros Hb Hl.
  unfold call_YM_Update, bind, get, modify.
  destruct (YM_Update (ym m)) as [[| |]|]; try discriminate.
  - intros H. unfold YM3438_Update in H.
    apply YM3438_Update_loop_room in H; lia.
  - destruct (YM2612Update len (ym2612 m)) as [chip out].
    unfold store_fm_block. destruct (_ && _) eqn:Hc; [|discriminate].
    intros _. rewrite andb_true_iff, Z.leb_le, Z.leb_le in Hc.
    rewrite length_generated in Hc. simpl in Hc. lia.
  - destruct (YM2413Update len (ym2413 m)) as [chip out].
    unfold store_fm_block. destruct (_ && _) eqn:Hc; [|discriminate].
    intros _. rewrite andb_true_iff, Z.leb_le, Z.leb_le in Hc.
    rewrite length_generated in Hc. simpl in Hc. lia.
Qed.

(** What a synchronisation that had samples to run has done, when no sum
    wraps. *)
Lemma fm_update_result cycles m m' :
  is_u32 cycles -> wf_fm m ->
  let count := fm_cycles_count (fm m) in
  let ratio := fm_cycles_ratio (fm m) in
  let owed := ceil_div (cycles - count) ratio in
  1 < ratio -> cycles + ratio <= 2 ^ 32 -> count < cycles ->
  fm_update cycles m = Ok (tt, m') ->
  0 < owed /\
  fm_ptr (fm m) + 2 * owed <= FM_BUFFER_LEN /\
  exists m1,
    call_YM_Update (fm_ptr (fm m)) owed m = Ok (tt, m1) /\
    m' = set_fm_cycles_count (count + owed * ratio)
           (set_fm_ptr (fm_ptr (fm m) + 2 * owed) m1).
Proof.
  intros Hc Hw count ratio owed Hr Hsum Hlt.
  pose proof (wf_count _ Hw) as Hcount. pose proof (wf_ptr _ Hw) as Hptr.
  pose proof (wf_buffer _ Hw) as Hlen.
  fold count in Hcount.
  assert (Hr' : 0 < ratio) by lia.
  pose proof (ceil_div_spec (cycles - count) ratio Hr') as Hs.
  pose proof (ceil_div_pos (cycles - count) ratio Hr' ltac:(lia)) as Hp.
  fold owed in Hs, Hp.
  assert (Ho : owed < 2 ^ 31) by (unfold is_u32 in *; nia).
  unfold fm_update, bind, get, modify.
  fold count ratio.
  destruct (Z.ltb_spec count cycles) as [_|]; [|lia].
  destruct (Z.eqb_spec ratio 0) as [|_]; [lia|].
  unfold samples_to_run. fold count ratio.
  rewrite samples_owed by (try assumption; unfold is_u32 in *; lia).
  fold owed.
  rewrite (s32_id owed) by (unfold is_s32; lia).
  destruct (call_YM_Update _ _ m) as [[[] m1]| |] eqn:H1; try discriminate.
  pose proof (call_YM_Update_frame _ _ _ _ H1) as F.
  pose proof (call_YM_Update_room (fm_ptr (fm m)) owed m m1 ltac:(lia) Hp H1) as Hroom.
  rewrite (gf_ptr _ _ F), (gf_len _ _ F).
  rewrite Z.shiftl_mul_pow2 by lia. change (2 ^ 1) with 2.
  rewrite (u32_id (owed * 2)) by (unfold is_u32; lia).
  destruct (_ && _); [|discriminate].
  intros [= <-]. split; [exact Hp|]. split; [lia|].
  exists m1. split; [reflexivity|].
  unfold set_fm_cycles_count, set_fm_ptr, set_fm. simpl.
  rewrite (gf_ratio _ _ F), (gf_count _ _ F). fold count ratio.
  rewrite u32_add_r, (u32_id (count + owed * ratio)) by (unfold is_u32 in *; nia).
  replace (owed * 2) with (2 * owed) by lia. reflexivity.
Qed.


Lemma fm_update_wf cycles m m' :
  wf_fm m -> fm_update cycles m = Ok (tt, m') -> wf_fm m'.
Proof.
  intros Hw. unfold fm_update, bind, get, modify, ret.
  destruct (_ <? _); [|intros [= <-]; exact Hw].
  destruct (_ =? _); [discriminate|].
  destruct (call_YM_Update _ _ m) as [[[] m1]| |] eqn:H1; try discriminate.
  pose proof (call_YM_Update_frame _ _ _ _ H1) as F.
  destruct (_ && _) eqn:Hc; [|discriminate].
  rewrite andb_true_iff, Z.leb_le, Z.leb_le in Hc.
  intros [= <-]. rewrite (gf_len _ _ F) in Hc.
  constructor; simpl;
    rewrite ?(gf_len _ _ F), ?(gf_ratio _ _ F), ?(gf_start _ _ F); try apply Hw.
  - pose proof (wf_buffer _ Hw). lia.
  - apply u32_range.
Qed.

(** X5: a synchronisation that has samples to run (no sum wrapping)
    returns, leaving a well-formed scheduler, when the owed samples fit
    between [fm_ptr] and the end of [fm_buffer]; when they do not it is
    undefined: the generator stores past the end of the array. *)
Theorem fm_update_room cycles m :
  is_u32 cycles -> wf_fm m -> wf_nuked m -> YM_Update (ym m) <> None ->
  let count := fm_cycles_count (fm m) in
  let ratio := fm_cycles_ratio (fm m) in
  let owed := ceil_div (cycles - count) ratio in
  1 < ratio -> cycles + ratio <= 2 ^ 32 -> count < cycles ->
  (fm_ptr (fm m) + 2 * owed <= FM_BUFFER_LEN ->
   exists m', fm_update cycles m = Ok (tt, m') /\ wf_fm m') /\
  (FM_BUFFER_LEN < fm_ptr (fm m) + 2 * owed ->
   fm_update cycles m = Undefined).
Proof.
  intros Hc Hw Hn Hy count ratio owed Hr Hsum Hlt. split.
  - intros Hroom.
    destruct (fm_update_owed cycles m Hc Hw Hn Hy ltac:(fold ratio; lia) Hlt)
      as (m1 & _ & _ & H).
    + pose proof (wf_count _ Hw). fold count ratio. unfold is_u32 in *. lia.
    + exact Hroom.
    + eexists. split; [exact H|]. eapply fm_update_wf; eassumption.
  - intros Hover.
    pose proof (fm_update_defined cycles m) as Hd.
    destruct (fm_update cycles m) as [[[] m']| |] eqn:H; [|reflexivity|congruence].
    destruct (fm_update_result cycles m m' Hc Hw Hr Hsum Hlt H) as (_ & Hroom & _).
    fold count ratio owed in Hroom. lia.
Qed.

(** The counter after a synchronisation covers its target. *)
Lemma fm_update_reaches cycles m m' :
  is_u32 cycles ->
  is_u32 (fm_cycles_count (fm m)) -> is_u32 (fm_cycles_ratio (fm m)) ->
  cycles + fm_cycles_ratio (fm m) <= 2 ^ 32 ->
  fm_update cycles m = Ok (tt, m') ->
  cycles <= fm_cycles_count (fm m').
Proof.
  intros Hc Hcount Hratio Hsum.
  unfold fm_update, bind, get, modify.
  destruct (Z.ltb_spec (fm_cycles_count (fm m)) cycles) as [Hlt|Hge].
  2:{ intros [= <-]. exact Hge. }
  destruct (Z.eqb_spec (fm_cycles_ratio (fm m)) 0) as [|Hr]; [discriminate|].
  destruct (call_YM_Update _ _ m) as [[[] m1]| |] eqn:H1; try discriminate.
  apply call_YM_Update_frame in H1.
  destruct (_ && _); [|discriminate].
  intros [= <-]. simpl.
  unfold samples_to_run.
  assert (Hr' : 0 < fm_cycles_ratio (fm m)) by (unfold is_u32 in *; lia).
  rewrite samples_owed by (try assumption; unfold is_u32 in *; lia).
  set (owed := ceil_div _ _).
  pose proof (ceil_div_spec (cycles - fm_cycles_count (fm m))
                (fm_cycles_ratio (fm m)) Hr') as Hs.
  fold owed in Hs.
  rewrite (gf_count _ _ H1), (gf_ratio _ _ H1), u32_add_r.
  rewrite u32_id by (unfold is_u32 in *; nia).
  lia.
Qed.

(** X6: once the chip has been run to [cycles], a synchronisation to
    any target at or below [cycles] generates nothing and changes
    nothing. *)
Theorem fm_update_settles cycles cycles' m m' :
  is_u32 cycles ->
  is_u32 (fm_cycles_count (fm m)) -> is_u32 (fm_cycles_ratio (fm m)) ->
  cycles + fm_cycles_ratio (fm m) <= 2 ^ 32 ->
  fm_update cycles m = Ok (tt, m') ->
  cycles' <= cycles ->
  fm_update cycles' m' = Ok (tt, m').
Proof.
  intros Hc Hcount Hratio Hsum H Hle.
  apply fm_update_covered.
  pose proof (fm_update_reaches cycles m m' Hc Hcount Hratio Hsum H). lia.
Qed.

End BufferRoom.

(** ** Operations of a session *)

Section Operations.
Context `{P : Platform} `{E : Collaborators}.
Local Open Scope sound_scope.

Lemma wf_fm_same m m' : fm m' = fm m -> wf_fm m -> wf_fm m'.
Proof. intros H [? ? ? ? ?]. constructor; rewrite H; assumption. Qed.

Lemma call_YM_Reset_ym m m' : call_YM_Reset m = Ok (tt, m') -> ym m' = ym m.
Proof.
  unfold call_YM_Reset, bind, get, modify, YM3438_Reset, modify.
  destruct (YM_Reset (ym m)) as [[| |]|]; try discriminate;
    intros [= <-]; reflexivity.
Qed.

Lemma call_YM_Write_ym a v m m' : call_YM_Write a v m = Ok (tt, m') -> ym m' = ym m.
Proof.
  unfold call_YM_Write, bind, get, modify, YM3438_Write, modify.
  destruct (YM_Write (ym m)) as [[| |]|]; try discriminate;
    intros [= <-]; reflexivity.
Qed.

Lemma call_YM_Read_ym a m r m' : call_YM_Read a m = Ok (r, m') -> ym m' = ym m.
Proof.
  unfold call_YM_Read, bind, get, modify, YM3438_Read, bind, get, modify, ret.
  destruct (YM_Read (ym m)) as [[| |]|]; try discriminate.
  - destruct (OPN2_Read a _). intros [= _ <-]. reflexivity.
  - destruct (YM2612Read a _). intros [= _ <-]. reflexivity.
Qed.

(** What a load leaves alone: all of the scheduler but the two counters,
    the bound entry points, the resampler and the configuration. *)
Lemma sound_context_load_frame state m n m' :
  sound_context_load state m = Ok (n, m') ->
  fm_buffer (fm m') = fm_buffer (fm m) /\
  fm_last (fm m') = fm_last (fm m) /\
  fm_ptr (fm m') = fm_ptr (fm m) /\
  ym m' = ym m /\
  blips0 m' = blips0 m /\
  system_hw m' = system_hw m /\
  config m' = config m.
Proof.
  unfold sound_context_load, bind at 1, get at 1, bind at 1.
  match goal with
  | |- match ?c m with _ => _ end = _ -> _ =>
      assert (Hc : forall b m1, c m = Ok (b, m1) ->
                fm m1 = fm m /\ ym m1 = ym m /\ blips0 m1 = blips0 m /\
                system_hw m1 = system_hw m /\ config m1 = config m);
      [|destruct (c m) as [[b m1]| |] eqn:H1; try discriminate;
        specialize (Hc _ _ eq_refl)]
  end.
  { intros b m1.
    destruct (Z.land (system_hw m) SYSTEM_PBC =? SYSTEM_MD);
      [destruct HAVE_YM3438_CORE|].
    - simpl. destruct (negb _).
      + unfold bind, modify, ret. intros [= _ <-]. repeat split.
      + destruct (YM2612LoadContext _ _). unfold bind, modify, ret.
        intros [= _ <-]. repeat split.
    - destruct (YM2612LoadContext _ _). unfold bind, modify, ret.
      intros [= _ <-]. repeat split.
    - simpl. unfold bind, modify, ret. intros [= _ <-]. repeat split. }
  destruct Hc as (Hfm & Hym & Hbl & Hhw & Hcf).
  unfold bind, get, modify, ret.
  destruct (psg_context_load _ _). simpl.
  intros [= _ <-]. simpl. rewrite Hfm. repeat split; assumption.
Qed.



Lemma perform_ym op m m' : perform op m = Ok (tt, m') -> ym m' = ym m.
Proof.
  destruct op as [c|c|c a v|c a|f c|st]; simpl; unfold bind, ret.
  - intros H. apply fm_update_frame in H. apply H.
  - unfold fm_reset, bind.
    destruct (fm_update c m) as [[[] m1]| |] eqn:H1; try discriminate.
    intros H. apply call_YM_Reset_ym in H. apply fm_update_frame in H1.
    rewrite H. apply H1.
  - unfold fm_write, bind.
    destruct (fm_update c m) as [[[] m1]| |] eqn:H1; try discriminate.
    intros H. apply call_YM_Write_ym in H. apply fm_update_frame in H1.
    rewrite H. apply H1.
  - unfold fm_read, bind.
    destruct (fm_update c m) as [[[] m1]| |] eqn:H1; try discriminate.
    destruct (call_YM_Read a m1) as [[r m2]| |] eqn:H2; try discriminate.
    intros [= <-]. apply call_YM_Read_ym in H2. apply fm_update_frame in H1.
    rewrite H2. apply H1.
  - destruct (sound_update f c m) as [[n m1]| |] eqn:H1; try discriminate.
    intros [= <-]. revert H1. rewrite sound_update_run.
    destruct (fm_update c _) as [[[] m2]| |] eqn:H2; try discriminate.
    apply fm_update_frame in H2.
    destruct (mix f _ _ _ _ _ _ _ _) as [[ss [[[q l] r] t]]| |]; try discriminate.
    intros [= _ <-]. simpl. apply H2.
  - destruct (sound_context_load st m) as [[n m1]| |] eqn:H1; try discriminate.
    intros [= <-]. apply (sound_context_load_frame _ _ _ _ H1).
Qed.

Lemma perform_all_ym ops : forall m m',
  perform_all ops m = Ok (tt, m') -> ym m' = ym m.
Proof.
  induction ops as [|op ops IH]; intros m m'; simpl.
  - intros [= <-]. reflexivity.
  - unfold bind. destruct (perform op m) as [[[] m1]| |] eqn:H1; try discriminate.
    intros H. rewrite (IH _ _ H). eapply perform_ym; eassumption.
Qed.

Lemma sound_reset_ym m m' : sound_reset m = Ok (tt, m') -> ym m' = ym m.
Proof.
  unfold sound_reset, bind.
  destruct (call_YM_Reset m) as [[[] m1]| |] eqn:H1; try discriminate.
  apply call_YM_Reset_ym in H1.
  unfold modify. intros [= <-]. exact H1.
Qed.

(** X8: on a console whose hardware class is not the Mega Drive's,
    [sound_init] binds the YM2413 and leaves [YM_Read] NULL, and neither
    [sound_reset] nor any operation rebinds it: after [sound_init],
    [sound_reset] and any session, [fm_read] is a call through a NULL
    pointer, undefined at every cycle and address. *)
Theorem fm_read_needs_a_status_port ops cycles address m m1 m2 m3 :
  Z.land (system_hw m) SYSTEM_PBC <> SYSTEM_MD ->
  sound_init m = Ok (tt, m1) ->
  sound_reset m1 = Ok (tt, m2) ->
  perform_all ops m2 = Ok (tt, m3) ->
  fm_read cycles address m3 = Undefined.
Proof.
  intros Hhw Hinit Hreset Hops.
  assert (Hy : YM_Read (ym m3) = None).
  { rewrite (perform_all_ym _ _ _ Hops), (sound_reset_ym _ _ Hreset).
    revert Hinit. unfold sound_init, bind, get, modify.
    destruct (Z.eqb_spec (Z.land (system_hw m) SYSTEM_PBC) SYSTEM_MD) as [|_];
      [contradiction|].
    intros [= <-]. reflexivity. }
  unfold fm_read, bind.
  pose proof (fm_update_defined cycles m3) as Hd.
  destruct (fm_update cycles m3) as [[[] m4]| |] eqn:H3; [|reflexivity|congruence].
  apply fm_update_frame in H3.
  unfold call_YM_Read, bind, get. rewrite (sf_ym _ _ H3), Hy. reflexivity.
Qed.

End Operations.

(** ** The buffer and the counters in step *)

Section InStep.
Context `{P : Platform} `{E : Collaborators}.
Local Open Scope sound_scope.

Lemma buffer_tracks_counters_same m m' :
  fm m' = fm m -> buffer_tracks_counters m -> buffer_tracks_counters m'.
Proof. intros H (j & Hj & Hc & Hp). exists j. rewrite H. auto. Qed.





Lemma sound_reset_frame m m' :
  sound_reset m = Ok (tt, m') ->
  fm_buffer (fm m') = fm_buffer (fm m) /\
  ym m' = ym m /\ blips0 m' = blips0 m /\
  system_hw m' = system_hw m /\ config m' = config m.
Proof.
  unfold sound_reset, bind.
  destruct (call_YM_Reset m) as [[[] m1]| |] eqn:H1; try discriminate.
  pose proof (call_YM_Reset_fm _ _ H1) as Hfm.
  pose proof (call_YM_Reset_ym _ _ H1) as Hym.
  assert (Hrest : blips0 m1 = blips0 m /\ system_hw m1 = system_hw m /\ config m1 = config m).
  { revert H1. unfold call_YM_Reset, bind, get, modify, YM3438_Reset, modify.
    destruct (YM_Reset (ym m)) as [[| |]|]; try discriminate; intros [= <-]; repeat split. }
  unfold modify. intros [= <-]. simpl. rewrite Hfm, Hym. repeat split; apply Hrest.
Qed.


(** X10: synchronising to [c1] and then to [c2 >= c1] leaves the
    counter and the write pointer where one synchronisation to [c2]
    leaves them, from any well-formed state: how the CPU spaces its
    accesses does not change how many samples a span of cycles gets. *)
Theorem fm_update_in_two_steps c1 c2 m m1 m2 m2' :
  is_u32 c2 -> c1 <= c2 -> wf_fm m ->
  1 < fm_cycles_ratio (fm m) -> c2 + fm_cycles_ratio (fm m) <= 2 ^ 32 ->
  fm_update c1 m = Ok (tt, m1) ->
  fm_update c2 m1 = Ok (tt, m2) ->
  fm_update c2 m = Ok (tt, m2') ->
  fm_cycles_count (fm m2) = fm_cycles_count (fm m2') /\
  fm_ptr (fm m2) = fm_ptr (fm m2').
Proof.
  intros Hc2 Hle Hw Hr Hsum H1 H2 H2'.
  pose proof (wf_count _ Hw) as Hcount.
  assert (Hr' : 0 < fm_cycles_ratio (fm m)) by lia.
  destruct (Z.lt_ge_cases (fm_cycles_count (fm m)) c1) as [Hlt1|Hge1].
  2:{ rewrite fm_update_covered in H1 by exact Hge1. injection H1 as <-.
      rewrite H2 in H2'. injection H2' as <-. auto. }
  assert (Hc1 : is_u32 c1) by (unfold is_u32 in *; lia).
  pose proof (fm_update_wf _ _ _ Hw H1) as Hw1.
  destruct (fm_update_result c1 m m1 Hc1 Hw Hr ltac:(lia) Hlt1 H1)
    as (Ho1 & _ & g1 & G1 & E1).
  apply call_YM_Update_frame in G1.
  destruct (fm_update_result c2 m m2' Hc2 Hw Hr Hsum ltac:(lia) H2')
    as (Ho & _ & g & G & E0).
  apply call_YM_Update_frame in G.
  set (count := fm_cycles_count (fm m)) in *.
  set (ratio := fm_cycles_ratio (fm m)) in *.
  set (o1 := ceil_div (c1 - count) ratio) in *.
  set (o := ceil_div (c2 - count) ratio) in *.
  pose proof (ceil_div_spec (c1 - count) ratio Hr') as S1. fold o1 in S1.
  pose proof (ceil_div_spec (c2 - count) ratio Hr') as S. fold o in S.
  assert (Hcount1 : fm_cycles_count (fm m1) = count + o1 * ratio) by (rewrite E1; reflexivity).
  assert (Hptr1 : fm_ptr (fm m1) = fm_ptr (fm m) + 2 * o1) by (rewrite E1; reflexivity).
  assert (Hratio1 : fm_cycles_ratio (fm m1) = ratio)
    by (rewrite E1; simpl; apply (gf_ratio _ _ G1)).
  assert (Hcount' : fm_cycles_count (fm m2') = count + o * ratio) by (rewrite E0; reflexivity).
  assert (Hptr' : fm_ptr (fm m2') = fm_ptr (fm m) + 2 * o) by (rewrite E0; reflexivity).
  destruct (Z.lt_ge_cases (fm_cycles_count (fm m1)) c2) as [Hlt2|Hge2].
  - destruct (fm_update_result c2 m1 m2 Hc2 Hw1 ltac:(lia) ltac:(lia) Hlt2 H2)
      as (Ho2 & _ & g2 & G2 & E2).
    apply call_YM_Update_frame in G2.
    rewrite Hcount1, Hratio1 in E2.
    replace (c2 - (count + o1 * ratio)) with (c2 - count - o1 * ratio) in E2 by lia.
    rewrite ceil_div_shift in E2 by exact Hr'. fold o in E2.
    rewrite E2. simpl. rewrite Hptr1, Hcount', Hptr'. split; lia.
  - rewrite fm_update_covered in H2 by exact Hge2. injection H2 as <-.
    assert (Heq : o = o1) by (apply ceil_div_unique; [exact Hr'|lia]).
    rewrite Hcount1, Hptr1, Hcount', Hptr', Heq. split; reflexivity.
Qed.

(** X11: [sound_reset] is a call through a NULL pointer when no chip
    is bound ([sound_init] has not run).  With a chip bound it returns,
    zeroes the carry, the write pointer and both counters, resets and
    configures the PSG, and keeps the clock ratio, the bound entry
    points, the resampler and the contents of [fm_buffer]: the samples of
    the last frame stay in the array. *)
Theorem sound_reset_contract m :
  (YM_Reset (ym m) = None -> sound_reset m = Undefined) /\
  (YM_Reset (ym m) <> None ->
   exists m',
     sound_reset m = Ok (tt, m') /\
     fm_last (fm m') = (0, 0) /\
     fm_ptr (fm m') = 0 /\
     fm_cycles_start (fm m') = 0 /\
     fm_cycles_count (fm m') = 0 /\
     fm_cycles_ratio (fm m') = fm_cycles_ratio (fm m) /\
     fm_buffer (fm m') = fm_buffer (fm m) /\
     ym m' = ym m /\
     blips0 m' = blips0 m /\
     psg m' = psg_config 0 (config_psg_preamp (config m)) 255 (psg_reset (psg m))).
Proof.
  split.
  - intros Hy. unfold sound_reset, bind, call_YM_Reset, bind, get. rewrite Hy. reflexivity.
  - intros Hy.
    assert (Hr : exists m1, call_YM_Reset m = Ok (tt, m1) /\ psg m1 = psg m /\
                            config m1 = config m).
    { unfold call_YM_Reset, bind, get, modify, YM3438_Reset, modify.
      destruct (YM_Reset (ym m)) as [[| |]|]; [| | |contradiction];
        eexists; (split; [reflexivity|split; reflexivity]). }
    destruct Hr as (m1 & H1 & Hpsg & Hcfg).
    assert (H : exists m', sound_reset m = Ok (tt, m') /\
                psg m' = psg_config 0 (config_psg_preamp (config m)) 255 (psg_reset (psg m))).
    { unfold sound_reset, bind. rewrite H1. unfold modify. eexists. split; [reflexivity|].
      simpl. rewrite Hpsg, Hcfg. reflexivity. }
    destruct H as (m' & H & Hp). exists m'. split; [exact H|].
    destruct (sound_reset_counters _ _ H) as (Hs & Hc & Hptr & Hl & Hratio).
    destruct (sound_reset_frame _ _ H) as (Hb & Hym & Hbl & _).
    repeat split; assumption.
Qed.

End InStep.

(** ** What the mixer hands to the resampler *)

Section Deltas.
Context `{P : Platform} `{E : Collaborators}.
Local Open Scope sound_scope.

Lemma quot_100_bound a :
  is_s32 a -> - amplified_max <= Z.quot a 100 <= amplified_max.
Proof.
  unfold is_s32, amplified_max. intros Ha.
  destruct (Z.le_gt_cases 0 a) as [Hp|Hn].
  - rewrite Z.quot_div_nonneg by lia.
    pose proof (Z.div_pos a 100 Hp ltac:(lia)).
    assert (a / 100 < 21474837) by (apply Z.div_lt_upper_bound; lia). lia.
  - replace a with (- (- a)) by lia. rewrite Z.quot_opp_l by lia.
    rewrite Z.quot_div_nonneg by lia.
    pose proof (Z.div_pos (- a) 100 ltac:(lia) ltac:(lia)).
    assert (- a / 100 < 21474837) by (apply Z.div_lt_upper_bound; lia). lia.
Qed.

(** The walk entered below the frame length: how many pairs it takes,
    where it stops, and the timestamps it hands out. *)
Lemma mix_walk fuel :
  forall buf ratio cycles preamp ptr prev_l prev_r time ss q l r time',
  0 < ratio -> cycles + ratio <= 2 ^ 32 ->
  u32 time < cycles ->
  mix fuel buf ratio cycles preamp ptr prev_l prev_r time = Ok (ss, (q, l, r, time')) ->
  let n := Z.of_nat (length ss) in
  1 <= n /\
  q = ptr + 2 * n /\
  u32 time' = u32 time + n * ratio /\
  u32 time + (n - 1) * ratio < cycles <= u32 time + n * ratio /\
  forall (i : nat) s, ss !! i = Some s -> at_time s = u32 time + Z.of_nat i * ratio.
Proof.
  induction fuel as [|fuel IH];
    intros buf ratio cycles preamp ptr prev_l prev_r time ss q l r time' Hr Hsum Hlt;
    [discriminate|].
  pose proof (u32_range time) as Ht. unfold is_u32 in Ht.
  simpl mix.
  destruct (0 <=? ptr); [|discriminate].
  destruct (buf !! Z.to_nat ptr) as [x|]; [|discriminate].
  destruct (0 <=? ptr + 1); [|discriminate].
  destruct (buf !! Z.to_nat (ptr + 1)) as [y|]; [|discriminate].
  rewrite u32_time_step.
  rewrite (u32_id (u32 time + ratio)) by (unfold is_u32; lia).
  assert (Hstep : u32 (s32 (u32 time + ratio)) = u32 time + ratio)
    by (rewrite u32_s32; apply u32_id; unfold is_u32; lia).
  destruct (Z.ltb_spec (u32 time + ratio) cycles) as [Hgo|Hstop].
  - destruct (mix fuel _ _ _ _ _ _ _ _) as [[ss' [[[q' l'] r'] t']]| |] eqn:Hm;
      try discriminate.
    intros [= <- <- <- <- <-].
    apply IH in Hm; try assumption.
    2:{ rewrite Hstep. exact Hgo. }
    rewrite Hstep in Hm.
    cbv zeta in Hm. destruct Hm as (Hn & Hq & Ht' & Hb & Hts).
    cbv zeta. simpl length. rewrite Nat2Z.inj_succ.
    split; [lia|]. split; [lia|]. split; [lia|]. split; [lia|].
    intros [|i] s; simpl.
    + intros [= <-]. simpl. lia.
    + intros Hs. rewrite (Hts i s Hs). lia.
  - intros [= <- <- <- <- <-]. cbv zeta. simpl length.
    rewrite Hstep.
    split; [lia|]. split; [lia|]. split; [lia|]. split; [lia|].
    intros [|i] s; simpl; [|discriminate].
    intros [= <-]. simpl. lia.
Qed.

(** Whatever the walk reads, what it emits is an [int] product over 100. *)
Lemma mix_amplified fuel :
  forall buf ratio cycles preamp ptr prev_l prev_r time ss q l r time',
  mix fuel buf ratio cycles preamp ptr prev_l prev_r time = Ok (ss, (q, l, r, time')) ->
  amplified (l, r).
Proof.
  induction fuel as [|fuel IH];
    intros buf ratio cycles preamp ptr prev_l prev_r time ss q l r time';
    [discriminate|].
  simpl mix.
  destruct (0 <=? ptr); [|discriminate].
  destruct (buf !! Z.to_nat ptr) as [x|]; [|discriminate].
  destruct (0 <=? ptr + 1); [|discriminate].
  destruct (buf !! Z.to_nat (ptr + 1)) as [y|]; [|discriminate].
  destruct (_ <? _).
  - destruct (mix fuel _ _ _ _ _ _ _ _) as [[ss' [[[q' l'] r'] t']]| |] eqn:Hm;
      try discriminate.
    intros [= <- <- <- <- <-]. eapply IH; eassumption.
  - intros [= <- <- <- <- <-]. split; simpl; apply quot_100_bound, s32_range.
Qed.

(** Entered with a carry that is itself an amplified pair, no delta
    wraps, and the deltas of the walk add up to the move of the level. *)
Lemma mix_telescopes fuel :
  forall buf ratio cycles preamp ptr prev_l prev_r time ss q l r time',
  amplified (prev_l, prev_r) ->
  mix fuel buf ratio cycles preamp ptr prev_l prev_r time = Ok (ss, (q, l, r, time')) ->
  total_delta ss = (l - prev_l, r - prev_r).
Proof.
  induction fuel as [|fuel IH];
    intros buf ratio cycles preamp ptr prev_l prev_r time ss q l r time' Ha;
    [discriminate|].
  simpl mix.
  destruct (0 <=? ptr); [|discriminate].
  destruct (buf !! Z.to_nat ptr) as [x|]; [|discriminate].
  destruct (0 <=? ptr + 1); [|discriminate].
  destruct (buf !! Z.to_nat (ptr + 1)) as [y|]; [|discriminate].
  pose proof (quot_100_bound (s32 (x * preamp)) (s32_range _)) as Hx.
  pose proof (quot_100_bound (s32 (y * preamp)) (s32_range _)) as Hy.
  destruct Ha as [Hl Hrr]. simpl in Hl, Hrr. unfold amplified_max in *.
  destruct (_ <? _).
  - destruct (mix fuel _ _ _ _ _ _ _ _) as [[ss' [[[q' l'] r'] t']]| |] eqn:Hm;
      try discriminate.
    intros [= <- <- <- <- <-].
    apply IH in Hm; [|split; simpl; unfold amplified_max; lia].
    simpl. rewrite Hm. simpl.
    rewrite (s32_id (Z.quot (s32 (x * preamp)) 100 - prev_l)) by (unfold is_s32; lia).
    rewrite (s32_id (Z.quot (s32 (y * preamp)) 100 - prev_r)) by (unfold is_s32; lia).
    f_equal; lia.
  - intros [= <- <- <- <- <-]. simpl.
    rewrite (s32_id (Z.quot (s32 (x * preamp)) 100 - prev_l)) by (unfold is_s32; lia).
    rewrite (s32_id (Z.quot (s32 (y * preamp)) 100 - prev_r)) by (unfold is_s32; lia).
    f_equal; lia.
Qed.

(** X12: the carry a frame leaves in [fm_last] is an [int] product
    over 100: each channel lies within [2^31 / 100 = 21474836] of zero,
    whatever the buffer and the amplification hold. *)
Theorem sound_update_carry_amplified fuel cycles m n m' :
  sound_update fuel cycles m = Ok (n, m') -> amplified (fm_last (fm m')).
Proof.
  rewrite sound_update_run.
  destruct (fm_update cycles _) as [[[] m1]| |]; try discriminate.
  destruct (mix fuel _ _ _ _ _ _ _ _) as [[ss [[[q l] r] t]]| |] eqn:Hm; try discriminate.
  intros [= _ <-]. simpl. eapply mix_amplified; eassumption.
Qed.

(** X13: entered with a carry in that range, no delta of the frame
    wraps, and the deltas handed to the resampler add up, per channel, to
    the move of the level: new carry = old carry + sum of the deltas. *)
Theorem sound_update_deltas_telescope fuel cycles m n m' :
  amplified (fm_last (fm m)) ->
  sound_update fuel cycles m = Ok (n, m') ->
  exists ss,
    frame_submissions fuel cycles m = Ok ss /\
    fst (fm_last (fm m')) = fst (fm_last (fm m)) + fst (total_delta ss) /\
    snd (fm_last (fm m')) = snd (fm_last (fm m)) + snd (total_delta ss).
Proof.
  intros Ha. rewrite sound_update_run. unfold frame_submissions.
  destruct (fm_update cycles _) as [[[] m1]| |] eqn:H1; try discriminate.
  apply fm_update_frame in H1. simpl in H1.
  destruct (mix fuel _ _ _ _ _ _ _ _) as [[ss [[[q l] r] t]]| |] eqn:Hm; try discriminate.
  intros [= _ <-]. exists ss. split; [reflexivity|]. simpl.
  apply mix_telescopes in Hm.
  - rewrite Hm, (sf_last _ _ H1). simpl. split; lia.
  - rewrite (sf_last _ _ H1). unfold amplified in *. simpl. exact Ha.
Qed.

(** X14: a frame entered with [fm_cycles_start < cycles] (no sum
    wrapping) stamps its [i]-th delta [fm_cycles_start + i * ratio], and
    every timestamp lies inside the frame, below [cycles]. *)
Theorem sound_update_timestamps fuel cycles m ss :
  wf_fm m -> 0 < fm_cycles_ratio (fm m) ->
  cycles + fm_cycles_ratio (fm m) <= 2 ^ 32 ->
  fm_cycles_start (fm m) < cycles ->
  frame_submissions fuel cycles m = Ok ss ->
  forall (i : nat) s, ss !! i = Some s ->
    at_time s = fm_cycles_start (fm m) + Z.of_nat i * fm_cycles_ratio (fm m) /\
    fm_cycles_start (fm m) <= at_time s < cycles.
Proof.
  intros Hw Hr Hsum Hlt. unfold frame_submissions.
  destruct (fm_update cycles _) as [[[] m1]| |] eqn:H1; try discriminate.
  apply fm_update_frame in H1. simpl in H1.
  destruct (mix fuel _ _ _ _ _ _ _ _) as [[ss' [[[q l] r] t]]| |] eqn:Hm; try discriminate.
  intros [= <-] i s Hs.
  pose proof (wf_start _ Hw) as Hstart.
  assert (Ht : u32 (s32 (fm_cycles_start (fm m1))) = fm_cycles_start (fm m))
    by (rewrite u32_s32, (sf_start _ _ H1); apply u32_id; exact Hstart).
  apply mix_walk in Hm; rewrite ?Ht, ?(sf_ratio _ _ H1); try assumption.
  cbv zeta in Hm. rewrite Ht, (sf_ratio _ _ H1) in Hm.
  destruct Hm as (Hn & _ & _ & Hb & Hts).
  pose proof (Hts i s Hs) as Hat. split; [exact Hat|].
  apply lookup_lt_Some in Hs. nia.
Qed.

(** X15: in a frame entered with [fm_cycles_start < cycles], a clock
    ratio above 1 and [cycles + ratio <= 2^32], with the buffer in step
    with the counters and no synchronisation past the end of the frame
    by a sample or more ([fm_cycles_count < cycles + ratio]), the mixer
    walks exactly the pairs the scheduler has generated by the end of
    the frame (twice their number is the write pointer), and both
    counters restart at [fm_cycles_count - cycles]. *)
Theorem sound_update_consumes_the_frame fuel cycles m n m' :
  is_u32 cycles -> wf_fm m ->
  1 < fm_cycles_ratio (fm m) -> cycles + fm_cycles_ratio (fm m) <= 2 ^ 32 ->
  buffer_tracks_counters m ->
  fm_cycles_start (fm m) < cycles ->
  fm_cycles_count (fm m) < cycles + fm_cycles_ratio (fm m) ->
  sound_update fuel cycles m = Ok (n, m') ->
  exists m1 ss,
    fm_update cycles
      (set_blips0 (snd (psg_end_frame cycles (psg m) (blips0 m)))
         (set_psg (fst (psg_end_frame cycles (psg m) (blips0 m))) m)) = Ok (tt, m1) /\
    frame_submissions fuel cycles m = Ok ss /\
    2 * Z.of_nat (length ss) = fm_ptr (fm m1) /\
    fm_cycles_start (fm m') = fm_cycles_count (fm m1) - cycles /\
    fm_cycles_count (fm m') = fm_cycles_count (fm m1) - cycles.
Proof.
  intros Hc Hw Hr Hsum Ht Hlt Hnear.
  rewrite sound_update_run. unfold frame_submissions.
  set (m0 := set_blips0 _ _).
  assert (Hw0 : wf_fm m0) by (apply (wf_fm_same m); [reflexivity|exact Hw]).
  assert (Ht0 : buffer_tracks_counters m0)
    by (apply (buffer_tracks_counters_same m); [reflexivity|exact Ht]).
  destruct (fm_update cycles m0) as [[[] m1]| |] eqn:H1; try discriminate.
  pose proof (fm_update_frame _ _ _ H1) as F. simpl in F.
  destruct (mix fuel _ _ _ _ _ _ _ _) as [[ss [[[q l] r] t]]| |] eqn:Hm; try discriminate.
  intros [= _ <-]. exists m1, ss. split; [reflexivity|]. split; [reflexivity|].
  pose proof (wf_start _ Hw) as Hstart. pose proof (wf_count _ Hw) as Hcount.
  assert (Hr' : 0 < fm_cycles_ratio (fm m)) by lia.
  assert (Hts : u32 (s32 (fm_cycles_start (fm m1))) = fm_cycles_start (fm m))
    by (rewrite u32_s32, (sf_start _ _ F); apply u32_id; exact Hstart).
  apply mix_walk in Hm; rewrite ?Hts, ?(sf_ratio _ _ F); try assumption.
  cbv zeta in Hm. rewrite Hts, (sf_ratio _ _ F) in Hm.
  destruct Hm as (Hn & _ & Ht' & Hb & _).
  set (k := Z.of_nat (length ss)) in *.
  set (ratio := fm_cycles_ratio (fm m)) in *.
  set (start := fm_cycles_start (fm m)) in *.
  change (fm_cycles_ratio (fm m0)) with ratio in Ht', Hb.
  assert (Hm1 : fm_cycles_count (fm m1) = start + k * ratio /\ fm_ptr (fm m1) = 2 * k).
  { destruct Ht0 as (j & Hj & Hcj & Hpj).
    change (fm_cycles_count (fm m0)) with (fm_cycles_count (fm m)) in Hcj.
    change (fm_cycles_start (fm m0)) with start in Hcj.
    change (fm_cycles_ratio (fm m0)) with ratio in Hcj.
    change (fm_ptr (fm m0)) with (fm_ptr (fm m)) in Hpj.
    destruct (Z.lt_ge_cases (fm_cycles_count (fm m)) cycles) as [Hlt'|Hge].
    - destruct (fm_update_result cycles m0 m1 Hc Hw0 Hr Hsum Hlt' H1)
        as (Ho & _ & g & G & ->).
      change (fm_cycles_count (fm m0)) with (fm_cycles_count (fm m)) in *.
      change (fm_cycles_ratio (fm m0)) with ratio in *.
      change (fm_ptr (fm m0)) with (fm_ptr (fm m)) in *.
      set (owed := ceil_div _ _) in *.
      pose proof (ceil_div_spec (cycles - fm_cycles_count (fm m)) ratio Hr') as Hs.
      fold owed in Hs. simpl.
      assert (k = j + owed) by nia.
      split; lia.
    - rewrite fm_update_covered in H1 by exact Hge. injection H1 as <-.
      change (fm_cycles_count (fm m0)) with (fm_cycles_count (fm m)).
      change (fm_ptr (fm m0)) with (fm_ptr (fm m)).
      assert (k = j) by nia.
      split; lia. }
  destruct Hm1 as [Hc1 Hp1]. simpl.
  rewrite Ht', Hc1, Hp1.
  rewrite u32_id by (unfold is_u32 in *; lia).
  repeat split; lia.
Qed.

End Deltas.

(** ** The layout of a save state *)

Section StateLayout.
Context `{P : Platform} `{E : Collaborators}.
Local Open Scope sound_scope.
Import Mem MemFacts.

Lemma write_outside st off bytes a :
  a < off \/ off + Z.of_nat (length bytes) <= a -> write st off bytes a = st a.
Proof.
  intros H. unfold write.
  destruct (Z.leb_spec off a); destruct (Z.ltb_spec a (off + Z.of_nat (length bytes)));
    simpl; try reflexivity; lia.
Qed.

Lemma save_param_extent st b img size :
  fst (save_param st b img size) = b + Z.of_nat size /\
  forall a, a < b \/ b + Z.of_nat size <= a -> snd (save_param st b img size) a = st a.
Proof.
  unfold save_param. simpl. split; [reflexivity|].
  intros a Ha. apply write_outside.
  pose proof (firstn_le_length size img). lia.
Qed.

Lemma write_firstn_outside st off (img : list Z) size a :
  a < off \/ off + Z.of_nat size <= a -> write st off (firstn size img) a = st a.
Proof.
  intros Ha. apply write_outside.
  pose proof (firstn_le_length size img). lia.
Qed.

(** X16: [sound_context_save] reads the machine and leaves it as it
    is, with one exception: built with the Nuked core, on a Mega Drive
    running the MAME core, it applies [YM2612Config(config.dac_bits)] to
    the YM2612 after saving it. *)
Theorem sound_context_save_reads_only state m n state' m' :
  sound_context_save state m = Ok ((n, state'), m') ->
  fm m' = fm m /\ ym m' = ym m /\ nuked m' = nuked m /\ ym2413 m' = ym2413 m /\
  psg m' = psg m /\ blips0 m' = blips0 m /\ system_hw m' = system_hw m /\
  config m' = config m /\
  ym2612 m' =
    (if (Z.land (system_hw m) SYSTEM_PBC =? SYSTEM_MD) && HAVE_YM3438_CORE
        && (config_ym3438 (config m) =? 0)
     then YM2612Config (config_dac_bits (config m)) (ym2612 m)
     else ym2612 m).
Proof.
  unfold sound_context_save, bind, get, modify, ret, save_param.
  destruct (Z.land (system_hw m) SYSTEM_PBC =? SYSTEM_MD);
    [destruct HAVE_YM3438_CORE; [destruct (config_ym3438 (config m) =? 0)|]|];
    simpl; intros [= _ _ <-]; repeat split.
Qed.

Ltac write_out :=
  repeat match goal with
  | |- write ?st ?off (take ?k ?img) ?a = _ =>
      rewrite (write_firstn_outside st off img k a) by lia
  | |- write ?st ?off ?bytes ?a = _ =>
      rewrite (write_outside st off bytes a) by (simpl length; lia)
  end; reflexivity.

(** X17: a save state is at least 4 bytes long, nothing is written
    outside [state[0 .. n-1]] for the size [n] returned, and its last 4
    bytes are [fm_cycles_start] in the byte order of the host. *)
Theorem sound_context_save_extent state m n state' m' :
  sound_context_save state m = Ok ((n, state'), m') ->
  4 <= n /\
  (forall a, a < 0 \/ n <= a -> state' a = state a) /\
  read state' (n - 4) 4 = image32 (fm_cycles_start (fm m)).
Proof.
  unfold sound_context_save, bind, get, modify, ret, save_param.
  destruct (Z.land (system_hw m) SYSTEM_PBC =? SYSTEM_MD);
    [destruct HAVE_YM3438_CORE; [destruct (config_ym3438 (config m) =? 0)|]|];
    cbv beta iota zeta; cbn [negb]; cbv beta iota zeta; intros [= <- <- _];
    (split; [lia|]; split;
     [ intros a Ha; write_out
     | match goal with
       | |- read (write ?st ?b _) ?o _ = _ => replace o with b by lia
       end;
       rewrite (firstn_exact 4 (image32 (fm_cycles_start (fm m)))) by apply length_image32;
       apply read_written; symmetry; apply length_image32 ]).
Qed.

(** X18: built with the Nuked core, on a Mega Drive, a load is steered
    by the first byte of the state, not by [config.ym3438]: a zero byte
    restores the YM2612 and leaves the Nuked statics, any other byte
    replaces the Nuked statics (the row index unchecked) and leaves the
    YM2612; the configuration and the bound entry points stay as they
    are, and [fm_cycles_start] is read from the last 4 bytes consumed. *)
Theorem sound_context_load_follows_the_state state m n m' :
  HAVE_YM3438_CORE = true ->
  Z.land (system_hw m) SYSTEM_PBC = SYSTEM_MD ->
  sound_context_load state m = Ok (n, m') ->
  ym m' = ym m /\ config m' = config m /\
  fm_cycles_start (fm m') = u32_of_image (read state (n - 4) 4) /\
  if state 0 =? 0 then
    nuked m' = nuked m /\
    ym2612 m' =
      YM2612Config (config_dac_bits (config m))
        (fst (YM2612LoadContext (from state 1) (ym2612 m)))
  else
    ym2612 m' = ym2612 m /\
    ym3438 (nuked m') = ym3438_of_image (read state 1 sizeof_ym3438) /\
    ym3438_accm (nuked m')
      = rows_of_image 24 (read state (1 + Z.of_nat sizeof_ym3438) 192) /\
    ym3438_sample (nuked m')
      = pair_of_image (read state (1 + Z.of_nat sizeof_ym3438 + 192) 8) /\
    ym3438_cycles (nuked m')
      = u32_of_image (read state (1 + Z.of_nat sizeof_ym3438 + 192 + 8) 4).
Proof.
  intros Hhave Hmd.
  unfold sound_context_load, bind, get, modify, ret, load_param.
  rewrite Hhave, Hmd, Z.eqb_refl. cbv beta iota zeta.
  change (u8_of_image (read state 0 1)) with (state (0 + 0)).
  change (0 + 0) with 0.
  destruct (state 0 =? 0); cbn [negb]; cbv beta iota zeta.
  - destruct (YM2612LoadContext _ _) as [chip k] eqn:Hl.
    destruct (psg_context_load _ _) as [p j].
    intros [= <- <-]. simpl.
    repeat split. f_equal. f_equal. lia.
  - destruct (psg_context_load _ _) as [p j].
    intros [= <- <-]. simpl.
    repeat split; try (f_equal; f_equal; lia).
Qed.

End StateLayout.

(** ** Examples: the theorems at concrete inputs, and the inputs at which
    the statements of the design document fail *)

Module Examples.
Import Mock Sessions.
#[local] Existing Instance platform.
#[local] Existing Instance collaborators.

(** closed first-order goals, by evaluation *)
Ltac by_compute :=
  vm_compute; repeat split;
  first [reflexivity | discriminate | intros; discriminate].

Lemma is_ok_after (c : M unit) (m : machine) :
  is_ok (c m) = true -> c m = Ok (tt, after c m).
Proof.
  unfold after. destruct (c m) as [[[] m']| |]; [reflexivity|discriminate..].
Qed.

Lemma is_ok_returns {A} (c : M A) (m : machine) :
  is_ok (c m) = true -> exists a m', c m = Ok (a, m').
Proof.
  destruct (c m) as [[a m']| |]; [eauto|discriminate..].
Qed.




(** what a run that returned leaves, read through a projection *)
Lemma run_project {A B} (f : A -> B) (o : outcome A) (a : A) (b : B) :
  o = Ok a ->
  match o with Ok x => Some (f x) | _ => None end = Some b ->
  f a = b.
Proof. intros -> [= ->]. reflexivity. Qed.

#[local] Instance faithful : Faithful.
Proof.
  constructor.
  - reflexivity.
  - intros []; reflexivity.
  - reflexivity.
  - intros []; reflexivity.
  - intros mem s s0 H. injection H as H.
    change (YM2612LoadContext mem s0)
      with (negb (mem (0 + Z.of_nat 0) =? 0), 1).
    rewrite H. destruct s; reflexivity.
  - intros mem s s0 H. injection H as H.
    change (psg_context_load mem s0)
      with (negb (mem (0 + Z.of_nat 0) =? 0), 1).
    rewrite H. destruct s; reflexivity.
Qed.

Lemma fm_update_contract_witness :
  is_u32 2000 /\ wf_fm md /\ wf_nuked md /\ fm_update_as_documented 2000 md.
Proof.
  assert (Hw : wf_fm md) by (constructor; by_compute).
  assert (Hn : wf_nuked md) by (constructor; by_compute).
  split; [unfold is_u32; lia|]. split; [exact Hw|]. split; [exact Hn|].
  apply (fm_update_contract 2000 md); try exact Hw; try exact Hn;
    try (unfold is_u32; lia); try by_compute.
Defined.

Lemma fm_update_wraps_at_uint32_max :
  ~ fm_update_as_documented 4294967295 md.
Proof.
  intros [H _]. destruct H as (m1 & _ & H2); [by_compute|].
  apply (f_equal (fun o => match o with
                           | Ok (_, m) => fm_ptr (fm m)
                           | _ => 0
                           end)) in H2.
  vm_compute in H2. discriminate H2.
Qed.

Lemma fm_update_seq_contract_witness :
  wf_fm md /\ wf_nuked md /\ ascending 0 [500; 1500; 1500; 2000] /\
  fm_update_seq_as_documented [500; 1500; 1500; 2000] md.
Proof.
  assert (Hw : wf_fm md) by (constructor; by_compute).
  assert (Hn : wf_nuked md) by (constructor; by_compute).
  assert (Ha : ascending 0 [500; 1500; 1500; 2000]) by (simpl; lia).
  split; [exact Hw|]. split; [exact Hn|]. split; [exact Ha|].
  apply (fm_update_seq_contract [500; 1500; 1500; 2000] md Hw Hn);
    try exact Ha; by_compute.
Defined.

Lemma fm_update_seq_wraps_at_uint32_max :
  ~ fm_update_seq_as_documented [4294967295] md.
Proof.
  intros (lens & m' & Hrun & _ & _ & _ & Hptr & _).
  assert (Hp : fm_ptr (fm m') = 0).
  { apply (run_project (fun x => fm_ptr (fm (snd x))) _ _ _ Hrun). by_compute. }
  rewrite Hp in Hptr. vm_compute in Hptr. discriminate Hptr.
Qed.






Lemma sound_update_empty_buffer_witness :
  is_u32 10 /\ wf_fm short_frame /\
  exists n m',
    sound_update 1 10 short_frame = Ok (n, m') /\
    fm_last (fm m') = (100, 100) /\
    fm_cycles_start (fm m') = 1022.
Proof.
  assert (Hw : wf_fm short_frame) by (constructor; by_compute).
  assert (Hu : is_u32 10) by (unfold is_u32; lia).
  split; [exact Hu|]. split; [exact Hw|].
  destruct (sound_update_empty_buffer 0 10 short_frame Hu Hw)
    as (x & y & n & m' & Hx & Hy & Hrun & _ & Hlast & _ & Hstart & _);
    [by_compute|by_compute|by_compute|by_compute|].
  exists n, m'. split; [exact Hrun|].
  rewrite Hlast, Hstart.
  vm_compute in Hx. injection Hx as <-. vm_compute in Hy. injection Hy as <-.
  split; by_compute.
Defined.

Lemma empty_frame_submits_a_delta : ~ empty_frame_as_documented 10 short_frame.
Proof.
  intros H. destruct H as (fuel & n & m' & Hrun & _ & Hlast & _);
    [by_compute|by_compute|].
  destruct fuel as [|fuel].
  - assert (Hc : is_ok (sound_update 0 10 short_frame) = false) by by_compute.
    rewrite Hrun in Hc. discriminate Hc.
  - assert (Hc : match sound_update (S fuel) 10 short_frame with
                 | Ok (_, m) => fm_last (fm m)
                 | _ => (0, 0)
                 end = (100, 100)) by (vm_compute; reflexivity).
    rewrite Hrun, Hlast in Hc. vm_compute in Hc. discriminate Hc.
Qed.

Lemma constant_level_frame_witness :
  wf_fm md /\
  samples_to_run 50000 md = 50 /\
  exists n m',
    sound_update 50 50000 md = Ok (n, m') /\
    blips0 m' = AddDelta 0 100 100
                :: map (fun i => AddDelta (1008 * Z.of_nat i) 0 0) (seq 1 49)
                ++ [EndFrame 50000] /\
    fm_cycles_start (fm m') = 400.
Proof.
  assert (Hw : wf_fm md) by (constructor; by_compute).
  split; [exact Hw|].
  destruct (constant_level_frame md Hw)
    as (Hs & n & m' & Hrun & Hb & Hstart & _);
    [by_compute | intros i; by_compute | by_compute | by_compute | by_compute
    | by_compute | by_compute | by_compute |].
  split; [exact Hs|]. exists n, m'. split; [exact Hrun|].
  split; [|exact Hstart].
  rewrite Hb. vm_compute. reflexivity.
Defined.



Lemma sound_update_residual_witness :
  is_u32 50000 /\ wf_fm md /\
  exists n m',
    sound_update 50 50000 md = Ok (n, m') /\
    0 <= fm_cycles_start (fm m') < 1008.
Proof.
  assert (Hw : wf_fm md) by (constructor; by_compute).
  assert (Hu : is_u32 50000) by (unfold is_u32; lia).
  split; [exact Hu|]. split; [exact Hw|].
  destruct (sound_update_residual 50000 md Hu Hw) as (Hpart & _ & _).
  destruct (is_ok_returns (sound_update 50 50000) md) as (n & m' & Hrun);
    [by_compute|].
  exists n, m'. split; [exact Hrun|].
  destruct (Hpart _ _ _ Hrun) as (_ & Hres & _).
  assert (Hr : fm_cycles_ratio (fm md) = 1008) by by_compute.
  rewrite Hr in Hres. apply Hres. by_compute.
Defined.


Lemma sound_init_does_not_reset :
  ~ sound_init_as_documented (power_up 128 (mock_config 0 1)).
Proof.
  intros (m' & Hrun & _ & _ & Hres & _).
  assert (Hsel : selected_core (power_up 128 (mock_config 0 1)) = YM2612)
    by by_compute.
  rewrite Hsel in Hres. destruct Hres as [s Hs].
  assert (Hc : ym2612 m' = true).
  { apply (run_project (fun x => ym2612 (snd x)) _ _ _ Hrun). by_compute. }
  rewrite Hc in Hs. discriminate Hs.
Qed.

Lemma counters_between_frames_witness :
  (target_fits 1008 (Op_fm_write 1500 0 1) /\
   perform (Op_fm_write 1500 0 1) md
     = Ok (tt, after (perform (Op_fm_write 1500 0 1)) md) /\
   fm_cycles_start (fm (after (perform (Op_fm_write 1500 0 1)) md))
     = fm_cycles_start (fm md) /\
   fm_cycles_count (fm md)
     <= fm_cycles_count (fm (after (perform (Op_fm_write 1500 0 1)) md))) /\
  (perform (Op_sound_update 2 2000) (after (fm_update 2000) md)
     = Ok (tt, after (perform (Op_sound_update 2 2000)) (after (fm_update 2000) md)) /\
   fm_cycles_count
       (fm (after (perform (Op_sound_update 2 2000)) (after (fm_update 2000) md)))
     = fm_cycles_start
         (fm (after (perform (Op_sound_update 2 2000)) (after (fm_update 2000) md))) /\
   exists ss,
     frame_submissions 2 2000 (after (fm_update 2000) md) = Ok ss /\
     fm_cycles_start
         (fm (after (perform (Op_sound_update 2 2000)) (after (fm_update 2000) md)))
       = u32 (fm_cycles_start (fm (after (fm_update 2000) md))
              + Z.of_nat (length ss)
                * fm_cycles_ratio (fm (after (fm_update 2000) md))
              - 2000)) /\
  (perform (Op_sound_context_load crafted_state) md
     = Ok (tt, after (perform (Op_sound_context_load crafted_state)) md) /\
   fm_cycles_count (fm (after (perform (Op_sound_context_load crafted_state)) md))
     = fm_cycles_start (fm (after (perform (Op_sound_context_load crafted_state)) md)) /\
   exists n,
     sound_context_load crafted_state md
       = Ok (n, after (perform (Op_sound_context_load crafted_state)) md) /\
     fm_cycles_start (fm (after (perform (Op_sound_context_load crafted_state)) md))
       = Mem.u32_of_image (Mem.read crafted_state (n - 4) 4)).
Proof.
  split; [|split].
  - assert (Hfit : target_fits 1008 (Op_fm_write 1500 0 1))
      by (simpl; unfold is_u32; lia).
    assert (Hrun : perform (Op_fm_write 1500 0 1) md
                   = Ok (tt, after (perform (Op_fm_write 1500 0 1)) md))
      by (apply is_ok_after; by_compute).
    assert (Hr : fm_cycles_ratio (fm md) = 1008) by by_compute.
    split; [exact Hfit|]. split; [exact Hrun|].
    apply (counters_between_frames (Op_fm_write 1500 0 1) md _);
      [by_compute | by_compute | rewrite Hr; exact Hfit | exact Hrun].
  - assert (Hrun : perform (Op_sound_update 2 2000) (after (fm_update 2000) md)
                   = Ok (tt, after (perform (Op_sound_update 2 2000))
                               (after (fm_update 2000) md)))
      by (apply is_ok_after; by_compute).
    assert (H1 : is_u32 (fm_cycles_ratio (fm (after (fm_update 2000) md))))
      by by_compute.
    assert (H2 : is_u32 (fm_cycles_count (fm (after (fm_update 2000) md))))
      by by_compute.
    split; [exact Hrun|].
    exact (counters_between_frames (Op_sound_update 2 2000)
             (after (fm_update 2000) md) _ H1 H2 I Hrun).
  - assert (Hrun : perform (Op_sound_context_load crafted_state) md
                   = Ok (tt, after (perform (Op_sound_context_load crafted_state)) md))
      by (apply is_ok_after; by_compute).
    assert (H1 : is_u32 (fm_cycles_ratio (fm md))) by by_compute.
    assert (H2 : is_u32 (fm_cycles_count (fm md))) by by_compute.
    split; [exact Hrun|].
    exact (counters_between_frames (Op_sound_context_load crafted_state)
             md _ H1 H2 I Hrun).
Defined.

Lemma frame_end_lowers_the_counter :
  ~ counters_monotone_as_documented (Op_sound_update 2 2000)
      (after (fm_update 2000) md).
Proof.
  intros H.
  destruct (H (after (perform (Op_sound_update 2 2000))
                 (after (fm_update 2000) md))) as [_ Hc].
  { apply is_ok_after. by_compute. }
  vm_compute in Hc. apply Hc. reflexivity.
Qed.

Example md_runs_the_mame_core : fm_cycles_ratio (fm md) = 1008.
Proof. by_compute. Qed.

Example md_fast_runs_the_mame_core : fm_cycles_ratio (fm md_fast) = 1008.
Proof. by_compute. Qed.

Example md_nuked_runs_the_nuked_core :
  fm_cycles_ratio (fm md_nuked) = 42 /\ YM_Read (ym md_nuked) = Some YM3438.
Proof. by_compute. Qed.

Example sms_runs_the_ym2413 :
  fm_cycles_ratio (fm sms) = 1080 /\ YM_Read (ym sms) = None.
Proof. by_compute. Qed.

(** the properties of the remaining code at concrete inputs *)

Lemma YM3438_Update_room_witness :
  wf_nuked md_nuked /\
  exists m', YM3438_Update 0 2 md_nuked = Ok (tt, m').
Proof.
  assert (Hn : wf_nuked md_nuked) by (constructor; by_compute).
  split; [exact Hn|].
  destruct (YM3438_Update_room 0 2 md_nuked Hn ltac:(lia) ltac:(lia)) as [H _].
  apply H. by_compute.
Defined.

Lemma YM3438_Update_effect_witness :
  wf_nuked md_nuked /\
  YM3438_Update 0 2 md_nuked = Ok (tt, after (YM3438_Update 0 2) md_nuked) /\
  ym3438_cycles (nuked (after (YM3438_Update 0 2) md_nuked)) = 2.
Proof.
  assert (Hn : wf_nuked md_nuked) by (constructor; by_compute).
  assert (Hrun : YM3438_Update 0 2 md_nuked = Ok (tt, after (YM3438_Update 0 2) md_nuked))
    by (apply is_ok_after; by_compute).
  split; [exact Hn|]. split; [exact Hrun|].
  assert (Hc0 : (ym3438_cycles (nuked md_nuked) + 2) mod 24 = 2) by by_compute.
  destruct (YM3438_Update_effect 0 2 md_nuked _ Hn ltac:(lia) ltac:(lia) Hrun)
    as (_ & _ & Hc & _).
  exact (eq_trans Hc Hc0).
Defined.

Lemma YM3438_Update_holds_sample_witness :
  wf_nuked md_nuked /\
  YM3438_Update 0 3 md_nuked = Ok (tt, after (YM3438_Update 0 3) md_nuked) /\
  ym3438_sample (nuked (after (YM3438_Update 0 3) md_nuked)) = (0, 0).
Proof.
  assert (Hn : wf_nuked md_nuked) by (constructor; by_compute).
  assert (Hrun : YM3438_Update 0 3 md_nuked = Ok (tt, after (YM3438_Update 0 3) md_nuked))
    by (apply is_ok_after; by_compute).
  split; [exact Hn|]. split; [exact Hrun|].
  assert (Hs0 : ym3438_sample (nuked md_nuked) = (0, 0)) by by_compute.
  assert (Hlt : ym3438_cycles (nuked md_nuked) + 3 < 24) by by_compute.
  destruct (YM3438_Update_holds_sample 0 3 md_nuked (after (YM3438_Update 0 3) md_nuked)
              Hn ltac:(lia) ltac:(lia) Hlt Hrun) as (Hs & _).
  exact (eq_trans Hs Hs0).
Defined.

Lemma YM3438_Update_accumulates_witness :
  wf_nuked md_nuked /\
  YM3438_Update 0 24 md_nuked = Ok (tt, after (YM3438_Update 0 24) md_nuked) /\
  ym3438_cycles (nuked (after (YM3438_Update 0 24) md_nuked)) = 0 /\
  ym3438_sample (nuked (after (YM3438_Update 0 24) md_nuked)) = (24, 24).
Proof.
  assert (Hn : wf_nuked md_nuked) by (constructor; by_compute).
  assert (Hrun : YM3438_Update 0 24 md_nuked = Ok (tt, after (YM3438_Update 0 24) md_nuked))
    by (apply is_ok_after; by_compute).
  split; [exact Hn|]. split; [exact Hrun|].
  assert (Hs0 : accm_sum
                  (take (Z.to_nat (ym3438_cycles (nuked md_nuked)))
                     (ym3438_accm (nuked md_nuked))
                   ++ snd (OPN2_clocks (Z.to_nat 24) (ym3438 (nuked md_nuked))))
                = (24, 24)) by by_compute.
  assert (Heq : ym3438_cycles (nuked md_nuked) + 24 = 24) by by_compute.
  pose proof (YM3438_Update_accumulates 0 24 md_nuked (after (YM3438_Update 0 24) md_nuked)
              Hn ltac:(lia) ltac:(lia) Heq Hrun) as H.
  cbv zeta in H.
  destruct H as (Hc & _ & Hs & _).
  split; [exact Hc|exact (eq_trans Hs Hs0)].
Defined.

Lemma fm_update_room_witness :
  is_u32 2000 /\ wf_fm md /\ wf_nuked md /\
  exists m', fm_update 2000 md = Ok (tt, m') /\ wf_fm m'.
Proof.
  assert (Hu : is_u32 2000) by (unfold is_u32; lia).
  assert (Hw : wf_fm md) by (constructor; by_compute).
  assert (Hn : wf_nuked md) by (constructor; by_compute).
  assert (Hy : YM_Update (ym md) <> None) by by_compute.
  assert (Hr : 1 < fm_cycles_ratio (fm md)) by by_compute.
  assert (Hsum : 2000 + fm_cycles_ratio (fm md) <= 2 ^ 32) by by_compute.
  assert (Hlt : fm_cycles_count (fm md) < 2000) by by_compute.
  split; [exact Hu|]. split; [exact Hw|]. split; [exact Hn|].
  destruct (fm_update_room 2000 md Hu Hw Hn Hy Hr Hsum Hlt) as [H _].
  apply H. by_compute.
Defined.

Lemma fm_update_settles_witness :
  is_u32 2000 /\
  fm_update 2000 md = Ok (tt, after (fm_update 2000) md) /\
  1500 <= 2000 /\
  fm_update 1500 (after (fm_update 2000) md) = Ok (tt, after (fm_update 2000) md).
Proof.
  assert (Hu : is_u32 2000) by (unfold is_u32; lia).
  assert (Hc : is_u32 (fm_cycles_count (fm md))) by by_compute.
  assert (Hr : is_u32 (fm_cycles_ratio (fm md))) by by_compute.
  assert (Hsum : 2000 + fm_cycles_ratio (fm md) <= 2 ^ 32) by by_compute.
  assert (Hrun : fm_update 2000 md = Ok (tt, after (fm_update 2000) md))
    by (apply is_ok_after; by_compute).
  assert (Hle : 1500 <= 2000) by lia.
  split; [exact Hu|]. split; [exact Hrun|]. split; [exact Hle|].
  exact (fm_update_settles 2000 1500 md (after (fm_update 2000) md)
           Hu Hc Hr Hsum Hrun Hle).
Defined.

Lemma fm_read_needs_a_status_port_witness :
  Z.land (system_hw (power_up 32 (mock_config 0 1))) SYSTEM_PBC <> SYSTEM_MD /\
  sound_init (power_up 32 (mock_config 0 1))
    = Ok (tt, after sound_init (power_up 32 (mock_config 0 1))) /\
  sound_reset (after sound_init (power_up 32 (mock_config 0 1))) = Ok (tt, sms) /\
  perform_all [Op_fm_write 3000 0 1] sms
    = Ok (tt, after (perform_all [Op_fm_write 3000 0 1]) sms) /\
  fm_read 4000 0 (after (perform_all [Op_fm_write 3000 0 1]) sms) = Undefined.
Proof.
  assert (Hhw : Z.land (system_hw (power_up 32 (mock_config 0 1))) SYSTEM_PBC
                <> SYSTEM_MD) by by_compute.
  assert (Hinit : sound_init (power_up 32 (mock_config 0 1))
                  = Ok (tt, after sound_init (power_up 32 (mock_config 0 1))))
    by (apply is_ok_after; by_compute).
  assert (Hreset : sound_reset (after sound_init (power_up 32 (mock_config 0 1)))
                   = Ok (tt, sms))
    by (apply is_ok_after; by_compute).
  assert (Hops : perform_all [Op_fm_write 3000 0 1] sms
                 = Ok (tt, after (perform_all [Op_fm_write 3000 0 1]) sms))
    by (apply is_ok_after; by_compute).
  split; [exact Hhw|]. split; [exact Hinit|]. split; [exact Hreset|].
  split; [exact Hops|].
  exact (fm_read_needs_a_status_port [Op_fm_write 3000 0 1] 4000 0 _ _ _ _
           Hhw Hinit Hreset Hops).
Defined.


Lemma fm_update_in_two_steps_witness :
  is_u32 2000 /\ 1500 <= 2000 /\ wf_fm md /\
  fm_update 1500 md = Ok (tt, after (fm_update 1500) md) /\
  fm_update 2000 (after (fm_update 1500) md)
    = Ok (tt, after (fm_update 2000) (after (fm_update 1500) md)) /\
  fm_update 2000 md = Ok (tt, after (fm_update 2000) md) /\
  fm_cycles_count (fm (after (fm_update 2000) (after (fm_update 1500) md)))
    = fm_cycles_count (fm (after (fm_update 2000) md)) /\
  fm_ptr (fm (after (fm_update 2000) (after (fm_update 1500) md)))
    = fm_ptr (fm (after (fm_update 2000) md)).
Proof.
  assert (Hu : is_u32 2000) by (unfold is_u32; lia).
  assert (Hle : 1500 <= 2000) by lia.
  assert (Hw : wf_fm md) by (constructor; by_compute).
  assert (Hr : 1 < fm_cycles_ratio (fm md)) by by_compute.
  assert (Hsum : 2000 + fm_cycles_ratio (fm md) <= 2 ^ 32) by by_compute.
  assert (H1 : fm_update 1500 md = Ok (tt, after (fm_update 1500) md))
    by (apply is_ok_after; by_compute).
  assert (H2 : fm_update 2000 (after (fm_update 1500) md)
               = Ok (tt, after (fm_update 2000) (after (fm_update 1500) md)))
    by (apply is_ok_after; by_compute).
  assert (H3 : fm_update 2000 md = Ok (tt, after (fm_update 2000) md))
    by (apply is_ok_after; by_compute).
  repeat (split; [assumption|]).
  exact (fm_update_in_two_steps 1500 2000 md _ _ _ Hu Hle Hw Hr Hsum H1 H2 H3).
Defined.

Lemma sound_reset_contract_witness :
  YM_Reset (ym (after sound_init (power_up 128 (mock_config 0 1)))) <> None /\
  exists m',
    sound_reset (after sound_init (power_up 128 (mock_config 0 1))) = Ok (tt, m') /\
    fm_ptr (fm m') = 0 /\
    fm_cycles_count (fm m') = 0.
Proof.
  assert (Hy : YM_Reset (ym (after sound_init (power_up 128 (mock_config 0 1)))) <> None)
    by by_compute.
  split; [exact Hy|].
  destruct (sound_reset_contract (after sound_init (power_up 128 (mock_config 0 1))))
    as [_ H].
  destruct (H Hy) as (m' & Hrun & _ & Hp & _ & Hc & _).
  exists m'. split; [exact Hrun|]. split; [exact Hp|exact Hc].
Defined.

Lemma sound_update_carry_amplified_witness :
  exists n m',
    sound_update 50 50000 md = Ok (n, m') /\ amplified (fm_last (fm m')).
Proof.
  destruct (is_ok_returns (sound_update 50 50000) md) as (n & m' & Hrun);
    [by_compute|].
  exists n, m'. split; [exact Hrun|].
  exact (sound_update_carry_amplified 50 50000 md n m' Hrun).
Defined.

Lemma sound_update_deltas_telescope_witness :
  amplified (fm_last (fm md)) /\
  exists n m' ss,
    sound_update 50 50000 md = Ok (n, m') /\
    frame_submissions 50 50000 md = Ok ss /\
    fst (fm_last (fm m')) = fst (fm_last (fm md)) + fst (total_delta ss).
Proof.
  assert (Ha : amplified (fm_last (fm md))) by by_compute.
  split; [exact Ha|].
  destruct (is_ok_returns (sound_update 50 50000) md) as (n & m' & Hrun);
    [by_compute|].
  destruct (sound_update_deltas_telescope 50 50000 md n m' Ha Hrun)
    as (ss & Hss & Hl & _).
  exists n, m', ss. split; [exact Hrun|]. split; [exact Hss|exact Hl].
Defined.

Lemma is_ok_value {A} (o : outcome A) : is_ok o = true -> exists a, o = Ok a.
Proof. destruct o as [a| |]; [eauto|discriminate..]. Qed.

Lemma sound_update_timestamps_witness :
  wf_fm md /\
  exists ss,
    frame_submissions 50 50000 md = Ok ss /\
    forall (i : nat) s, ss !! i = Some s ->
      at_time s = fm_cycles_start (fm md) + Z.of_nat i * fm_cycles_ratio (fm md) /\
      fm_cycles_start (fm md) <= at_time s < 50000.
Proof.
  assert (Hw : wf_fm md) by (constructor; by_compute).
  assert (Hr : 0 < fm_cycles_ratio (fm md)) by by_compute.
  assert (Hsum : 50000 + fm_cycles_ratio (fm md) <= 2 ^ 32) by by_compute.
  assert (Hlt : fm_cycles_start (fm md) < 50000) by by_compute.
  split; [exact Hw|].
  destruct (is_ok_value (frame_submissions 50 50000 md)) as (ss & Hss);
    [by_compute|].
  exists ss. split; [exact Hss|].
  exact (sound_update_timestamps 50 50000 md ss Hw Hr Hsum Hlt Hss).
Defined.

Lemma sound_update_consumes_the_frame_witness :
  is_u32 50000 /\ wf_fm md /\ buffer_tracks_counters md /\
  exists n m' ss,
    sound_update 50 50000 md = Ok (n, m') /\
    frame_submissions 50 50000 md = Ok ss /\
    length ss = 50%nat.
Proof.
  assert (Hu : is_u32 50000) by (unfold is_u32; lia).
  assert (Hw : wf_fm md) by (constructor; by_compute).
  assert (Hr : 1 < fm_cycles_ratio (fm md)) by by_compute.
  assert (Hsum : 50000 + fm_cycles_ratio (fm md) <= 2 ^ 32) by by_compute.
  assert (Ht : buffer_tracks_counters md) by (exists 0; by_compute).
  assert (Hlt : fm_cycles_start (fm md) < 50000) by by_compute.
  assert (Hnear : fm_cycles_count (fm md) < 50000 + fm_cycles_ratio (fm md)) by by_compute.
  split; [exact Hu|]. split; [exact Hw|]. split; [exact Ht|].
  destruct (is_ok_returns (sound_update 50 50000) md) as (n & m' & Hrun);
    [by_compute|].
  destruct (sound_update_consumes_the_frame 50 50000 md n m' Hu Hw Hr Hsum Ht Hlt Hnear Hrun)
    as (m1 & ss & H1 & Hss & Hp & _).
  exists n, m', ss. split; [exact Hrun|]. split; [exact Hss|].
  assert (Hptr : fm_ptr (fm m1) = 100).
  { apply (run_project (fun x => fm_ptr (fm (snd x))) _ _ _ H1). by_compute. }
  lia.
Defined.

Lemma sound_context_save_reads_only_witness :
  exists n state' m',
    sound_context_save Mem.zero after_frame = Ok ((n, state'), m') /\
    fm m' = fm after_frame /\ psg m' = psg after_frame.
Proof.
  destruct (is_ok_returns (sound_context_save Mem.zero) after_frame)
    as ([n state'] & m' & Hrun); [by_compute|].
  destruct (sound_context_save_reads_only Mem.zero after_frame n state' m' Hrun)
    as (Hfm & _ & _ & _ & Hpsg & _).
  exists n, state', m'. split; [exact Hrun|]. split; [exact Hfm|exact Hpsg].
Defined.

Lemma sound_context_save_extent_witness :
  exists n state' m',
    sound_context_save Mem.zero after_frame = Ok ((n, state'), m') /\
    4 <= n /\
    Mem.read state' (n - 4) 4 = Mem.image32 (fm_cycles_start (fm after_frame)).
Proof.
  destruct (is_ok_returns (sound_context_save Mem.zero) after_frame)
    as ([n state'] & m' & Hrun); [by_compute|].
  destruct (sound_context_save_extent Mem.zero after_frame n state' m' Hrun)
    as (Hn & _ & Hread).
  exists n, state', m'. split; [exact Hrun|]. split; [exact Hn|exact Hread].
Defined.

Lemma sound_context_load_follows_the_state_witness :
  HAVE_YM3438_CORE = true /\
  Z.land (system_hw md) SYSTEM_PBC = SYSTEM_MD /\
  exists n m',
    sound_context_load crafted_state md = Ok (n, m') /\
    ym m' = ym md /\ config m' = config md.
Proof.
  assert (Hh : HAVE_YM3438_CORE = true) by reflexivity.
  assert (Hmd : Z.land (system_hw md) SYSTEM_PBC = SYSTEM_MD) by by_compute.
  split; [exact Hh|]. split; [exact Hmd|].
  destruct (is_ok_returns (sound_context_load crafted_state) md) as (n & m' & Hrun);
    [by_compute|].
  destruct (sound_context_load_follows_the_state crafted_state md n m' Hh Hmd Hrun)
    as (Hym & Hcfg & _).
  exists n, m'. split; [exact Hrun|]. split; [exact Hym|exact Hcfg].
Defined.

End Examples.
